(** * Run-orchestration client core: circuit breaker, retry loop, offline
      queue and stream reader

    A shallow embedding of the TypeScript sources

    - [EnhancedAPIClient] (api-client-enhanced): request gate, circuit
      breaker bookkeeping with its recovery timeouts, retry loop with
      backoff, abort timer of a single call, offline priority queue;
    - [useAgentStreamEnhanced]: the stream reader hook (ordered text
      content, bounded error history, stop operation, monitoring);

    together with a model of the run lock that the specification describes.

    JavaScript numbers that the code only uses as integers (counters,
    priorities, sequence numbers, timestamps in milliseconds) are [Z];
    [maxAttempts], which the code only compares, may also be an infinity or
    [NaN]; the backoff arithmetic, which multiplies by fractional factors,
    is done over [Q].  A function of the code that may throw returns an
    [option].  Mutable objects are threaded explicitly as state records;
    promises are split at their [await] points into separate transitions,
    and where time matters a call is given its starting time and the
    durations of the operations it awaits. *)

From Stdlib Require Import ZArith QArith Qminmax Qpower Qfield Qround Lia Lqa
  Ascii.
From stdpp Require Import base tactics option list gmap strings sorting pretty.

Local Open Scope Z_scope.

(** ** EnhancedAPIClient *)

Module ApiClient.

(** *** Types *)

Inductive Method := GET | POST | PUT | DELETE | PATCH.

(** [enum RequestPriority { LOW = 1, NORMAL = 2, HIGH = 3, CRITICAL = 4 }] *)
Inductive RequestPriority := LOW | NORMAL | HIGH | CRITICAL.

Definition priority_value (p : RequestPriority) : Z :=
  match p with LOW => 1 | NORMAL => 2 | HIGH => 3 | CRITICAL => 4 end.

#[global] Instance RequestPriority_eq_dec : EqDecision RequestPriority.
Proof. solve_decision. Defined.

#[global] Instance Method_eq_dec : EqDecision Method.
Proof. solve_decision. Defined.

(** [enum CircuitState { CLOSED, OPEN, HALF_OPEN }] *)
Inductive CircuitState := CLOSED | OPEN | HALF_OPEN.

#[global] Instance CircuitState_eq_dec : EqDecision CircuitState.
Proof. solve_decision. Defined.

(** An [Error] object: its [name], its [message] and the optional numeric
    [status] that [performRequest] attaches to HTTP failures. *)
Record JsError := {
  err_name : string;
  err_message : string;
  err_status : option Z
}.

(** A value of type [number] that the code only compares with the
    attempt counter: a finite number, an infinity or [NaN] ([undefined]
    compares like [NaN]). *)
Inductive JsNumber :=
| Num (value : Q)
| PosInfinity
| NegInfinity
| NaN.

(** [attempt <= n] and [attempt < n] for an integer [attempt]. *)
Definition int_leb (attempt : Z) (n : JsNumber) : bool :=
  match n with
  | Num value => Qle_bool (inject_Z attempt) value
  | PosInfinity => true
  | NegInfinity | NaN => false
  end.

Definition int_ltb (attempt : Z) (n : JsNumber) : bool :=
  match n with
  | Num value => negb (Qle_bool value (inject_Z attempt))
  | PosInfinity => true
  | NegInfinity | NaN => false
  end.

(** What a call of [retryCondition] does: it returns, truthy or not, or it
    throws. *)
Inductive Verdict :=
| Answers (retry : bool)
| ConditionThrows (error : JsError).

(** [interface RetryConfig].  [retryCondition] is optional in the
    interface ([None] is [undefined]); [executeRequest] calls it with a
    non-null assertion.  The four fields of the delay arithmetic are
    finite numbers here. *)
Record RetryConfig := {
  maxAttempts : JsNumber;
  baseDelay : Q;
  maxDelay : Q;
  exponentialBase : Q;
  jitterFactor : Q;
  retryCondition : option (JsError -> Z -> Verdict)
}.

(** [config.retryConfig] is spread over [DEFAULT_RETRY_CONFIG], so every
    field of the override is optional: [None] is a key that is absent.  A
    [retryCondition] key that is present may hold [undefined]. *)
Record RetryOverride := {
  o_maxAttempts : option JsNumber;
  o_baseDelay : option Q;
  o_maxDelay : option Q;
  o_exponentialBase : option Q;
  o_jitterFactor : option Q;
  o_retryCondition : option (option (JsError -> Z -> Verdict))
}.

(** [interface RequestConfig] (headers play no role below and are left
    out; [body] is [None] when it is absent or falsy and otherwise holds
    the text that [JSON.stringify] gives for it). *)
Record RequestConfig := {
  cfg_method : Method;
  cfg_body : option string;
  cfg_timeout : option Z;
  cfg_priority : option RequestPriority;
  cfg_retryConfig : option RetryOverride;
  cfg_cacheKey : option string;
  cfg_optimistic : bool
}.

(** [interface QueuedRequest].  The [resolve]/[reject] closures of the
    promise are represented by the queued record itself. *)
Record QueuedRequest := {
  qr_id : string;
  qr_url : string;
  qr_config : RequestConfig;
  qr_priority : RequestPriority;
  qr_timestamp : Z
}.

(** [interface CircuitBreakerState] *)
Record CircuitBreakerState := {
  cb_state : CircuitState;
  failureCount : Z;
  lastFailureTime : Z;
  successCount : Z
}.

(** [DEFAULT_CIRCUIT_BREAKER_CONFIG] *)
Definition failureThreshold : Z := 5.
Definition recoveryTimeout : Z := 30000.
Definition monitoringWindow : Z := 60000.

(** *** The offline request queue *)

(** [Array.prototype.findIndex]: index of the first element satisfying
    the predicate, [None] standing for [-1]. *)
Fixpoint findIndex {A} (p : A -> bool) (l : list A) : option nat :=
  match l with
  | [] => None
  | x :: l' => if p x then Some 0%nat else S <$> findIndex p l'
  end.

(** [arr.splice(i, 0, x)] *)
Definition splice_insert {A} (i : nat) (x : A) (l : list A) : list A :=
  take i l ++ x :: drop i l.

(** The insertion step of [queueRequest]. *)
Definition insertQueued (queuedRequest : QueuedRequest)
    (requestQueue : list QueuedRequest) : list QueuedRequest :=
  match findIndex (fun req => priority_value (qr_priority req)
                               <? priority_value (qr_priority queuedRequest))
                  requestQueue with
  | None => requestQueue ++ [queuedRequest]
  | Some insertIndex => splice_insert insertIndex queuedRequest requestQueue
  end.

(** *** Circuit breaker bookkeeping *)

(** The object created by [getCircuitBreaker] for an unseen endpoint. *)
Definition freshBreaker : CircuitBreakerState :=
  {| cb_state := CLOSED; failureCount := 0; lastFailureTime := 0;
     successCount := 0 |}.

(** Body of [recordSuccess], on the breaker object. *)
Definition breakerSuccess (circuitBreaker : CircuitBreakerState)
    : CircuitBreakerState :=
  let cb1 := {| cb_state := cb_state circuitBreaker;
                failureCount := failureCount circuitBreaker;
                lastFailureTime := lastFailureTime circuitBreaker;
                successCount := successCount circuitBreaker + 1 |} in
  if decide (cb_state cb1 = HALF_OPEN) then
    if 3 <=? successCount cb1 then
      {| cb_state := CLOSED; failureCount := 0;
         lastFailureTime := lastFailureTime cb1;
         successCount := successCount cb1 |}
    else cb1
  else cb1.

(** Body of [recordFailure], on the breaker object.  The second component
    is the delay of the recovery timer handed to [setTimeout], if one is
    scheduled. *)
Definition breakerFailure (now : Z) (circuitBreaker : CircuitBreakerState)
    : CircuitBreakerState * option Z :=
  let cb1 := {| cb_state := cb_state circuitBreaker;
                failureCount := failureCount circuitBreaker + 1;
                lastFailureTime := now;
                successCount := successCount circuitBreaker |} in
  if decide (cb_state cb1 = CLOSED) then
    if failureThreshold <=? failureCount cb1 then
      ({| cb_state := OPEN; failureCount := failureCount cb1;
          lastFailureTime := lastFailureTime cb1;
          successCount := successCount cb1 |}, Some recoveryTimeout)
    else (cb1, None)
  else (cb1, None).

(** The callback of the recovery timer scheduled by [recordFailure]. *)
Definition breakerRecovery (circuitBreaker : CircuitBreakerState)
    : CircuitBreakerState :=
  if decide (cb_state circuitBreaker = OPEN) then
    {| cb_state := HALF_OPEN; failureCount := failureCount circuitBreaker;
       lastFailureTime := lastFailureTime circuitBreaker;
       successCount := 0 |}
  else circuitBreaker.

(** What happens to one breaker object over time.  A breaker together
    with the number of recovery timers that are scheduled for it and have
    not fired yet. *)
Inductive BreakerEvent :=
| CallSucceeded
| CallFailed (now : Z)
| RecoveryTimerFires.

Definition breakerStep (ev : BreakerEvent) (s : CircuitBreakerState * nat)
    : CircuitBreakerState * nat :=
  let '(cb, pending) := s in
  match ev with
  | CallSucceeded => (breakerSuccess cb, pending)
  | CallFailed now =>
      match breakerFailure now cb with
      | (cb', Some _) => (cb', S pending)
      | (cb', None) => (cb', pending)
      end
  | RecoveryTimerFires =>
      match pending with
      | O => (cb, O)
      | S pending' => (breakerRecovery cb, pending')
      end
  end.

Definition breakerRun (evs : list BreakerEvent)
    (s : CircuitBreakerState * nat) : CircuitBreakerState * nat :=
  foldl (fun s ev => breakerStep ev s) s evs.

(** What holds of a breaker and its pending timers whenever it has been
    driven from a fresh one. *)
Definition breakerInv (s : CircuitBreakerState * nat) : Prop :=
  match cb_state s.1 with
  | CLOSED => 0 <= failureCount s.1 < failureThreshold /\ s.2 = 0%nat
  | OPEN => s.2 = 1%nat
  | HALF_OPEN => s.2 = 0%nat
  end.

(** Event sequences in which no recovery timer fires, and the number of
    successes in a sequence. *)
Definition noTimerFires (evs : list BreakerEvent) : Prop :=
  Forall (fun ev => ev <> RecoveryTimerFires) evs.

Definition successes (evs : list BreakerEvent) : Z :=
  Z.of_nat (length (List.filter
                      (fun ev => match ev with
                                 | CallSucceeded => true
                                 | _ => false
                                 end) evs)).

(** The number of failures at the end of the event sequence with no
    success after them: the consecutive-failure count in the usual sense. *)
Fixpoint trailingFailures (rev_evs : list BreakerEvent) : Z :=
  match rev_evs with
  | CallFailed _ :: evs => 1 + trailingFailures evs
  | RecoveryTimerFires :: evs => trailingFailures evs
  | _ => 0
  end.

Definition consecutiveFailures (evs : list BreakerEvent) : Z :=
  trailingFailures (rev evs).

(** *** The client object *)

(** The mutable fields of [EnhancedAPIClient].  [inFlightRequests] maps a
    request id to its promise; only the key set matters here.  The latency
    metrics are not part of any transition below and are left out.

    [recoveryTimers] holds the timeouts that [recordFailure] has set and
    that have not fired: one entry per timeout, the endpoint of the breaker
    object its callback closes over. *)
Record Client := {
  inFlightRequests : gset string;
  circuitBreakers : gmap string CircuitBreakerState;
  requestQueue : list QueuedRequest;
  isOnline : bool;
  recoveryTimers : list string
}.

Definition setBreakers (m : gmap string CircuitBreakerState) (c : Client)
    : Client :=
  {| inFlightRequests := inFlightRequests c; circuitBreakers := m;
     requestQueue := requestQueue c; isOnline := isOnline c;
     recoveryTimers := recoveryTimers c |}.

Definition setQueue (q : list QueuedRequest) (c : Client) : Client :=
  {| inFlightRequests := inFlightRequests c;
     circuitBreakers := circuitBreakers c;
     requestQueue := q; isOnline := isOnline c;
     recoveryTimers := recoveryTimers c |}.

Definition setInFlight (s : gset string) (c : Client) : Client :=
  {| inFlightRequests := s; circuitBreakers := circuitBreakers c;
     requestQueue := requestQueue c; isOnline := isOnline c;
     recoveryTimers := recoveryTimers c |}.

Definition setOnline (b : bool) (c : Client) : Client :=
  {| inFlightRequests := inFlightRequests c;
     circuitBreakers := circuitBreakers c;
     requestQueue := requestQueue c; isOnline := b;
     recoveryTimers := recoveryTimers c |}.

Definition setTimers (t : list string) (c : Client) : Client :=
  {| inFlightRequests := inFlightRequests c;
     circuitBreakers := circuitBreakers c;
     requestQueue := requestQueue c; isOnline := isOnline c;
     recoveryTimers := t |}.

(** The client right after construction, given [navigator.onLine]. *)
Definition newClient (onLine : bool) : Client :=
  {| inFlightRequests := ∅; circuitBreakers := ∅; requestQueue := [];
     isOnline := onLine; recoveryTimers := [] |}.

(** One of the pending timeouts of an endpoint leaves the list. *)
Fixpoint removeTimer (endpoint : string) (timers : list string)
    : list string :=
  match timers with
  | [] => []
  | e :: rest =>
      if decide (e = endpoint) then rest
      else e :: removeTimer endpoint rest
  end.

(** The number of pending timeouts of an endpoint. *)
Definition pendingTimers (endpoint : string) (c : Client) : nat :=
  length (List.filter (fun e => bool_decide (e = endpoint))
                      (recoveryTimers c)).

(** [getCircuitBreaker]: get or create. *)
Definition getCircuitBreaker (endpoint : string) (c : Client)
    : CircuitBreakerState * Client :=
  match circuitBreakers c !! endpoint with
  | Some cb => (cb, c)
  | None => (freshBreaker,
             setBreakers (<[endpoint := freshBreaker]> (circuitBreakers c)) c)
  end.

(** [recordSuccess] *)
Definition recordSuccess (endpoint : string) (c : Client) : Client :=
  let '(cb, c1) := getCircuitBreaker endpoint c in
  setBreakers (<[endpoint := breakerSuccess cb]> (circuitBreakers c1)) c1.

(** [recordFailure]; also returns the delay of the recovery timer it
    schedules, if any. *)
Definition recordFailure (endpoint : string) (now : Z) (c : Client)
    : Client * option Z :=
  let '(cb, c1) := getCircuitBreaker endpoint c in
  let '(cb', timer) := breakerFailure now cb in
  let c2 := setBreakers (<[endpoint := cb']> (circuitBreakers c1)) c1 in
  (match timer with
   | Some _ => setTimers (recoveryTimers c2 ++ [endpoint]) c2
   | None => c2
   end, timer).

(** A recovery timeout of [endpoint] fires: its callback runs on the
    breaker object of the endpoint.  Without a pending timeout of the
    endpoint there is nothing to fire. *)
Definition recoveryTimerFires (endpoint : string) (c : Client) : Client :=
  if bool_decide (endpoint ∈ recoveryTimers c) then
    setTimers (removeTimer endpoint (recoveryTimers c))
      (setBreakers (alter breakerRecovery endpoint (circuitBreakers c)) c)
  else c.

(** [reset].  The map of breakers is emptied, so the breaker objects that
    pending recovery timeouts close over are no longer those of the
    client: when such a timeout fires it changes nothing the client reads,
    and it leaves the list here. *)
Definition reset (c : Client) : Client :=
  {| inFlightRequests := ∅; circuitBreakers := ∅; requestQueue := [];
     isOnline := isOnline c; recoveryTimers := [] |}.

(** *** Requests *)

Inductive Result :=
| Ok (response : string)
| Err (error : JsError).

(** How a call of [request] proceeds up to its first suspension point. *)
Inductive RequestStart :=
| RequestIdError
    (** [generateRequestId] throws, on the first line of [request] or in
        [queueRequest]: the promise is rejected with its error *)
| Deduplicated (requestId : string)
    (** the promise already stored under [requestId] is returned *)
| CircuitBreakerError (endpoint : string)
    (** an [Error] named ['CircuitBreakerError'] is thrown *)
| Queued (queuedRequest : QueuedRequest)
    (** the promise of [queueRequest] is returned *)
| Started (requestId : string) (fullUrl : string).
    (** [executeRequest] has been called and its promise stored *)

(** Does this start reach [executeRequest], hence [performRequest]? *)
Definition invokesUnderlyingCall (r : RequestStart) : bool :=
  match r with Started _ _ => true | _ => false end.

Section Requests.

(** [generateRequestId] serialises the body with [JSON.stringify] and
    encodes its key with the platform's [btoa], either of which may throw:
    [None]; [extractEndpoint] parses with the platform's [URL] and catches
    what that throws; [API_URL] comes from the process environment.  They
    are parameters here. *)
Variable generateRequestId : string -> RequestConfig -> option string.
Variable extractEndpoint : string -> string.
Variable API_URL : string.

(** [queueRequest]; [None] when [generateRequestId] throws in the executor
    of the promise, which is then rejected with nothing queued. *)
Definition queueRequest (url : string) (config : RequestConfig) (now : Z)
    (c : Client) : option (QueuedRequest * Client) :=
  match generateRequestId url config with
  | None => None
  | Some id =>
      let queuedRequest :=
        {| qr_id := id;
           qr_url := url;
           qr_config := config;
           qr_priority := default NORMAL (cfg_priority config);
           qr_timestamp := now |} in
      Some (queuedRequest,
            setQueue (insertQueued queuedRequest (requestQueue c)) c)
  end.

(** One firing of the interval callback of [startQueueProcessor], up to
    the call of [executeRequest] on the dequeued request. *)
Definition queueProcessorTick (c : Client) : option QueuedRequest * Client :=
  if negb (isOnline c) || bool_decide (length (requestQueue c) = 0%nat)
  then (None, c)
  else match requestQueue c with
       | [] => (None, c)
       | request :: rest => (Some request, setQueue rest c)
       end.

(** [const fullUrl = url.startsWith('http') ? url : `${API_URL}${url}`] *)
Definition fullUrlOf (url : string) : string :=
  if String.prefix "http" url then url else String.append API_URL url.

(** [request], from its call to the point where it throws, returns a
    stored promise, or awaits the promise of [executeRequest]. *)
Definition request_begin (url : string) (config : RequestConfig) (now : Z)
    (c : Client) : RequestStart * Client :=
  match generateRequestId url config with
  | None => (RequestIdError, c)
  | Some requestId =>
      let fullUrl := fullUrlOf url in
      if bool_decide (requestId ∈ inFlightRequests c)
         && negb (cfg_optimistic config)
      then (Deduplicated requestId, c)
      else
        let endpoint := extractEndpoint fullUrl in
        let '(circuitBreaker, c1) := getCircuitBreaker endpoint c in
        if decide (cb_state circuitBreaker = OPEN)
        then (CircuitBreakerError endpoint, c1)
        else if negb (isOnline c1)
        then match queueRequest fullUrl config now c1 with
             | Some (q, c2) => (Queued q, c2)
             | None => (RequestIdError, c1)
             end
        else (Started requestId fullUrl,
              setInFlight ({[requestId]} ∪ inFlightRequests c1) c1)
  end.

(** [request], after the promise of [executeRequest] has settled, for the
    request that was begun with [url] and [config]: its [requestId] and
    [endpoint] are the ones computed when it began.  A request whose id
    could not be computed was never begun and has nothing to finish. *)
Definition request_finish (url : string) (config : RequestConfig)
    (result : Result) (now : Z) (c : Client) : Client * option Z :=
  match generateRequestId url config with
  | None => (c, None)
  | Some requestId =>
      let fullUrl := fullUrlOf url in
      let endpoint := extractEndpoint fullUrl in
      let '(c1, timer) :=
        match result with
        | Ok _ => (recordSuccess endpoint c, None)
        | Err _ => recordFailure endpoint now c
        end in
      (setInFlight (inFlightRequests c1 ∖ {[requestId]}) c1, timer)
  end.

(** The events that change the client object. *)
Inductive ClientEvent :=
| EvRequest (url : string) (config : RequestConfig) (now : Z)
| EvSettled (url : string) (config : RequestConfig) (result : Result)
    (now : Z)
| EvRecoveryTimer (endpoint : string)
| EvQueueTick
| EvOnline
| EvOffline
| EvReset.

(** The client, and the queued requests handed to [executeRequest] by the
    queue processor so far, oldest first. *)
Definition clientStep (ev : ClientEvent)
    (s : Client * list QueuedRequest) : Client * list QueuedRequest :=
  let '(c, processed) := s in
  match ev with
  | EvRequest url config now => ((request_begin url config now c).2, processed)
  | EvSettled url config result now =>
      ((request_finish url config result now c).1, processed)
  | EvRecoveryTimer endpoint => (recoveryTimerFires endpoint c, processed)
  | EvQueueTick =>
      match queueProcessorTick c with
      | (Some request, c') => (c', processed ++ [request])
      | (None, c') => (c', processed)
      end
  | EvOnline => (setOnline true c, processed)
  | EvOffline => (setOnline false c, processed)
  | EvReset => (reset c, processed)
  end.

Definition clientRun (evs : list ClientEvent)
    (s : Client * list QueuedRequest) : Client * list QueuedRequest :=
  foldl (fun s ev => clientStep ev s) s evs.

(** Vocabulary for the statements about the request gate. *)

(** The breaker endpoint of a request, and the state of its breaker. *)
Definition endpointOf (url : string) : string :=
  extractEndpoint (fullUrlOf url).

(** The first test of [request]: is the call answered with the promise of
    an identical request in flight? *)
Definition deduplicates (url : string) (config : RequestConfig)
    (c : Client) : bool :=
  match generateRequestId url config with
  | Some requestId =>
      bool_decide (requestId ∈ inFlightRequests c)
      && negb (cfg_optimistic config)
  | None => false
  end.

(** Vocabulary for the statements about the queue. *)

(** The numeric priority of a queued request. *)
Definition prio (q : QueuedRequest) : Z := priority_value (qr_priority q).

(** Non-increasing priority from front to back. *)
Definition priorityOrdered (q : list QueuedRequest) : Prop :=
  StronglySorted (fun a b => prio b <= prio a) q.

(** The priority a request is made with: [config.priority ||
    RequestPriority.NORMAL]. *)
Definition requestedPriority (config : RequestConfig) : Z :=
  priority_value (default NORMAL (cfg_priority config)).

(** A request as [queueRequest] records it, if it records it. *)
Definition queuedOf (req : string * RequestConfig * Z)
    : option QueuedRequest :=
  let '(url, config, now) := req in
  fst <$> queueRequest url config now (newClient false).

(** Several calls of [queueRequest] in a row. *)
Definition enqueueAll (reqs : list (string * RequestConfig * Z))
    (c : Client) : Client :=
  foldl (fun c req => let '(url, config, now) := req in
                      match queueRequest url config now c with
                      | Some (_, c') => c'
                      | None => c
                      end) c reqs.

(** Every entry of a queue carries the priority its request was made
    with. *)
Definition asRequested (l : list QueuedRequest) : Prop :=
  Forall (fun x => priority_value (qr_priority x)
                   = requestedPriority (qr_config x)) l.

(** The queued requests made with one priority, in the order of the
    list. *)
Definition requestedWith (p : Z) (l : list QueuedRequest)
    : list QueuedRequest :=
  List.filter (fun q => bool_decide (requestedPriority (qr_config q) = p)) l.

(** The requests of one priority, in the order of the list. *)
Definition withPriority (p : RequestPriority) (l : list QueuedRequest)
    : list QueuedRequest :=
  List.filter (fun q => bool_decide (qr_priority q = p)) l.

End Requests.

(** *** The functions of the platform, for the examples *)

(** The strings of this development hold the UTF-8 encoding of the
    strings of the program.  [latin1] gives the code units of a string all
    of whose characters are below 256, and [None] for any other string. *)
Fixpoint latin1 (bytes : list N) : option (list N) :=
  match bytes with
  | [] => Some []
  | b :: rest =>
      if (b <? 128)%N then cons b <$> latin1 rest
      else if (b =? 194)%N || (b =? 195)%N then
        match rest with
        | b' :: rest' =>
            if (128 <=? b')%N && (b' <? 192)%N
            then cons ((b - 192) * 64 + (b' - 128))%N <$> latin1 rest'
            else None
        | [] => None
        end
      else None
  end.

Definition base64Alphabet : string :=
  "ABCDEFGHIJKLMNOPQRSTUVWXYZabcdefghijklmnopqrstuvwxyz0123456789+/".

Definition base64Digit (n : N) : ascii :=
  default "="%char (String.get (N.to_nat n) base64Alphabet).

(** Base64 of a sequence of bytes, with its padding. *)
Fixpoint base64 (bytes : list N) : string :=
  match bytes with
  | [] => ""
  | [a] =>
      String (base64Digit (a / 4))
        (String (base64Digit (a mod 4 * 16)) "==")
  | [a; b] =>
      String (base64Digit (a / 4))
        (String (base64Digit (a mod 4 * 16 + b / 16))
           (String (base64Digit (b mod 16 * 4)) "="))
  | a :: b :: c :: rest =>
      String (base64Digit (a / 4))
        (String (base64Digit (a mod 4 * 16 + b / 16))
           (String (base64Digit (b mod 16 * 4 + c / 64))
              (String (base64Digit (c mod 64)) (base64 rest))))
  end%N.

(** [btoa]; [None] is its [InvalidCharacterError], thrown for a string
    with a character outside Latin-1. *)
Definition btoa (s : string) : option string :=
  base64 <$> latin1 (N_of_ascii <$> String.list_ascii_of_string s).

(** [.replace(/[^a-zA-Z0-9]/g, '')] *)
Definition isAlphanumeric (a : ascii) : bool :=
  let n := nat_of_ascii a in
  ((48 <=? n) && (n <=? 57) || (65 <=? n) && (n <=? 90)
   || (97 <=? n) && (n <=? 122))%nat.

Fixpoint keepAlphanumeric (s : string) : string :=
  match s with
  | EmptyString => EmptyString
  | String a s' =>
      if isAlphanumeric a then String a (keepAlphanumeric s')
      else keepAlphanumeric s'
  end.

Definition methodName (m : Method) : string :=
  match m with
  | GET => "GET" | POST => "POST" | PUT => "PUT" | DELETE => "DELETE"
  | PATCH => "PATCH"
  end.

(** [generateRequestId], with the [btoa] above.  The statements below hold
    for any function in its place and take it as a parameter; the examples
    use this one. *)
Definition generateRequestId (url : string) (config : RequestConfig)
    : option string :=
  let template :=
    String.append (methodName (cfg_method config))
      (String.append ":"
         (String.append url
            (String.append ":" (default "{}" (cfg_body config))))) in
  let key := match cfg_cacheKey config with
             | Some cacheKey =>
                 if bool_decide (cacheKey = "") then template else cacheKey
             | None => template
             end in
  keepAlphanumeric <$> btoa key.

(** [s.split(sep)] *)
Fixpoint split (sep : ascii) (s : string) : list string :=
  match s with
  | EmptyString => [EmptyString]
  | String a s' =>
      if Ascii.eqb a sep then EmptyString :: split sep s'
      else match split sep s' with
           | part :: parts => String a part :: parts
           | [] => [String a EmptyString]
           end
  end.

(** The part of a string before the first character that satisfies
    [stop], and the rest. *)
Fixpoint span (stop : ascii -> bool) (s : string) : string * string :=
  match s with
  | EmptyString => (EmptyString, EmptyString)
  | String a s' =>
      if stop a then (EmptyString, s)
      else let '(before, rest) := span stop s' in (String a before, rest)
  end.

(** [s.substring(n)] *)
Fixpoint dropChars (n : nat) (s : string) : string :=
  match n, s with
  | O, _ => s
  | S n', String _ s' => dropChars n' s'
  | S _, EmptyString => EmptyString
  end.

(** [new URL(url).pathname], for a URL of the scheme [http] or [https]
    whose host and path the parser takes over as they are written (no
    credentials, no dot segments, nothing to escape), and for a string
    without a colon; [None] where [new URL] throws, as it does for every
    string without a scheme and for an empty host.  Other strings are not
    among the examples. *)
Definition pathname (url : string) : option string :=
  let afterScheme :=
    if String.prefix "http://" url
    then Some (dropChars 7 url)
    else if String.prefix "https://" url
    then Some (dropChars 8 url)
    else None in
  match afterScheme with
  | None => None
  | Some rest =>
      let delimiter (a : ascii) :=
        Ascii.eqb a "/" || Ascii.eqb a "?" || Ascii.eqb a "#" in
      let '(host, afterHost) := span delimiter rest in
      if bool_decide (host = "") then None
      else
        let '(path, _) :=
          span (fun a => Ascii.eqb a "?" || Ascii.eqb a "#") afterHost in
        Some (if bool_decide (path = "") then "/" else path)
  end.

(** [extractEndpoint], with the [pathname] above. *)
Definition extractEndpoint (url : string) : string :=
  match pathname url with
  | Some path =>
      let pathParts :=
        List.filter (fun part => negb (bool_decide (part = "")))
                    (split "/" path) in
      String.concat "/" (take 2 pathParts)
  | None => url
  end.

(** A value of [NEXT_PUBLIC_BACKEND_URL]. *)
Definition API_URL : string := "https://api.example.com".

(** A plain [GET] without options, as [enhancedApiClient.get(url)] builds
    it. *)
Definition plainGet : RequestConfig :=
  {| cfg_method := GET; cfg_body := None; cfg_timeout := None;
     cfg_priority := None; cfg_retryConfig := None; cfg_cacheKey := None;
     cfg_optimistic := false |}.

(** A [GET] with a cache key. *)
Definition withCacheKey (cacheKey : string) : RequestConfig :=
  {| cfg_method := GET; cfg_body := None; cfg_timeout := None;
     cfg_priority := None; cfg_retryConfig := None;
     cfg_cacheKey := Some cacheKey; cfg_optimistic := false |}.

(** The error [performRequest] throws when its abort timer has fired. *)
Definition timeoutError : JsError :=
  {| err_name := "TimeoutError"; err_message := "Request timeout";
     err_status := None |}.

(** A scenario: a request for [url0] is started and stays in flight while
    five other requests to the same endpoint fail. *)
Definition failingRequests (url0 : string) (urls : list string)
    : list (ClientEvent) :=
  EvRequest url0 plainGet 0
  :: concat ((fun url => [EvRequest url plainGet 1;
                          EvSettled url plainGet (Err timeoutError) 2])
             <$> urls).

(** A scenario for one breaker: two failures, a success, three failures. *)
Definition interruptedFailures : list BreakerEvent :=
  [CallFailed 1; CallFailed 2; CallSucceeded;
   CallFailed 3; CallFailed 4; CallFailed 5].

(** A scenario for one breaker: five failures open it and its recovery
    timer fires. *)
Definition tripAndRecover : list BreakerEvent :=
  [CallFailed 1; CallFailed 2; CallFailed 3; CallFailed 4; CallFailed 5;
   RecoveryTimerFires].

(** A client that is online and whose breaker for ["api/agents"] has gone
    through [tripAndRecover]. *)
Definition recoveringClient : Client :=
  setBreakers
    {[ "api/agents" := (breakerRun tripAndRecover (freshBreaker, 0%nat)).1 ]}
    (newClient true).

(** Scenarios for one breaker: two failures and a success; and, once the
    breaker is half-open, a success, a failure and two more successes. *)
Definition twoFailuresThenSuccess : list BreakerEvent :=
  [CallFailed 1; CallFailed 2; CallSucceeded].

Definition interruptedProbes : list BreakerEvent :=
  [CallSucceeded; CallFailed 6; CallSucceeded; CallSucceeded].

(** *** Retry loop *)

(** [DEFAULT_RETRY_CONFIG] *)
Definition DEFAULT_RETRY_CONFIG : RetryConfig :=
  {| maxAttempts := Num 3;
     baseDelay := 1000;
     maxDelay := 30000;
     exponentialBase := 2;
     jitterFactor := 1 # 10;
     retryCondition := Some (fun error attempt =>
       Answers
         (if bool_decide (err_name error = "NetworkError")
             || bool_decide (err_name error = "TimeoutError") then true
          else match err_status error with
               | Some status => (500 <=? status) || (status =? 429)
               | None => attempt <? 2
               end)) |}.

(** [{ ...DEFAULT_RETRY_CONFIG, ...config.retryConfig }] *)
Definition mergeRetryConfig (o : option RetryOverride) : RetryConfig :=
  match o with
  | None => DEFAULT_RETRY_CONFIG
  | Some o =>
      {| maxAttempts := default (maxAttempts DEFAULT_RETRY_CONFIG)
                                (o_maxAttempts o);
         baseDelay := default (baseDelay DEFAULT_RETRY_CONFIG) (o_baseDelay o);
         maxDelay := default (maxDelay DEFAULT_RETRY_CONFIG) (o_maxDelay o);
         exponentialBase := default (exponentialBase DEFAULT_RETRY_CONFIG)
                                    (o_exponentialBase o);
         jitterFactor := default (jitterFactor DEFAULT_RETRY_CONFIG)
                                 (o_jitterFactor o);
         retryCondition := default (retryCondition DEFAULT_RETRY_CONFIG)
                                   (o_retryCondition o) |}
  end.

(** [calculateRetryDelay]; [random] is the value of [Math.random()].  The
    arithmetic is that of the rationals: the code computes in doubles,
    which round every operation and leave the finite numbers once a
    magnitude passes [2 ^ 1024].  Statements about the delay keep the
    magnitudes far below that and claim nothing that rounding can
    change. *)
Definition calculateRetryDelay (attempt : Z) (config : RetryConfig)
    (random : Q) : Q :=
  let exponentialDelay :=
    (baseDelay config * exponentialBase config ^ (attempt - 1))%Q in
  let jitter :=
    (exponentialDelay * jitterFactor config * (random * 2 - 1))%Q in
  let totalDelay := Qmin (exponentialDelay + jitter)%Q (maxDelay config) in
  Qmax totalDelay 0.

(** What [executeRequest] does, seen from outside: the attempts it made
    (the values of the loop counter, in order), the delays it slept
    between them, and how it ended. *)
Inductive Settled :=
| Returned (response : string)
| Thrown (error : JsError).

Record Execution := {
  ex_attempts : list Z;
  ex_delays : list Q;
  ex_outcome : Settled
}.

(** The error thrown when the loop ends with no [lastError]. *)
Definition exhaustedError : JsError :=
  {| err_name := "Error";
     err_message := "Request failed after all retry attempts";
     err_status := None |}.

(** The error of calling [retryConfig.retryCondition] when it holds
    [undefined]. *)
Definition notAFunction : JsError :=
  {| err_name := "TypeError";
     err_message := "retryConfig.retryCondition is not a function";
     err_status := None |}.

(** [attempt++]: the counter is a double, and from [2 ^ 53] on adding one
    rounds back to the counter. *)
Definition increment (attempt : Z) : Z :=
  if attempt <? 2 ^ 53 then attempt + 1 else attempt.

Section Retry.

(** The outside world: how the [n]-th call of [performRequest] settles,
    and the value [Math.random()] returns when the delay after the [n]-th
    call is computed.  Every call of [performRequest] is taken to settle. *)
Variable performRequest : Z -> Result.
Variable random : Z -> Q.

(** The [for] loop of [executeRequest], one iteration per unit of fuel;
    [None] when the fuel does not reach the end of the loop.  The call
    made in an iteration is the next after those recorded in
    [attempts]. *)
Fixpoint retryLoop (fuel : nat) (retryConfig : RetryConfig) (attempt : Z)
    (lastError : option JsError) (attempts : list Z) (delays : list Q)
    : option Execution :=
  match fuel with
  | O => None
  | S fuel' =>
      let call := Z.of_nat (length attempts) + 1 in
      if int_leb attempt (maxAttempts retryConfig) then
        match performRequest call with
        | Ok response =>
            Some {| ex_attempts := attempts ++ [attempt];
                    ex_delays := delays;
                    ex_outcome := Returned response |}
        | Err error =>
            if int_ltb attempt (maxAttempts retryConfig) then
              match retryCondition retryConfig with
              | None =>
                  Some {| ex_attempts := attempts ++ [attempt];
                          ex_delays := delays;
                          ex_outcome := Thrown notAFunction |}
              | Some condition =>
                  match condition error attempt with
                  | Answers true =>
                      let delay := calculateRetryDelay attempt retryConfig
                                                       (random call) in
                      retryLoop fuel' retryConfig (increment attempt)
                                (Some error) (attempts ++ [attempt])
                                (delays ++ [delay])
                  | Answers false =>
                      Some {| ex_attempts := attempts ++ [attempt];
                              ex_delays := delays;
                              ex_outcome := Thrown error |}
                  | ConditionThrows thrown =>
                      Some {| ex_attempts := attempts ++ [attempt];
                              ex_delays := delays;
                              ex_outcome := Thrown thrown |}
                  end
              end
            else
              Some {| ex_attempts := attempts ++ [attempt];
                      ex_delays := delays;
                      ex_outcome := Thrown error |}
        end
      else
        Some {| ex_attempts := attempts;
                ex_delays := delays;
                ex_outcome := Thrown (default exhaustedError lastError) |}
  end.

(** [executeRequest] *)
Definition executeRequest (fuel : nat) (config : RequestConfig)
    : option Execution :=
  let retryConfig := mergeRetryConfig (cfg_retryConfig config) in
  retryLoop fuel retryConfig 1 None [] [].

(** How the [attempt]-th call of [performRequest] settles. *)
Definition settle (attempt : Z) : Settled :=
  match performRequest attempt with
  | Ok response => Returned response
  | Err error => Thrown error
  end.

(** The delay slept after the [attempt]-th call, when one is slept. *)
Definition delayAfter (retryConfig : RetryConfig) (attempt : Z) : Q :=
  calculateRetryDelay attempt retryConfig (random attempt).

(** The loop consults the retry condition about the failure of the
    [attempt]-th call, and the condition is not a function or throws. *)
Definition conditionFails (retryConfig : RetryConfig) (attempt : Z)
    (thrown : JsError) : Prop :=
  int_ltb attempt (maxAttempts retryConfig) = true
  /\ exists error,
       performRequest attempt = Err error
       /\ match retryCondition retryConfig with
          | None => thrown = notAFunction
          | Some condition => condition error attempt = ConditionThrows thrown
          end.

(** The retry condition is a function and returns wherever the loop
    consults it about the [attempt]-th call. *)
Definition conditionAnswers (retryConfig : RetryConfig) (attempt : Z)
    : Prop :=
  forall error,
    performRequest attempt = Err error ->
    int_ltb attempt (maxAttempts retryConfig) = true ->
    exists condition retry,
      retryCondition retryConfig = Some condition
      /\ condition error attempt = Answers retry.

(** How the loop ends when its last call is the [n]-th: as that call
    settles, unless the retry condition is consulted and fails. *)
Definition endsAfter (retryConfig : RetryConfig) (n : Z)
    (outcome : Settled) : Prop :=
  (conditionAnswers retryConfig n -> outcome = settle n)
  /\ (forall thrown,
        conditionFails retryConfig n thrown -> outcome = Thrown thrown).

(** Every call fails and the retry condition asks for another one. *)
Definition alwaysRetried (retryConfig : RetryConfig) : Prop :=
  forall call attempt,
    exists error condition,
      performRequest call = Err error
      /\ retryCondition retryConfig = Some condition
      /\ condition error attempt = Answers true.

End Retry.

(** Requests whose retry configuration overrides one field: a negative
    [maxDelay], a [maxAttempts] of 0, a [maxAttempts] of [Infinity], and a
    [retryCondition] that is [undefined]. *)
Definition withRetry (o : RetryOverride) : RequestConfig :=
  {| cfg_method := GET; cfg_body := None; cfg_timeout := None;
     cfg_priority := None; cfg_retryConfig := Some o; cfg_cacheKey := None;
     cfg_optimistic := false |}.

Definition negativeMaxDelay : RetryOverride :=
  {| o_maxAttempts := None; o_baseDelay := None;
     o_maxDelay := Some (-1)%Q; o_exponentialBase := None;
     o_jitterFactor := None; o_retryCondition := None |}.

Definition zeroAttempts : RetryOverride :=
  {| o_maxAttempts := Some (Num 0); o_baseDelay := None;
     o_maxDelay := None; o_exponentialBase := None;
     o_jitterFactor := None; o_retryCondition := None |}.

Definition unboundedAttempts : RetryOverride :=
  {| o_maxAttempts := Some PosInfinity; o_baseDelay := None;
     o_maxDelay := None; o_exponentialBase := None;
     o_jitterFactor := None; o_retryCondition := None |}.

Definition undefinedCondition : RetryOverride :=
  {| o_maxAttempts := None; o_baseDelay := None;
     o_maxDelay := None; o_exponentialBase := None;
     o_jitterFactor := None; o_retryCondition := Some None |}.

(** The bounds on a delay under a retry configuration. *)
Definition delayBounded (retryConfig : RetryConfig) (delay : Q) : Prop :=
  (0 <= delay)%Q /\ (delay <= Qmax (maxDelay retryConfig) 0)%Q.

(** The magnitudes for which the arithmetic of the delay after [attempt]
    stays finite in doubles, with room to spare. *)
Definition delayArithmeticFinite (retryConfig : RetryConfig) (attempt : Z)
    : Prop :=
  let small (x : Q) := (- 2 ^ 300 <= x /\ x <= 2 ^ 300)%Q in
  small (baseDelay retryConfig)
  /\ small (jitterFactor retryConfig)
  /\ small (maxDelay retryConfig)
  /\ small (exponentialBase retryConfig ^ (attempt - 1))%Q.

End ApiClient.

(** ** useAgentStreamEnhanced *)

Module AgentStream.

(** *** String helpers of the platform *)

(** [hay.includes(needle)] *)
Fixpoint includes (needle hay : string) : bool :=
  String.prefix needle hay
  || match hay with
     | EmptyString => false
     | String _ hay' => includes needle hay'
     end.

(** [toLowerCase], on the ASCII letters. *)
Definition lower_ascii (a : ascii) : ascii :=
  let n := nat_of_ascii a in
  if (65 <=? n)%nat && (n <=? 90)%nat then ascii_of_nat (n + 32) else a.

Fixpoint toLowerCase (s : string) : string :=
  match s with
  | EmptyString => EmptyString
  | String a s' => String (lower_ascii a) (toLowerCase s')
  end.

(** [s.substring(n)] *)
Fixpoint substringFrom (n : nat) (s : string) : string :=
  match n, s with
  | O, _ => s
  | S n', String _ s' => substringFrom n' s'
  | S _, EmptyString => EmptyString
  end.

(** The ASCII white space removed by [trim]. *)
Definition is_ws (a : ascii) : bool :=
  let n := nat_of_ascii a in
  (n =? 32)%nat || ((9 <=? n)%nat && (n <=? 13)%nat).

Fixpoint trimStart (s : string) : string :=
  match s with
  | EmptyString => EmptyString
  | String a s' => if is_ws a then trimStart s' else s
  end.

Definition trim (s : string) : string :=
  String.rev (trimStart (String.rev (trimStart s))).

(** *** Types *)

Inductive HealthStatus := healthy | degraded | disconnected.

#[global] Instance HealthStatus_eq_dec : EqDecision HealthStatus.
Proof. solve_decision. Defined.

Inductive Severity := low | medium | high | critical.

#[global] Instance Severity_eq_dec : EqDecision Severity.
Proof. solve_decision. Defined.

Record ConnectionHealth := {
  ch_status : HealthStatus;
  lastHeartbeat : Z;
  latency : Z;
  reconnectAttempts : Z
}.

Record ProgressInfo := {
  percentage : Z;
  currentStep : string;
  estimatedTimeRemaining : option Z;
  completedSteps : list string
}.

Record ErrorEvent := {
  ev_timestamp : Z;
  ev_type : string;
  ev_message : string;
  ev_severity : Severity;
  ev_recoverable : bool
}.

Record EnhancedStreamState := {
  connectionHealth : ConnectionHealth;
  progress : ProgressInfo;
  retryCount : Z;
  errorHistory : list ErrorEvent;
  isRecovering : bool;
  queuePosition : option Z
}.

(** [Partial<ConnectionHealth>] and [Partial<ProgressInfo>]: the keys that
    are present. *)
Record HealthUpdate := {
  hu_status : option HealthStatus;
  hu_lastHeartbeat : option Z;
  hu_latency : option Z;
  hu_reconnectAttempts : option Z
}.

Record ProgressUpdate := {
  pu_percentage : option Z;
  pu_currentStep : option string;
  pu_estimatedTimeRemaining : option Z;
  pu_completedSteps : option (list string)
}.

(** An element of the [textContent] state array. *)
Record Chunk := {
  content : string;
  sequence : option Z
}.

(** The fields of [UnifiedMessage], [ParsedContent] and [ParsedMetadata]
    (declared in the thread component's types) that the hook reads. *)
Record UnifiedMessage := {
  msg_type : string;
  msg_content : string;
  msg_metadata : string;
  msg_message_id : option string;
  msg_sequence : option Z;
  msg_status : option string
}.

Record ParsedContent := {
  pc_content : option string;
  pc_rest : string
}.

Record ParsedMetadata := {
  stream_status : option string
}.

(** Calls that leave the hook: the caller's callbacks, toasts, and the API
    functions. *)
Inductive Effect :=
| OnMessage (message : UnifiedMessage)
| OnProgressUpdate (p : ProgressInfo)
| OnConnectionChange (h : ConnectionHealth)
| OnError (e : ErrorEvent)
| OnClose (finalStatus : string)
| OnAssistantStart
| OnAssistantChunk (chunk : string)
| ToastError (message : string) (duration : Z)
| CallStopAgent (runId : string)
| CallStreamAgent (runId : string)
| CallStreamCleanup
| ClearHeartbeatInterval
| ClearStatusPollInterval.

(** The React state and refs of one mounted hook, with the effects it has
    issued so far (oldest first).  A ref that holds a handle or [null] is
    a [bool]: is there a handle. *)
Record Hook := {
  agentRunId : option string;
  status : string;
  textContent : list Chunk;
  toolCall : option ParsedContent;
  error : option string;
  streamState : EnhancedStreamState;
  streamCleanupRef : bool;
  isMountedRef : bool;
  currentRunIdRef : option string;
  heartbeatIntervalRef : bool;
  statusPollIntervalRef : bool;
  effects : list Effect
}.

Definition setAgentRunId (v : option string) (h : Hook) : Hook :=
  {| agentRunId := v; status := status h; textContent := textContent h;
     toolCall := toolCall h; error := error h; streamState := streamState h;
     streamCleanupRef := streamCleanupRef h; isMountedRef := isMountedRef h;
     currentRunIdRef := currentRunIdRef h;
     heartbeatIntervalRef := heartbeatIntervalRef h;
     statusPollIntervalRef := statusPollIntervalRef h;
     effects := effects h |}.

Definition setStatus (v : string) (h : Hook) : Hook :=
  {| agentRunId := agentRunId h; status := v; textContent := textContent h;
     toolCall := toolCall h; error := error h; streamState := streamState h;
     streamCleanupRef := streamCleanupRef h; isMountedRef := isMountedRef h;
     currentRunIdRef := currentRunIdRef h;
     heartbeatIntervalRef := heartbeatIntervalRef h;
     statusPollIntervalRef := statusPollIntervalRef h;
     effects := effects h |}.

Definition setTextContent (v : list Chunk) (h : Hook) : Hook :=
  {| agentRunId := agentRunId h; status := status h; textContent := v;
     toolCall := toolCall h; error := error h; streamState := streamState h;
     streamCleanupRef := streamCleanupRef h; isMountedRef := isMountedRef h;
     currentRunIdRef := currentRunIdRef h;
     heartbeatIntervalRef := heartbeatIntervalRef h;
     statusPollIntervalRef := statusPollIntervalRef h;
     effects := effects h |}.

Definition setToolCall (v : option ParsedContent) (h : Hook) : Hook :=
  {| agentRunId := agentRunId h; status := status h;
     textContent := textContent h;
     toolCall := v; error := error h; streamState := streamState h;
     streamCleanupRef := streamCleanupRef h; isMountedRef := isMountedRef h;
     currentRunIdRef := currentRunIdRef h;
     heartbeatIntervalRef := heartbeatIntervalRef h;
     statusPollIntervalRef := statusPollIntervalRef h;
     effects := effects h |}.

Definition setError (v : option string) (h : Hook) : Hook :=
  {| agentRunId := agentRunId h; status := status h;
     textContent := textContent h;
     toolCall := toolCall h; error := v; streamState := streamState h;
     streamCleanupRef := streamCleanupRef h; isMountedRef := isMountedRef h;
     currentRunIdRef := currentRunIdRef h;
     heartbeatIntervalRef := heartbeatIntervalRef h;
     statusPollIntervalRef := statusPollIntervalRef h;
     effects := effects h |}.

Definition setStreamState (v : EnhancedStreamState) (h : Hook) : Hook :=
  {| agentRunId := agentRunId h; status := status h;
     textContent := textContent h;
     toolCall := toolCall h; error := error h; streamState := v;
     streamCleanupRef := streamCleanupRef h; isMountedRef := isMountedRef h;
     currentRunIdRef := currentRunIdRef h;
     heartbeatIntervalRef := heartbeatIntervalRef h;
     statusPollIntervalRef := statusPollIntervalRef h;
     effects := effects h |}.

Definition setStreamCleanupRef (v : bool) (h : Hook) : Hook :=
  {| agentRunId := agentRunId h; status := status h;
     textContent := textContent h;
     toolCall := toolCall h; error := error h; streamState := streamState h;
     streamCleanupRef := v; isMountedRef := isMountedRef h;
     currentRunIdRef := currentRunIdRef h;
     heartbeatIntervalRef := heartbeatIntervalRef h;
     statusPollIntervalRef := statusPollIntervalRef h;
     effects := effects h |}.

Definition setIsMountedRef (v : bool) (h : Hook) : Hook :=
  {| agentRunId := agentRunId h; status := status h;
     textContent := textContent h;
     toolCall := toolCall h; error := error h; streamState := streamState h;
     streamCleanupRef := streamCleanupRef h; isMountedRef := v;
     currentRunIdRef := currentRunIdRef h;
     heartbeatIntervalRef := heartbeatIntervalRef h;
     statusPollIntervalRef := statusPollIntervalRef h;
     effects := effects h |}.

Definition setCurrentRunIdRef (v : option string) (h : Hook) : Hook :=
  {| agentRunId := agentRunId h; status := status h;
     textContent := textContent h;
     toolCall := toolCall h; error := error h; streamState := streamState h;
     streamCleanupRef := streamCleanupRef h; isMountedRef := isMountedRef h;
     currentRunIdRef := v;
     heartbeatIntervalRef := heartbeatIntervalRef h;
     statusPollIntervalRef := statusPollIntervalRef h;
     effects := effects h |}.

Definition setHeartbeatIntervalRef (v : bool) (h : Hook) : Hook :=
  {| agentRunId := agentRunId h; status := status h;
     textContent := textContent h;
     toolCall := toolCall h; error := error h; streamState := streamState h;
     streamCleanupRef := streamCleanupRef h; isMountedRef := isMountedRef h;
     currentRunIdRef := currentRunIdRef h;
     heartbeatIntervalRef := v;
     statusPollIntervalRef := statusPollIntervalRef h;
     effects := effects h |}.

Definition setStatusPollIntervalRef (v : bool) (h : Hook) : Hook :=
  {| agentRunId := agentRunId h; status := status h;
     textContent := textContent h;
     toolCall := toolCall h; error := error h; streamState := streamState h;
     streamCleanupRef := streamCleanupRef h; isMountedRef := isMountedRef h;
     currentRunIdRef := currentRunIdRef h;
     heartbeatIntervalRef := heartbeatIntervalRef h;
     statusPollIntervalRef := v;
     effects := effects h |}.

(** Issue an effect. *)
Definition emit (e : Effect) (h : Hook) : Hook :=
  {| agentRunId := agentRunId h; status := status h;
     textContent := textContent h;
     toolCall := toolCall h; error := error h; streamState := streamState h;
     streamCleanupRef := streamCleanupRef h; isMountedRef := isMountedRef h;
     currentRunIdRef := currentRunIdRef h;
     heartbeatIntervalRef := heartbeatIntervalRef h;
     statusPollIntervalRef := statusPollIntervalRef h;
     effects := effects h ++ [e] |}.

(** The hook after its first render, at time [now]. *)
Definition initialHook (now : Z) : Hook :=
  {| agentRunId := None; status := "idle"; textContent := [];
     toolCall := None; error := None;
     streamState :=
       {| connectionHealth :=
            {| ch_status := healthy; lastHeartbeat := now; latency := 0;
               reconnectAttempts := 0 |};
          progress := {| percentage := 0; currentStep := "Idle";
                         estimatedTimeRemaining := None;
                         completedSteps := [] |};
          retryCount := 0; errorHistory := []; isRecovering := false;
          queuePosition := None |};
     streamCleanupRef := false; isMountedRef := true;
     currentRunIdRef := None;
     heartbeatIntervalRef := false; statusPollIntervalRef := false;
     effects := [] |}.

(** JavaScript truthiness of a [string | null] value. *)
Definition truthy (v : option string) : bool :=
  match v with
  | Some s => negb (bool_decide (s = ""))
  | None => false
  end.

(** *** Helpers of the hook *)

(** [classifyError] *)
Definition classifyError (error : string) : string * Severity * bool :=
  let errorLower := toLowerCase error in
  if includes "network" errorLower || includes "connection" errorLower
  then ("network", medium, true)
  else if includes "timeout" errorLower
  then ("timeout", medium, true)
  else if includes "rate limit" errorLower
  then ("rate_limit", high, true)
  else if includes "billing" errorLower || includes "quota" errorLower
  then ("billing", critical, false)
  else if includes "authentication" errorLower
  then ("auth", critical, false)
  else ("unknown", medium, true).

(** [arr.slice(-n)]: the last [n] elements. *)
Definition sliceLast {A} (n : nat) (l : list A) : list A :=
  drop (length l - n) l.

(** [updateConnectionHealth] *)
Definition updateConnectionHealth (updates : HealthUpdate) (h : Hook) : Hook :=
  if negb (isMountedRef h) then h
  else
    let prev := streamState h in
    let old := connectionHealth prev in
    let newHealth :=
      {| ch_status := default (ch_status old) (hu_status updates);
         lastHeartbeat := default (lastHeartbeat old)
                                  (hu_lastHeartbeat updates);
         latency := default (latency old) (hu_latency updates);
         reconnectAttempts := default (reconnectAttempts old)
                                      (hu_reconnectAttempts updates) |} in
    let h1 := if decide (ch_status newHealth = ch_status old) then h
              else emit (OnConnectionChange newHealth) h in
    setStreamState
      {| connectionHealth := newHealth; progress := progress prev;
         retryCount := retryCount prev; errorHistory := errorHistory prev;
         isRecovering := isRecovering prev;
         queuePosition := queuePosition prev |} h1.

(** [updateProgress] *)
Definition updateProgress (updates : ProgressUpdate) (h : Hook) : Hook :=
  if negb (isMountedRef h) then h
  else
    let prev := streamState h in
    let old := progress prev in
    let merged := default (completedSteps old) (pu_completedSteps updates) in
    let steps :=
      if truthy (pu_currentStep updates)
         && negb (bool_decide (pu_currentStep updates = Some (currentStep old)))
         && negb (bool_decide (currentStep old = ""))
         && negb (bool_decide (currentStep old ∈ merged))
      then merged ++ [currentStep old]
      else merged in
    let newProgress :=
      {| percentage := default (percentage old) (pu_percentage updates);
         currentStep := default (currentStep old) (pu_currentStep updates);
         estimatedTimeRemaining :=
           match pu_estimatedTimeRemaining updates with
           | Some t => Some t
           | None => estimatedTimeRemaining old
           end;
         completedSteps := steps |} in
    setStreamState
      {| connectionHealth := connectionHealth prev; progress := newProgress;
         retryCount := retryCount prev; errorHistory := errorHistory prev;
         isRecovering := isRecovering prev;
         queuePosition := queuePosition prev |}
      (emit (OnProgressUpdate newProgress) h).

(** The [ErrorEvent] that [addError] builds at time [now]. *)
Definition mkErrorEvent (errorMessage : string) (now : Z) : ErrorEvent :=
  let '(type, severity, recoverable) := classifyError errorMessage in
  {| ev_timestamp := now; ev_type := type; ev_message := errorMessage;
     ev_severity := severity; ev_recoverable := recoverable |}.

(** [addError] *)
Definition addError (errorMessage : string) (now : Z) (h : Hook) : Hook :=
  if negb (isMountedRef h) then h
  else
    let errorEvent := mkErrorEvent errorMessage now in
    let prev := streamState h in
    let h1 :=
      setStreamState
        {| connectionHealth := connectionHealth prev;
           progress := progress prev; retryCount := retryCount prev;
           errorHistory := sliceLast 9 (errorHistory prev) ++ [errorEvent];
           isRecovering := isRecovering prev;
           queuePosition := queuePosition prev |} h in
    let h2 := emit (OnError errorEvent) h1 in
    if decide (ev_severity errorEvent = critical)
    then emit (ToastError (String.append "Critical Error: " errorMessage)
                          10000) h2
    else if decide (ev_severity errorEvent = high)
    then emit (ToastError (String.append "Error: " errorMessage) 5000) h2
    else h2.

(** [clearErrors] *)
Definition clearErrors (h : Hook) : Hook :=
  let prev := streamState h in
  setError None
    (setStreamState
       {| connectionHealth := connectionHealth prev;
          progress := progress prev; retryCount := retryCount prev;
          errorHistory := []; isRecovering := isRecovering prev;
          queuePosition := queuePosition prev |} h).

(** *** Ordered text content *)

(** The key the comparator of [orderedTextContent] orders by:
    [sequence ?? 0]. *)
Definition seqKey (c : Chunk) : Z := default 0 (sequence c).

(** [Array.prototype.sort] with the comparator
    [(a, b) => (a.sequence ?? 0) - (b.sequence ?? 0)].  The sort of the
    language is stable: an element goes behind the elements of the same
    key that precede it. *)
Fixpoint insertBySequence (x : Chunk) (sorted : list Chunk) : list Chunk :=
  match sorted with
  | [] => [x]
  | y :: rest =>
      if seqKey x <? seqKey y then x :: y :: rest
      else y :: insertBySequence x rest
  end.

Definition sortBySequence (l : list Chunk) : list Chunk :=
  foldl (fun acc x => insertBySequence x acc) [] l.

(** [.reduce((acc, curr) => acc + curr.content, '')] *)
Definition joinContents (l : list Chunk) : string :=
  foldl (fun acc curr => String.append acc (content curr)) "" l.

(** [orderedTextContent], as a function of the [textContent] array. *)
Definition orderedTextContent (textContent : list Chunk) : string :=
  joinContents (sortBySequence textContent).

(** A render of the hook: the memo sorts the state array in place and the
    hook exposes the joined text as [textContent]. *)
Definition render (h : Hook) : string * Hook :=
  (orderedTextContent (textContent h),
   setTextContent (sortBySequence (textContent h)) h).

(** *** Stream messages *)

Section Messages.

(** [safeJsonParse] at its three uses; the function belongs to the thread
    component's utilities. *)
Variable parseMessage : string -> option UnifiedMessage.
Variable parseContent : string -> ParsedContent.
Variable parseMetadata : string -> ParsedMetadata.

Definition stepUpdate (step : string) : ProgressUpdate :=
  {| pu_percentage := None; pu_currentStep := Some step;
     pu_estimatedTimeRemaining := None; pu_completedSteps := None |}.

Definition percentStepUpdate (pct : Z) (step : string) : ProgressUpdate :=
  {| pu_percentage := Some pct; pu_currentStep := Some step;
     pu_estimatedTimeRemaining := None; pu_completedSteps := None |}.

Definition onMessageIfId (message : UnifiedMessage) (h : Hook) : Hook :=
  if truthy (msg_message_id message) then emit (OnMessage message) h else h.

(** The part of [handleStreamMessage] that follows parsing: the status
    update and the [switch] on the message type. *)
Definition dispatchMessage (message : UnifiedMessage)
    (parsedContent : ParsedContent) (parsedMetadata : ParsedMetadata)
    (h : Hook) : Hook :=
  let h1 :=
    if bool_decide (status h = "streaming") then h
    else updateProgress (stepUpdate "Processing response")
                        (setStatus "streaming" h) in
  if bool_decide (msg_type message = "assistant") then
    if bool_decide (stream_status parsedMetadata = Some "chunk")
       && truthy (pc_content parsedContent)
    then
      let text := default "" (pc_content parsedContent) in
      emit (OnAssistantChunk text)
        (setTextContent
           (textContent h1 ++ [{| content := text;
                                  sequence := msg_sequence message |}]) h1)
    else if bool_decide (stream_status parsedMetadata = Some "complete")
    then onMessageIfId message (setToolCall None (setTextContent [] h1))
    else if negb (truthy (stream_status parsedMetadata))
    then onMessageIfId message (emit OnAssistantStart h1)
    else h1
  else if bool_decide (msg_type message = "tool_call") then
    onMessageIfId message
      (updateProgress (stepUpdate "Running tools")
         (setToolCall (Some parsedContent) h1))
  else onMessageIfId message h1.

(** [handleStreamMessage] *)
Definition handleStreamMessage (rawData : string) (now : Z) (h : Hook)
    : Hook :=
  if negb (isMountedRef h) then h
  else
    let h1 := updateConnectionHealth
                {| hu_status := Some healthy; hu_lastHeartbeat := Some now;
                   hu_latency := None; hu_reconnectAttempts := None |} h in
    let processedData :=
      if String.prefix "data: " rawData
      then trim (substringFrom 6 rawData) else rawData in
    if bool_decide (processedData = "") then h1
    else if includes "completed" processedData
            || includes "Stream ended" processedData
    then updateProgress (percentStepUpdate 100 "Completed") h1
    else
      match parseMessage processedData with
      | None => h1
      | Some message =>
          if bool_decide (msg_type message = "error")
             || bool_decide (msg_status message = Some "error")
          then
            let errorMessage :=
              if bool_decide (msg_content message = "")
              then "Unknown error occurred" else msg_content message in
            setError (Some errorMessage) (addError errorMessage now h1)
          else
            dispatchMessage message
              (parseContent (msg_content message))
              (parseMetadata (msg_metadata message)) h1
      end.

(** *** Starting and stopping *)

(** [startHeartbeat] and [startStatusPolling], up to the installation of
    their intervals. *)
Definition startHeartbeat (h : Hook) : Hook :=
  let h1 := if heartbeatIntervalRef h then emit ClearHeartbeatInterval h
            else h in
  setHeartbeatIntervalRef true h1.

Definition startStatusPolling (h : Hook) : Hook :=
  if negb (truthy (currentRunIdRef h)) then h
  else
    let h1 := if statusPollIntervalRef h
              then emit ClearStatusPollInterval h else h in
    setStatusPollIntervalRef true h1.

(** [startStreaming]; [streamAgentThrows] is the text of the exception of
    [streamAgent], if it throws. *)
Definition startStreaming (runId : string) (now : Z)
    (streamAgentThrows : option string) (h : Hook) : Hook :=
  if negb (isMountedRef h) then h
  else
    let h1 := if streamCleanupRef h then emit CallStreamCleanup h else h in
    let h2 := setError None
                (setStatus "connecting"
                   (setCurrentRunIdRef (Some runId)
                      (setAgentRunId (Some runId) h1))) in
    let prev := streamState h2 in
    let h3 :=
      setStreamState
        {| connectionHealth :=
             {| ch_status := healthy; lastHeartbeat := now;
                latency := latency (connectionHealth prev);
                reconnectAttempts := 0 |};
           progress := {| percentage := 0; currentStep := "Connecting...";
                          estimatedTimeRemaining := None;
                          completedSteps := [] |};
           retryCount := 0; errorHistory := errorHistory prev;
           isRecovering := false;
           queuePosition := queuePosition prev |} h2 in
    let h4 := startStatusPolling (startHeartbeat h3) in
    let h5 := emit (CallStreamAgent runId) h4 in
    match streamAgentThrows with
    | None =>
        updateProgress (stepUpdate "Stream connected")
                       (setStreamCleanupRef true h5)
    | Some err =>
        setStatus "error"
          (addError (String.append "Failed to start stream: " err) now h5)
    end.

(** [stopStreaming] up to the [await] of [stopAgent]: the run id that
    [stopAgent] is called with, if the guard lets the call pass. *)
Definition stop_begin (h : Hook) : option string * Hook :=
  if negb (isMountedRef h) || negb (truthy (currentRunIdRef h))
  then (None, h)
  else (currentRunIdRef h,
        emit (CallStopAgent (default "" (currentRunIdRef h))) h).

(** [stopStreaming] after [stopAgent] has resolved. *)
Definition stop_resolved (h : Hook) : Hook :=
  let h1 := if streamCleanupRef h
            then setStreamCleanupRef false (emit CallStreamCleanup h)
            else h in
  let h2 := if heartbeatIntervalRef h1
            then setHeartbeatIntervalRef false
                   (emit ClearHeartbeatInterval h1)
            else h1 in
  let h3 := if statusPollIntervalRef h2
            then setStatusPollIntervalRef false
                   (emit ClearStatusPollInterval h2)
            else h2 in
  let h4 := setCurrentRunIdRef None
              (setAgentRunId None (setStatus "stopped" h3)) in
  emit (OnClose "stopped")
       (updateProgress (percentStepUpdate 0 "Stopped") h4).

(** [stopStreaming] after [stopAgent] has rejected with [err]. *)
Definition stop_rejected (err : string) (now : Z) (h : Hook) : Hook :=
  addError (String.append "Failed to stop agent: " err) now h.

(** [stopStreaming], with nothing else happening during the [await];
    [stopAgentThrows] is the text of the rejection of [stopAgent], if it
    rejects. *)
Definition stopStreaming (stopAgentThrows : option string) (now : Z)
    (h : Hook) : Hook :=
  match stop_begin h with
  | (None, h') => h'
  | (Some _, h1) =>
      match stopAgentThrows with
      | None => stop_resolved h1
      | Some err => stop_rejected err now h1
      end
  end.

(** The cleanup of the mount effect: the hook is marked unmounted and its
    intervals are cleared (the refs keep their handles). *)
Definition unmount (h : Hook) : Hook :=
  let h1 := setIsMountedRef false h in
  let h2 := if heartbeatIntervalRef h1 then emit ClearHeartbeatInterval h1
            else h1 in
  if statusPollIntervalRef h2 then emit ClearStatusPollInterval h2 else h2.

(** The events of a hook's life that touch the state modelled here. *)
Inductive HookEvent :=
| EvStart (runId : string) (now : Z) (streamAgentThrows : option string)
| EvStop (stopAgentThrows : option string) (now : Z)
| EvMessage (rawData : string) (now : Z)
| EvStreamError (error : string) (now : Z)
| EvRender
| EvClearErrors
| EvHealth (updates : HealthUpdate)
| EvProgress (updates : ProgressUpdate)
| EvUnmount.

Definition hookStep (ev : HookEvent) (h : Hook) : Hook :=
  match ev with
  | EvStart runId now throws => startStreaming runId now throws h
  | EvStop throws now => stopStreaming throws now h
  | EvMessage rawData now => handleStreamMessage rawData now h
  | EvStreamError error now =>
      updateConnectionHealth
        {| hu_status := Some disconnected; hu_lastHeartbeat := None;
           hu_latency := None; hu_reconnectAttempts := None |}
        (addError error now h)
  | EvRender => (render h).2
  | EvClearErrors => clearErrors h
  | EvHealth updates => updateConnectionHealth updates h
  | EvProgress updates => updateProgress updates h
  | EvUnmount => unmount h
  end.

Definition hookRun (evs : list HookEvent) (h : Hook) : Hook :=
  foldl (fun h ev => hookStep ev h) h evs.

End Messages.

(** *** Vocabulary for the statements about the streamed text *)

Section Reader.

Variable parseMessage : string -> option UnifiedMessage.
Variable parseContent : string -> ParsedContent.
Variable parseMetadata : string -> ParsedMetadata.

(** What a raw message holds after its ["data: "] prefix. *)
Definition payloadOf (rawData : string) : string :=
  if String.prefix "data: " rawData
  then trim (substringFrom 6 rawData) else rawData.

(** The text chunk that a raw message carries: the message is an
    assistant message whose stream status is ['chunk'] and it has a text.
    (A chunk without text adds nothing to any concatenation.) *)
Definition chunkOf (rawData : string) : option Chunk :=
  match parseMessage (payloadOf rawData) with
  | Some message =>
      let text := pc_content (parseContent (msg_content message)) in
      if bool_decide (msg_type message = "assistant")
         && bool_decide (stream_status (parseMetadata (msg_metadata message))
                         = Some "chunk")
         && truthy text
      then Some {| content := default "" text;
                   sequence := msg_sequence message |}
      else None
  | None => None
  end.

(** The raw message is an assistant message whose stream status is
    ['complete']. *)
Definition completesText (rawData : string) : bool :=
  match parseMessage (payloadOf rawData) with
  | Some message =>
      bool_decide (msg_type message = "assistant")
      && bool_decide (stream_status (parseMetadata (msg_metadata message))
                      = Some "complete")
  | None => false
  end.

(** The raw message holds none of the words that the reader takes for the
    end of the stream. *)
Definition freeOfEndWords (rawData : string) : bool :=
  negb (includes "completed" (payloadOf rawData)
        || includes "Stream ended" (payloadOf rawData)).

(** The raw message is marked as an error, by its type or its status. *)
Definition markedAsError (rawData : string) : bool :=
  match parseMessage (payloadOf rawData) with
  | Some message =>
      bool_decide (msg_type message = "error")
      || bool_decide (msg_status message = Some "error")
  | None => false
  end.

(** What the reader does between two looks at the text: it receives a raw
    message at some time, or React renders the hook again. *)
Inductive ReaderStep :=
| Receive (rawData : string) (now : Z)
| Rerender.

Definition readerStep (st : ReaderStep) (h : Hook) : Hook :=
  match st with
  | Receive rawData now =>
      handleStreamMessage parseMessage parseContent parseMetadata
                          rawData now h
  | Rerender => (render h).2
  end.

Definition readerRun (steps : list ReaderStep) (h : Hook) : Hook :=
  foldl (fun h st => readerStep st h) h steps.

(** The chunks that the received messages carry, in order of arrival. *)
Definition arrivedChunks (steps : list ReaderStep) : list Chunk :=
  omap (fun st => match st with
                  | Receive rawData _ => chunkOf rawData
                  | Rerender => None
                  end) steps.

(** The messages that carry a chunk are not empty, hold none of the end
    words and are not marked as errors; and no message completes the
    text. *)
Definition chunksReadable (steps : list ReaderStep) : Prop :=
  Forall (fun st =>
            match st with
            | Receive rawData _ =>
                completesText rawData = false
                /\ (is_Some (chunkOf rawData) ->
                    payloadOf rawData <> ""
                    /\ freeOfEndWords rawData = true
                    /\ markedAsError rawData = false)
            | Rerender => True
            end) steps.

End Reader.

(** The text that the hook exposes as [textContent] at its next render. *)
Definition exposedText (h : Hook) : string := (render h).1.

(** Ascending order of sequence numbers. *)
Definition bySequence (a b : Chunk) : Prop := seqKey a <= seqKey b.

(** The chunks of a list that have the key [k], in the order of the
    list. *)
Definition withKey (k : Z) (l : list Chunk) : list Chunk :=
  List.filter (fun c => bool_decide (seqKey c = k)) l.

(** JSON texts for the examples.  [quoted s] is [s] between quotation
    marks, and [jsonString s] the JSON string literal for [s]. *)
Definition quotationMark : ascii := ascii_of_nat 34.
Definition backslash : ascii := ascii_of_nat 92.

Definition quoted (s : string) : string :=
  String quotationMark (String.append s (String quotationMark "")).

Fixpoint escaped (s : string) : string :=
  match s with
  | EmptyString => EmptyString
  | String a s' =>
      if Ascii.eqb a quotationMark || Ascii.eqb a backslash
      then String backslash (String a (escaped s'))
      else String a (escaped s')
  end.

Definition jsonString (s : string) : string := quoted (escaped s).

(** The JSON text of a [content] or [metadata] column with one key. *)
Definition jsonColumn (key value : string) : string :=
  String.concat "" ["{"; quoted key; ":"; jsonString value; "}"].

(** The stream event of an assistant chunk with text [text] and sequence
    number [n], as the server sends it. *)
Definition chunkEvent (text : string) (n : Z) : string :=
  String.concat ""
    ["data: {"; quoted "type"; ":"; quoted "assistant"; ",";
     quoted "content"; ":"; jsonString (jsonColumn "content" text); ",";
     quoted "metadata"; ":";
     jsonString (jsonColumn "stream_status" "chunk"); ",";
     quoted "sequence"; ":"; pretty n; "}"].

(** [safeJsonParse] on the texts of the chunk events in a table of texts
    and sequence numbers; on every other text it answers as for a text
    that is not JSON. *)
Definition parseChunkEvents (table : list (string * Z)) (payload : string)
    : option UnifiedMessage :=
  (fun '(text, n) =>
     {| msg_type := "assistant";
        msg_content := jsonColumn "content" text;
        msg_metadata := jsonColumn "stream_status" "chunk";
        msg_message_id := None;
        msg_sequence := Some n;
        msg_status := None |})
  <$> List.find (fun '(text, n) =>
                   bool_decide (payloadOf (chunkEvent text n) = payload))
                table.

Definition parseChunkContent (table : list (string * Z)) (column : string)
    : ParsedContent :=
  {| pc_content :=
       fst <$> List.find (fun '(text, _) =>
                            bool_decide (jsonColumn "content" text = column))
                         table;
     pc_rest := "" |}.

Definition parseChunkMetadata (column : string) : ParsedMetadata :=
  {| stream_status :=
       if bool_decide (column = jsonColumn "stream_status" "chunk")
       then Some "chunk" else None |}.

(** *** Vocabulary for the statements about stopping *)

(** A scenario: a run is started and its stream reports its end.  The
    parsers are not reached by these events. *)
Definition completedRun : list HookEvent :=
  [EvStart "run-1" 0 None; EvMessage "data: Stream ended" 1].

Definition noContent : ParsedContent := {| pc_content := None; pc_rest := "" |}.
Definition noMetadata : ParsedMetadata := {| stream_status := None |}.

Definition hookAfter (evs : list HookEvent) : Hook :=
  hookRun (fun _ => None) (fun _ => noContent) (fun _ => noMetadata)
          evs (initialHook 0).

(** The run a hook is attached to and its status. *)
Definition runOf (h : Hook) : option string * string :=
  (currentRunIdRef h, status h).

(** A hook whose status is ['stopped'] has no current run. *)
Definition stoppedMeansNoRun (h : Hook) : Prop :=
  status h = "stopped" -> currentRunIdRef h = None.

(** The guard of [stopStreaming] lets the call pass. *)
Definition runActive (h : Hook) : bool :=
  isMountedRef h && truthy (currentRunIdRef h).

End AgentStream.

(** ** RunLock and the scheduler's claim *)

Module RunLock.

(** Modelled from the spec: the run lock record of the data model,
    [{runId, holderId, acquiredAt, expiresAt}].  The lock store and the
    scheduler belong to the worker backend, which is described in the
    architecture notes only. *)
Record Lock := {
  runId : string;
  holderId : string;
  acquiredAt : Z;
  expiresAt : Z
}.

(** Modelled from the spec: the statuses of the run state, and which of
    them are terminal. *)
Inductive RunStatus :=
| QUEUED | INITIALIZING | EXECUTING | TOOL_RUNNING | STOPPING
| COMPLETED | FAILED | STOPPED.

#[global] Instance RunStatus_eq_dec : EqDecision RunStatus.
Proof. solve_decision. Defined.

Definition terminal (s : RunStatus) : bool :=
  match s with
  | COMPLETED | FAILED | STOPPED => true
  | _ => false
  end.

(** Modelled from the spec: the transitions of the orchestrator state
    machine (the step from [QUEUED] to [INITIALIZING] is the claim). *)
Definition transition (from to : RunStatus) : bool :=
  match from, to with
  | INITIALIZING, EXECUTING
  | INITIALIZING, FAILED
  | EXECUTING, TOOL_RUNNING
  | TOOL_RUNNING, EXECUTING
  | EXECUTING, COMPLETED
  | EXECUTING, STOPPING
  | TOOL_RUNNING, STOPPING
  | STOPPING, STOPPED
  | EXECUTING, FAILED
  | TOOL_RUNNING, FAILED => true
  | _, _ => false
  end.

(** Modelled from the spec: one acquisition.  The scheduler starts one
    orchestrator per lock it acquires, so a lock is kept together with the
    status of the orchestrator bound to it; [released] records the explicit
    release.  A holder that crashes simply takes no further step. *)
Record Held := {
  lock : Lock;
  status : RunStatus;
  released : bool
}.

(** Modelled from the spec: the shared store at one instant. *)
Record System := {
  now : Z;
  held : list Held
}.

(** Modelled from the spec: a lock is live for a run while it is neither
    released nor past its expiry. *)
Definition live (t : Z) (r : string) (x : Held) : bool :=
  bool_decide (runId (lock x) = r) && negb (released x)
  && (t <? expiresAt (lock x)).

(** Modelled from the spec: [acquire(runId, holderId, ttl)], an atomic
    test-and-set: no lock is granted while a live lock for the same run
    exists.  [None] is [AlreadyHeld]. *)
Definition acquire (r holder : string) (ttl : Z) (s : System)
    : option Lock :=
  if existsb (live (now s) r) (held s) then None
  else Some {| runId := r; holderId := holder; acquiredAt := now s;
               expiresAt := now s + ttl |}.

(** Modelled from the spec: [claimNext] for one dequeued request: on a
    successful acquisition the run state becomes [INITIALIZING] and an
    orchestrator is started; otherwise nothing is started. *)
Definition claim (r holder : string) (ttl : Z) (s : System) : System :=
  match acquire r holder ttl s with
  | None => s
  | Some l =>
      {| now := now s;
         held := held s ++ [{| lock := l; status := INITIALIZING;
                               released := false |}] |}
  end.

(** Modelled from the spec: [renew(lock)]; a lock that is released or
    expired cannot be renewed, and the orchestrator that finds its lock
    lost fails. *)
Definition renewHeld (t ttl : Z) (x : Held) : Held :=
  if negb (released x) && (t <? expiresAt (lock x)) then
    {| lock := {| runId := runId (lock x); holderId := holderId (lock x);
                  acquiredAt := acquiredAt (lock x);
                  expiresAt := t + ttl |};
       status := status x; released := false |}
  else
    {| lock := lock x;
       status := if terminal (status x) then status x else FAILED;
       released := released x |}.

(** Modelled from the spec: a transition of the orchestrator; reaching a
    terminal state releases the lock. *)
Definition moveHeld (to : RunStatus) (x : Held) : Held :=
  if transition (status x) to then
    {| lock := lock x; status := to;
       released := released x || terminal to |}
  else x.

(** Modelled from the spec: what can happen to the store.  Every event is
    one atomic operation; concurrent attempts are the interleavings of
    their events. *)
Inductive Event :=
| Advance (dt : N)
| Claim (r holder : string) (ttl : Z)
| Renew (i : nat) (ttl : Z)
| Move (i : nat) (to : RunStatus).

(** Modelled from the spec: the effect of one event on the store. *)
Definition step (ev : Event) (s : System) : System :=
  match ev with
  | Advance dt => {| now := now s + Z.of_N dt; held := held s |}
  | Claim r holder ttl => claim r holder ttl s
  | Renew i ttl =>
      {| now := now s; held := alter (renewHeld (now s) ttl) i (held s) |}
  | Move i to => {| now := now s; held := alter (moveHeld to) i (held s) |}
  end.

(** Modelled from the spec: a history of the store, from a given state. *)
Definition run (evs : list Event) (s : System) : System :=
  foldl (fun s ev => step ev s) s evs.

(** Modelled from the spec: the store before any claim, at time [t]. *)
Definition emptyStore (t : Z) : System := {| now := t; held := [] |}.

(** Modelled from the spec: the locks for a run that are live at the
    current instant. *)
Definition liveLocks (r : string) (s : System) : list Held :=
  List.filter (live (now s) r) (held s).

(** Modelled from the spec: the orchestrators for a run that are in a
    non-terminal state and hold a live lock. *)
Definition guardedOrchestrators (r : string) (s : System) : list Held :=
  List.filter (fun x => live (now s) r x && negb (terminal (status x)))
              (held s).

End RunLock.

(** ** EnhancedAPIClient: metrics, the fetch wrapper, queue accounting *)

Module ApiClientMore.
Import ApiClient.

(** [interface RequestMetrics] *)
Record RequestMetrics := {
  averageLatency : Q;
  requestCount : Z
}.

(** [recordLatency], on the [requestMetrics] map of the client.  A latency
    is a difference of two readings of [Date.now()], an integer.  The
    average is computed over the rationals; the code rounds it to a
    double. *)
Definition recordLatency (endpoint : string) (latency : Z)
    (requestMetrics : gmap string RequestMetrics)
    : gmap string RequestMetrics :=
  match requestMetrics !! endpoint with
  | None =>
      <[endpoint := {| averageLatency := inject_Z latency;
                       requestCount := 1 |}]>
        requestMetrics
  | Some metrics =>
      <[endpoint :=
          {| averageLatency :=
               ((averageLatency metrics * inject_Z (requestCount metrics)
                 + inject_Z latency)
                / (inject_Z (requestCount metrics) + 1))%Q;
             requestCount := requestCount metrics + 1 |}]>
        requestMetrics
  end.

(** The error [performRequest] throws for a response that is not [ok]:
    [new Error(`HTTP ${response.status}: ${response.statusText}`)] with the
    [status] attached. *)
Definition httpError (status : Z) (statusText : string) : JsError :=
  {| err_name := "Error";
     err_message := String.append "HTTP "
                      (String.append (pretty status)
                         (String.append ": " statusText));
     err_status := Some status |}.

(** The error [performRequest] throws for a failed [fetch]. *)
Definition networkError : JsError :=
  {| err_name := "NetworkError"; err_message := "Network error";
     err_status := None |}.

(** How the [try] block of [performRequest] ends: it returns the parsed
    body, finds a response that is not [ok], or something in it throws
    ([getSession], [fetch], or the parsing of the body). *)
Inductive TryBlock :=
| BodyParsed (value : string)
| ResponseNotOk (status : Z) (statusText : string)
| BlockThrows (instanceOfTypeError : bool) (error : JsError).

(** The [catch] block of [performRequest]: the error it throws for the
    error it caught. *)
Definition catchBlock (aborted instanceOfTypeError : bool) (error : JsError)
    : JsError :=
  if aborted then timeoutError
  else if instanceOfTypeError
          && AgentStream.includes "fetch" (err_message error)
  then networkError
  else error.

(** [performRequest], given how its [try] block ends and whether the
    abort signal is set when the [catch] block runs. *)
Definition performRequest (block : TryBlock) (aborted : bool) : Result :=
  match block with
  | BodyParsed value => Ok value
  | ResponseNotOk status statusText =>
      Err (catchBlock aborted false (httpError status statusText))
  | BlockThrows isTypeError error =>
      Err (catchBlock aborted isTypeError error)
  end.

(** The breaker [getCircuitBreaker] would hand out for an endpoint. *)
Definition breakerOf (endpoint : string) (c : Client) : CircuitBreakerState :=
  default freshBreaker (circuitBreakers c !! endpoint).

Section Accounting.

Variable generateRequestId : string -> RequestConfig -> option string.
Variable extractEndpoint : string -> string.
Variable API_URL : string.

(** What the events of a client mean for the breaker of one endpoint:
    the settlements of the requests to the endpoint that were begun, and
    the firings of its recovery timeouts. *)
Definition breakerEventsOf (endpoint : string) (evs : list ClientEvent)
    : list BreakerEvent :=
  omap (fun ev =>
          match ev with
          | EvSettled url config result now =>
              if decide (endpointOf extractEndpoint API_URL url = endpoint)
              then match generateRequestId url config with
                   | Some _ => Some (match result with
                                     | Ok _ => CallSucceeded
                                     | Err _ => CallFailed now
                                     end)
                   | None => None
                   end
              else None
          | EvRecoveryTimer e =>
              if decide (e = endpoint) then Some RecoveryTimerFires else None
          | _ => None
          end) evs.

(** The requests that a sequence of client events puts into the offline
    queue, in order. *)
Fixpoint queuedDuring (evs : list ClientEvent) (c : Client)
    : list QueuedRequest :=
  match evs with
  | [] => []
  | ev :: evs' =>
      let c' := (clientStep generateRequestId extractEndpoint API_URL
                            ev (c, [])).1 in
      match ev with
      | EvRequest url config now =>
          match (request_begin generateRequestId extractEndpoint API_URL
                               url config now c).1 with
          | Queued q => q :: queuedDuring evs' c'
          | _ => queuedDuring evs' c'
          end
      | _ => queuedDuring evs' c'
      end
  end.

Definition isReset (ev : ClientEvent) : bool :=
  match ev with EvReset => true | _ => false end.

End Accounting.

(** [performRequest] as the outside world of the retry loop: every attempt
    ends the same way. *)
Definition always (r : Result) : Z -> Result := fun _ => r.

(** Exponential delay of the default configuration before jitter and cap:
    [1000 * 2 ^ (attempt - 1)]. *)
Definition defaultExponentialDelay (attempt : Z) : Q :=
  (1000 * 2 ^ (attempt - 1))%Q.

End ApiClientMore.

(** ** The abort timer of performRequest *)

Module RequestTimeout.
Import ApiClient ApiClientMore.

(** How an awaited operation goes when nothing interrupts it: after how
    many milliseconds it resolves or rejects, if it settles at all. *)
Inductive Awaited (A : Type) :=
| Resolves (after : Z) (value : A)
| Rejects (after : Z) (instanceOfTypeError : bool) (error : JsError)
| NeverSettles.

Arguments Resolves {A} after value.
Arguments Rejects {A} after instanceOfTypeError error.
Arguments NeverSettles {A}.

(** The [Response] of [fetch], as far as [performRequest] looks at it. *)
Record Response := {
  ok : bool;
  res_status : Z;
  statusText : string
}.

(** The outside world of one call of [performRequest]: how late the
    callback of the abort timer runs once its delay has passed, and how
    [getSession], [fetch] and the reading of the body go. *)
Record World := {
  timerLag : Z;
  getSession : Awaited unit;
  fetch : Awaited Response;
  body : Awaited string
}.

(** The time an awaited operation takes, if it settles. *)
Definition duration {A} (op : Awaited A) : option Z :=
  match op with
  | Resolves after _ => Some after
  | Rejects after _ _ => Some after
  | NeverSettles => None
  end.

(** No duration of the world is negative. *)
Definition timesForward (w : World) : Prop :=
  0 <= timerLag w
  /\ 0 <= default 0 (duration (getSession w))
  /\ 0 <= default 0 (duration (fetch w))
  /\ 0 <= default 0 (duration (body w)).

(** [const timeout = config.timeout || 30000] *)
Definition timeoutOf (config : RequestConfig) : Z :=
  match cfg_timeout config with
  | Some timeout => if timeout =? 0 then 30000 else timeout
  | None => 30000
  end.

(** The delay of [setTimeout(callback, timeout)]: the platform converts
    the number to a 32-bit integer and takes a negative one as 0. *)
Definition timerDelay (timeout : Z) : Z :=
  Z.max 0 ((timeout + 2 ^ 31) mod 2 ^ 32 - 2 ^ 31).

(** The moment the abort timer of a call started at [start] fires. *)
Definition abortsAt (start : Z) (config : RequestConfig) (w : World) : Z :=
  start + timerDelay (timeoutOf config) + timerLag w.

(** The rejection of an operation that the abort signal has reached. *)
Definition abortError : JsError :=
  {| err_name := "AbortError"; err_message := "The operation was aborted.";
     err_status := None |}.

(** An operation that was given the abort signal, begun at [begun]: when
    it settles and how.  It rejects at once if the signal is already set
    and at the moment the signal is set if it has not settled before. *)
Definition abortable {A} (op : Awaited A) (begun abortAt : Z)
    : Z * (A + bool * JsError) :=
  if abortAt <=? begun then (begun, inr (false, abortError))
  else
    match op with
    | Resolves after value =>
        if begun + after <? abortAt then (begun + after, inl value)
        else (abortAt, inr (false, abortError))
    | Rejects after isTypeError error =>
        if begun + after <? abortAt
        then (begun + after, inr (isTypeError, error))
        else (abortAt, inr (false, abortError))
    | NeverSettles => (abortAt, inr (false, abortError))
    end.

(** [performRequest] called at the time [start]: the time at which its
    promise settles and how, or [None] if it never settles.  The
    [getSession] of the authentication client is awaited without the abort
    signal; [fetch] and the reading of the body have it. *)
Definition performRequest (start : Z) (config : RequestConfig) (w : World)
    : option (Z * Result) :=
  let abortAt := abortsAt start config w in
  let settles (time : Z) (block : TryBlock) :=
    Some (time, ApiClientMore.performRequest block (abortAt <=? time)) in
  match getSession w with
  | NeverSettles => None
  | Rejects after isTypeError error =>
      settles (start + after) (BlockThrows isTypeError error)
  | Resolves after _ =>
      match abortable (fetch w) (start + after) abortAt with
      | (time, inr (isTypeError, error)) =>
          settles time (BlockThrows isTypeError error)
      | (time, inl response) =>
          if negb (ok response)
          then settles time (ResponseNotOk (res_status response)
                                           (statusText response))
          else
            match abortable (body w) time abortAt with
            | (time', inl value) => settles time' (BodyParsed value)
            | (time', inr (isTypeError, error)) =>
                settles time' (BlockThrows isTypeError error)
            end
      end
  end.

(** Requests with a timeout budget. *)
Definition withTimeout (timeout : Z) : RequestConfig :=
  {| cfg_method := GET; cfg_body := None; cfg_timeout := Some timeout;
     cfg_priority := None; cfg_retryConfig := None; cfg_cacheKey := None;
     cfg_optimistic := false |}.

(** Worlds for the examples: the session is read after [session]
    milliseconds and the response, which is [ok], arrives [response]
    milliseconds later; and a world in which the session is never read. *)
Definition answering (session response : Z) : World :=
  {| timerLag := 0;
     getSession := Resolves session ();
     fetch := Resolves response
                {| ok := true; res_status := 200; statusText := "OK" |};
     body := Resolves 0 "[]" |}.

Definition sessionHangs : World :=
  {| timerLag := 0;
     getSession := NeverSettles;
     fetch := Resolves 10
                {| ok := true; res_status := 200; statusText := "OK" |};
     body := Resolves 0 "[]" |}.

End RequestTimeout.

(** ** The stream hook: monitoring and reconnection *)

Module AgentStreamMore.

Import AgentStream.

Definition HEARTBEAT_INTERVAL : Z := 5000.
Definition MAX_RECONNECT_ATTEMPTS : Z := 5.
Definition RECONNECT_DELAYS : list Q := [1000; 2000; 4000; 8000; 16000]%Q.

(** [calculateRetryDelay] of the hook; [random] is the value of
    [Math.random()].  An index below zero reads [undefined] from the array
    and the arithmetic gives [NaN]: [None]. *)
Definition calculateRetryDelay (attempt : Z) (random : Q) : option Q :=
  let index := Z.min attempt (Z.of_nat (length RECONNECT_DELAYS) - 1) in
  if index <? 0 then None
  else
    match RECONNECT_DELAYS !! Z.to_nat index with
    | Some baseDelay =>
        let jitter := (random * (3 # 10) * baseDelay)%Q in
        Some (baseDelay + jitter)%Q
    | None => None
    end.

(** *** Progress from status messages *)

(** [\d] *)
Definition is_digit (a : ascii) : bool :=
  let n := nat_of_ascii a in (48 <=? n)%nat && (n <=? 57)%nat.

Definition digit_value (a : ascii) : Z := Z.of_nat (nat_of_ascii a) - 48.

(** [(\d+)%] tried at the head of [s], with [acc] the value of the digits
    read so far: the digits are taken greedily and a percent sign must
    follow them.  The result is the [parseInt] of the group, which is
    exact as long as it is below [2 ^ 53]. *)
Fixpoint digitsThenPercent (s : string) (acc : Z) : option Z :=
  match s with
  | EmptyString => None
  | String a s' =>
      if is_digit a then digitsThenPercent s' (acc * 10 + digit_value a)
      else if bool_decide (a = "%"%char) then Some acc
      else None
  end.

(** [parseInt(message.match(/(\d+)%/)[1])], or [None] when there is no
    match: the match is looked for at each position from the left. *)
Fixpoint percentMatch (message : string) : option Z :=
  match message with
  | EmptyString => None
  | String a message' =>
      if is_digit a then
        match digitsThenPercent message 0 with
        | Some p => Some p
        | None => percentMatch message'
        end
      else percentMatch message'
  end.

(** [progress.percentage || d] *)
Definition percentageOr (p : option Z) (d : Z) : Z :=
  match p with
  | Some v => if v =? 0 then d else v
  | None => d
  end.

(** [extractProgress]: the keys of the partial progress that are set. *)
Definition extractProgress (status message : string) : ProgressUpdate :=
  let percentMatch := percentMatch message in
  if bool_decide (status = "queued")
  then percentStepUpdate 0 "Queued for execution"
  else if bool_decide (status = "initializing")
  then percentStepUpdate 10 "Initializing agent"
  else if bool_decide (status = "loading_agent")
  then percentStepUpdate 20 "Loading agent configuration"
  else if bool_decide (status = "loading_tools")
  then percentStepUpdate 30 "Loading tools and capabilities"
  else if bool_decide (status = "executing")
  then percentStepUpdate (percentageOr percentMatch 50)
                         "Processing your request"
  else if bool_decide (status = "tool_running")
  then percentStepUpdate (percentageOr percentMatch 70) "Running tools"
  else if bool_decide (status = "completed")
  then percentStepUpdate 100 "Completed successfully"
  else if bool_decide (status = "failed")
  then percentStepUpdate 0 "Execution failed"
  else {| pu_percentage := percentMatch; pu_currentStep := None;
          pu_estimatedTimeRemaining := None; pu_completedSteps := None |}.

(** [Object.keys(progressUpdates).length > 0] *)
Definition hasKeys (u : ProgressUpdate) : bool :=
  bool_decide (is_Some (pu_percentage u))
  || bool_decide (is_Some (pu_currentStep u))
  || bool_decide (is_Some (pu_estimatedTimeRemaining u))
  || bool_decide (is_Some (pu_completedSteps u)).

(** *** The hook with its timers *)

(** Calls that leave the hook from its monitoring code. *)
Inductive Notice :=
| OnRecovery (success : bool)
| ToastSuccess (message : string)
| OnStatusChange (status : string)
| SetReconnectTimeout (delay : option Q)
| ClearReconnectTimeout.

(** The hook, the ref of its reconnect timeout (is there a handle), the
    notices issued so far, oldest first, and the calls that are suspended
    at an [await]: the calls of [stopStreaming] that wait for [stopAgent]
    and the callbacks of the status interval that wait for
    [getAgentStatus]. *)
Record Monitored := {
  hook : Hook;
  reconnectTimeoutRef : bool;
  notices : list Notice;
  stopsAwaited : nat;
  statusAwaited : nat
}.

Definition mounted (h : Hook) : Monitored :=
  {| hook := h; reconnectTimeoutRef := false; notices := [];
     stopsAwaited := 0; statusAwaited := 0 |}.

Definition onHook (f : Hook -> Hook) (m : Monitored) : Monitored :=
  {| hook := f (hook m); reconnectTimeoutRef := reconnectTimeoutRef m;
     notices := notices m; stopsAwaited := stopsAwaited m;
     statusAwaited := statusAwaited m |}.

Definition notify (n : Notice) (m : Monitored) : Monitored :=
  {| hook := hook m; reconnectTimeoutRef := reconnectTimeoutRef m;
     notices := notices m ++ [n]; stopsAwaited := stopsAwaited m;
     statusAwaited := statusAwaited m |}.

Definition setStopsAwaited (n : nat) (m : Monitored) : Monitored :=
  {| hook := hook m; reconnectTimeoutRef := reconnectTimeoutRef m;
     notices := notices m; stopsAwaited := n;
     statusAwaited := statusAwaited m |}.

Definition setStatusAwaited (n : nat) (m : Monitored) : Monitored :=
  {| hook := hook m; reconnectTimeoutRef := reconnectTimeoutRef m;
     notices := notices m; stopsAwaited := stopsAwaited m;
     statusAwaited := n |}.

Definition setRecovery (recovering : bool) (health : ConnectionHealth)
    (h : Hook) : Hook :=
  let prev := streamState h in
  setStreamState
    {| connectionHealth := health; progress := progress prev;
       retryCount := retryCount prev; errorHistory := errorHistory prev;
       isRecovering := recovering; queuePosition := queuePosition prev |} h.

Definition withStatus (s : HealthStatus) (c : ConnectionHealth)
    : ConnectionHealth :=
  {| ch_status := s; lastHeartbeat := lastHeartbeat c; latency := latency c;
     reconnectAttempts := reconnectAttempts c |}.

(** [retryConnection]; [currentAttempt] is the number of reconnect attempts
    of the render that created the callback.  The function has no [await]
    before its [setTimeout]. *)
Definition retryConnection (currentAttempt : Z) (random : Q)
    (m : Monitored) : Monitored :=
  let h := hook m in
  if negb (truthy (currentRunIdRef h)) || negb (isMountedRef h) then m
  else
    let prev := streamState h in
    let old := connectionHealth prev in
    let h1 :=
      if isRecovering prev
         || (MAX_RECONNECT_ATTEMPTS <=? reconnectAttempts old)
      then h
      else setRecovery true
             {| ch_status := ch_status old;
                lastHeartbeat := lastHeartbeat old; latency := latency old;
                reconnectAttempts := reconnectAttempts old + 1 |} h in
    {| hook := h1; reconnectTimeoutRef := true;
       notices := notices m
                  ++ [SetReconnectTimeout
                        (calculateRetryDelay currentAttempt random)];
       stopsAwaited := stopsAwaited m;
       statusAwaited := statusAwaited m |}.

(** The callback of the timeout set by [retryConnection]; [now] and [now']
    are the two readings of the clock.  [startStreaming] catches the
    exception of [streamAgent] itself. *)
Definition reconnectTimer (now now' : Z) (streamAgentThrows : option string)
    (m : Monitored) : Monitored :=
  let h := hook m in
  if negb (isMountedRef h) || negb (truthy (currentRunIdRef h)) then m
  else
    let h1 := startStreaming (default "" (currentRunIdRef h)) now
                             streamAgentThrows h in
    let old := connectionHealth (streamState h1) in
    let h2 := setRecovery false
                {| ch_status := healthy; lastHeartbeat := now';
                   latency := latency old; reconnectAttempts := 0 |} h1 in
    notify (ToastSuccess "Connection restored")
      (notify (OnRecovery true) (onHook (fun _ => h2) m)).

(** The callback of the interval of [startHeartbeat], at time [now]: the
    state update, and the [retryConnection] it calls from inside it. *)
Definition heartbeatTick (now : Z) (currentAttempt : Z) (random : Q)
    (m : Monitored) : Monitored :=
  let h := hook m in
  let prev := streamState h in
  let old := connectionHealth prev in
  let timeSinceLastHeartbeat := now - lastHeartbeat old in
  let newStatus :=
    if HEARTBEAT_INTERVAL * 4 <? timeSinceLastHeartbeat then disconnected
    else if HEARTBEAT_INTERVAL * 2 <? timeSinceLastHeartbeat then degraded
    else ch_status old in
  let m1 := onHook (setRecovery (isRecovering prev)
                                (withStatus newStatus old)) m in
  if bool_decide (newStatus = disconnected)
     && negb (isRecovering prev)
     && truthy (currentRunIdRef h)
  then retryConnection currentAttempt random m1
  else m1.

(** What [getAgentStatus] resolves with, as far as the hook reads it. *)
Record StatusInfo := {
  si_status : option string;
  si_message : option string;
  si_queue_position : option Z
}.

Definition setQueuePosition (q : option Z) (h : Hook) : Hook :=
  let prev := streamState h in
  setStreamState
    {| connectionHealth := connectionHealth prev; progress := progress prev;
       retryCount := retryCount prev; errorHistory := errorHistory prev;
       isRecovering := isRecovering prev; queuePosition := q |} h.

(** The callback of the interval of [startStatusPolling] up to its
    [await]: if its guard lets it pass, it calls [getAgentStatus] and is
    suspended. *)
Definition statusPollFires (m : Monitored) : Monitored :=
  let h := hook m in
  if negb (truthy (currentRunIdRef h)) || negb (isMountedRef h) then m
  else setStatusAwaited (S (statusAwaited m)) m.

(** A suspended callback of the status interval resumes, [getAgentStatus]
    having settled; [response] is [None] when it rejects.  Nothing tests
    again whether the hook is mounted. *)
Definition statusSettles (response : option StatusInfo) (now : Z)
    (m : Monitored) : Monitored :=
  match statusAwaited m with
  | O => m
  | S awaited =>
      let m0 := setStatusAwaited awaited m in
      match response with
      | None =>
          onHook (updateConnectionHealth
                    {| hu_status := Some degraded; hu_lastHeartbeat := None;
                       hu_latency := None; hu_reconnectAttempts := None |})
                 m0
      | Some statusInfo =>
          let m1 :=
            onHook (updateConnectionHealth
                      {| hu_status := Some healthy;
                         hu_lastHeartbeat := Some now;
                         hu_latency := None;
                         hu_reconnectAttempts := None |}) m0 in
          if truthy (si_status statusInfo) then
            let status := default "" (si_status statusInfo) in
            let message :=
              if truthy (si_message statusInfo)
              then default "" (si_message statusInfo) else "" in
            let progressUpdates := extractProgress status message in
            let m2 := if hasKeys progressUpdates
                      then onHook (updateProgress progressUpdates) m1
                      else m1 in
            let m3 := match si_queue_position statusInfo with
                      | Some q => onHook (setQueuePosition (Some q)) m2
                      | None => m2
                      end in
            notify (OnStatusChange status) m3
          else m1
      end
  end.

(** [stopStreaming] up to its [await]: if its guard lets the call pass,
    [stopAgent] is called and the call is suspended. *)
Definition stopCalled (m : Monitored) : Monitored :=
  match stop_begin (hook m) with
  | (Some _, h1) =>
      setStopsAwaited (S (stopsAwaited m)) (onHook (fun _ => h1) m)
  | (None, _) => m
  end.

(** A suspended call of [stopStreaming] resumes, [stopAgent] having
    settled; [stopAgentThrows] is the text of its rejection, if it
    rejects.  Nothing tests again whether the hook is mounted. *)
Definition stopSettles (stopAgentThrows : option string) (now : Z)
    (m : Monitored) : Monitored :=
  match stopsAwaited m with
  | O => m
  | S awaited =>
      onHook (match stopAgentThrows with
              | None => stop_resolved
              | Some err => stop_rejected err now
              end) (setStopsAwaited awaited m)
  end.

(** The cleanup of the mount effect, with the reconnect timeout. *)
Definition unmountAll (m : Monitored) : Monitored :=
  let m1 := onHook unmount m in
  if reconnectTimeoutRef m1 then notify ClearReconnectTimeout m1 else m1.

Section Monitoring.

Variable parseMessage : string -> option UnifiedMessage.
Variable parseContent : string -> ParsedContent.
Variable parseMetadata : string -> ParsedMetadata.

(** What happens to a hook in use: the caller starts and stops streams,
    retries and clears errors; the stream delivers messages and errors;
    the timers fire; the calls of the API that are awaited settle; React
    renders and unmounts. *)
Inductive MonitorEvent :=
| Start (runId : string) (now : Z) (streamAgentThrows : option string)
| StopCalled
| StopSettles (stopAgentThrows : option string) (now : Z)
| Message (rawData : string) (now : Z)
| StreamError (error : string) (now : Z)
| Render
| ClearErrors
| Retry (currentAttempt : Z) (random : Q)
| HeartbeatFires (now : Z) (currentAttempt : Z) (random : Q)
| StatusPollFires
| StatusSettles (response : option StatusInfo) (now : Z)
| ReconnectFires (now now' : Z) (streamAgentThrows : option string)
| Unmount.

(** The event of the hook's life that an event of the monitored hook
    is, if it is one. *)
Definition lifeEvent (ev : MonitorEvent) : option HookEvent :=
  match ev with
  | Start runId now throws => Some (EvStart runId now throws)
  | Message rawData now => Some (EvMessage rawData now)
  | StreamError error now => Some (EvStreamError error now)
  | Render => Some EvRender
  | ClearErrors => Some EvClearErrors
  | _ => None
  end.

Definition monitorStep (ev : MonitorEvent) (m : Monitored) : Monitored :=
  match ev with
  | Retry currentAttempt random => retryConnection currentAttempt random m
  | HeartbeatFires now currentAttempt random =>
      heartbeatTick now currentAttempt random m
  | StopCalled => stopCalled m
  | StopSettles throws now => stopSettles throws now m
  | StatusPollFires => statusPollFires m
  | StatusSettles response now => statusSettles response now m
  | ReconnectFires now now' throws => reconnectTimer now now' throws m
  | Unmount => unmountAll m
  | _ =>
      match lifeEvent ev with
      | Some e =>
          onHook (hookStep parseMessage parseContent parseMetadata e) m
      | None => m
      end
  end.

Definition monitorRun (evs : list MonitorEvent) (m : Monitored)
    : Monitored :=
  foldl (fun m ev => monitorStep ev m) m evs.

(** [processedData] of [handleStreamMessage]. *)
Definition processedDataOf (rawData : string) : string :=
  if String.prefix "data: " rawData
  then trim (substringFrom 6 rawData) else rawData.

End Monitoring.

(** *** Vocabulary for the statements about monitoring *)

(** The two fields that [retryConnection] and the reconnect timer keep. *)
Definition recoveryOf (h : Hook) : bool * Z :=
  (isRecovering (streamState h),
   reconnectAttempts (connectionHealth (streamState h))).

Definition healthOf (h : Hook) : ConnectionHealth :=
  connectionHealth (streamState h).

Definition progressOf (h : Hook) : ProgressInfo := progress (streamState h).

(** What the guards of the hook's functions read: is it mounted, its
    status, the run id in the state and in the ref, and the two fields of
    the recovery. *)
Record Core := {
  c_mounted : bool;
  c_status : string;
  c_agentRunId : option string;
  c_currentRunId : option string;
  c_recovering : bool;
  c_attempts : Z
}.

Definition coreOf (h : Hook) : Core :=
  {| c_mounted := isMountedRef h; c_status := status h;
     c_agentRunId := agentRunId h; c_currentRunId := currentRunIdRef h;
     c_recovering := isRecovering (streamState h);
     c_attempts := reconnectAttempts (connectionHealth (streamState h)) |}.

Definition withMounted (v : bool) (c : Core) : Core :=
  {| c_mounted := v; c_status := c_status c;
     c_agentRunId := c_agentRunId c; c_currentRunId := c_currentRunId c;
     c_recovering := c_recovering c; c_attempts := c_attempts c |}.

Definition withCoreStatus (v : string) (c : Core) : Core :=
  {| c_mounted := c_mounted c; c_status := v;
     c_agentRunId := c_agentRunId c; c_currentRunId := c_currentRunId c;
     c_recovering := c_recovering c; c_attempts := c_attempts c |}.

Definition withAgentRunId (v : option string) (c : Core) : Core :=
  {| c_mounted := c_mounted c; c_status := c_status c;
     c_agentRunId := v; c_currentRunId := c_currentRunId c;
     c_recovering := c_recovering c; c_attempts := c_attempts c |}.

Definition withCurrentRunId (v : option string) (c : Core) : Core :=
  {| c_mounted := c_mounted c; c_status := c_status c;
     c_agentRunId := c_agentRunId c; c_currentRunId := v;
     c_recovering := c_recovering c; c_attempts := c_attempts c |}.

Definition withRecovery (recovering : bool) (attempts : Z) (c : Core)
    : Core :=
  {| c_mounted := c_mounted c; c_status := c_status c;
     c_agentRunId := c_agentRunId c; c_currentRunId := c_currentRunId c;
     c_recovering := recovering; c_attempts := attempts |}.

(** The hook keeps the id of its run in two places, and they agree; and it
    is either not recovering, with no reconnect attempt counted, or
    recovering, with one. *)
Definition coreInv (c : Core) : Prop :=
  c_agentRunId c = c_currentRunId c
  /\ ((c_recovering c = false /\ c_attempts c = 0)
      \/ (c_recovering c = true /\ c_attempts c = 1)).

(** The completed steps of a progress list no step twice and never the
    empty step. *)
Definition stepsDistinct (p : ProgressInfo) : Prop :=
  NoDup (completedSteps p) /\ "" ∉ completedSteps p.

(** A status that [getAgentStatus] resolves with. *)
Definition statusOnly (status : string) : StatusInfo :=
  {| si_status := Some status; si_message := None;
     si_queue_position := None |}.

(** The update of [handleStreamMessage] to the connection health. *)
Definition heardAt (now : Z) : HealthUpdate :=
  {| hu_status := Some healthy; hu_lastHeartbeat := Some now;
     hu_latency := None; hu_reconnectAttempts := None |}.

End AgentStreamMore.

(** ** The system health dashboard, a caller of the client *)

Module Dashboard.

(** The status of a component: ['healthy' | 'degraded' | 'unhealthy' |
    'unknown']. *)
Inductive ComponentStatus := Healthy | Degraded | Unhealthy | Unknown.

#[global] Instance ComponentStatus_eq_dec : EqDecision ComponentStatus.
Proof. solve_decision. Defined.

(** The value a health request is fulfilled with, as far as [fetchHealth]
    reads it: [null] or [undefined], or a value whose [status] property is
    a string or missing. *)
Inductive HealthValue :=
| Nullish
| WithStatus (status : option string).

(** An element of the result of [Promise.allSettled]. *)
Inductive SettledResult :=
| Fulfilled (value : HealthValue)
| Rejected.

Record Components := {
  redis : ComponentStatus;
  llm : ComponentStatus;
  database : ComponentStatus;
  sandbox : ComponentStatus
}.

Record SystemHealth := {
  sh_status : ComponentStatus;
  components : Components
}.

(** [r.status === 'fulfilled' && r.value.status === expected]; reading
    [status] from a nullish value throws: [None]. *)
Definition fulfilledWith (expected : string) (r : SettledResult)
    : option bool :=
  match r with
  | Rejected => Some false
  | Fulfilled Nullish => None
  | Fulfilled (WithStatus status) =>
      Some (bool_decide (status = Some expected))
  end.

Definition isFulfilled (r : SettledResult) : bool :=
  match r with Fulfilled _ => true | Rejected => false end.

(** [fetchHealth], from the three settled requests to the health the
    dashboard shows; [None] when the [try] block throws and the dashboard
    shows an error instead. *)
Definition fetchHealth (redisHealth llmHealth generalHealth : SettledResult)
    : option SystemHealth :=
  match fulfilledWith "healthy" redisHealth,
        fulfilledWith "healthy" llmHealth,
        fulfilledWith "ok" generalHealth with
  | Some redisOk, Some llmOk, Some generalOk =>
      let redis := if redisOk then Healthy else Unhealthy in
      let llm := if llmOk then Healthy else Unhealthy in
      let database := if generalOk then Healthy else Unhealthy in
      let sandbox := if isFulfilled generalHealth then Healthy
                     else Unknown in
      let componentStatuses := [redis; llm; database; sandbox] in
      let overallStatus :=
        if bool_decide (Unhealthy ∈ componentStatuses) then Unhealthy
        else if bool_decide (Degraded ∈ componentStatuses) then Degraded
        else if bool_decide (Unknown ∈ componentStatuses) then Degraded
        else Healthy in
      Some {| sh_status := overallStatus;
              components := {| redis := redis; llm := llm;
                               database := database;
                               sandbox := sandbox |} |}
  | _, _, _ => None
  end.

End Dashboard.

(** * Properties *)

(** ** The offline queue *)

Module QueueFacts.
Import ApiClient.

Section Queue.

Variable generateRequestId : string -> RequestConfig -> option string.
Variable extractEndpoint : string -> string.
Variable API_URL : string.

Lemma findIndex_None {A} (p : A -> bool) (l : list A) :
  findIndex p l = None -> Forall (fun x => p x = false) l.
Proof.
  induction l as [|x l IH]; simpl; [constructor|].
  destruct (p x) eqn:Hp; [discriminate|].
  destruct (findIndex p l); [discriminate|].
  intros _. constructor; auto.
Qed.

Lemma findIndex_Some {A} (p : A -> bool) (l : list A) (i : nat) :
  findIndex p l = Some i ->
  Forall (fun x => p x = false) (take i l)
  /\ exists y, drop i l = y :: drop (S i) l /\ p y = true.
Proof.
  revert i. induction l as [|x l IH]; simpl; intros i; [discriminate|].
  destruct (p x) eqn:Hp.
  - intros [= <-]. simpl. split; [constructor|]. exists x. by rewrite drop_0.
  - destruct (findIndex p l) as [j|]; [|discriminate].
    intros [= <-]. destruct (IH j eq_refl) as [Hall (y & Hy & Hpy)].
    split; [by constructor|]. exists y. done.
Qed.

(** Where [insertQueued] puts the new request. *)
Lemma insertQueued_split (x : QueuedRequest) (q : list QueuedRequest) :
  exists before after,
    q = before ++ after
    /\ insertQueued x q = before ++ x :: after
    /\ Forall (fun y => prio x <= prio y) before
    /\ match after with
       | [] => True
       | y :: _ => prio y < prio x
       end.
Proof.
  unfold insertQueued.
  destruct (findIndex _ q) as [i|] eqn:Hf.
  - apply findIndex_Some in Hf as [Hall (y & Hy & Hpy)].
    exists (take i q), (drop i q). split; [by rewrite take_drop|].
    split; [done|]. split.
    + eapply Forall_impl; [exact Hall|]. intros z Hz. simpl in Hz.
      unfold prio. lia.
    + rewrite Hy. unfold prio. lia.
  - apply findIndex_None in Hf.
    exists q, []. rewrite app_nil_r. split; [done|]. split; [done|].
    split; [|done].
    eapply Forall_impl; [exact Hf|]. intros z Hz. simpl in Hz.
    unfold prio. lia.
Qed.

(** If the queue splits into requests of priority at least that of [x]
    followed by requests of strictly lower priority, [x] goes between. *)
Lemma insertQueued_between (x : QueuedRequest) (l1 l2 : list QueuedRequest) :
  Forall (fun y => prio x <= prio y) l1 ->
  Forall (fun y => prio y < prio x) l2 ->
  insertQueued x (l1 ++ l2) = l1 ++ x :: l2.
Proof.
  intros H1 H2. unfold insertQueued.
  induction H1 as [|y l1 Hy H1 IH]; simpl.
  - destruct H2 as [|z l2 Hz H2]; simpl; [done|].
    unfold prio in Hz.
    destruct (Z.ltb_spec (priority_value (qr_priority z))
                         (priority_value (qr_priority x))); [done|lia].
  - unfold prio in Hy.
    destruct (Z.ltb_spec (priority_value (qr_priority y))
                         (priority_value (qr_priority x))); [lia|].
    destruct (findIndex _ (l1 ++ l2)) as [i|]; simpl in *.
    + unfold splice_insert in *. simpl. by rewrite IH.
    + by rewrite IH.
Qed.

Lemma insertQueued_ordered (x : QueuedRequest) (q : list QueuedRequest) :
  priorityOrdered q -> priorityOrdered (insertQueued x q).
Proof.
  intros Hq.
  destruct (insertQueued_split x q) as (l1 & l2 & -> & -> & H1 & H2).
  unfold priorityOrdered in *.
  apply StronglySorted_app in Hq as (H12 & S1 & S2).
  apply StronglySorted_app_2; [|done|].
  - intros a b Ha Hb. apply elem_of_cons in Hb as [->|Hb]; [|by apply H12].
    rewrite Forall_forall in H1. by apply H1.
  - constructor; [done|].
    destruct l2 as [|y l2]; [constructor|].
    apply StronglySorted_inv in S2 as [S2 Hy].
    constructor; [lia|].
    eapply Forall_impl; [exact Hy|]. simpl. intros; lia.
Qed.

Lemma getCircuitBreaker_queue (e : string) (c : Client) :
  requestQueue (getCircuitBreaker e c).2 = requestQueue c.
Proof. unfold getCircuitBreaker. by destruct (circuitBreakers c !! e). Qed.

Lemma request_begin_ordered url config now (c : Client) :
  priorityOrdered (requestQueue c) ->
  priorityOrdered
    (requestQueue
       (request_begin generateRequestId extractEndpoint API_URL
                      url config now c).2).
Proof.
  intros Hc. unfold request_begin.
  destruct (generateRequestId url config) as [requestId|]; [|done].
  destruct (_ && _); [done|].
  pose proof (getCircuitBreaker_queue
                (extractEndpoint (fullUrlOf API_URL url)) c) as Hq.
  destruct (getCircuitBreaker _ c) as [cb c1]. simpl in Hq.
  destruct (decide _); simpl; [by rewrite Hq|].
  destruct (negb (isOnline c1)); simpl; [|by rewrite Hq].
  unfold queueRequest.
  destruct (generateRequestId (fullUrlOf API_URL url) config);
    simpl; rewrite Hq; [by apply insertQueued_ordered|done].
Qed.

Lemma request_finish_queue url config result now (c : Client) :
  requestQueue
    (request_finish generateRequestId extractEndpoint API_URL
                    url config result now c).1 = requestQueue c.
Proof.
  unfold request_finish, recordSuccess, recordFailure.
  destruct (generateRequestId url config) as [requestId|]; [|done].
  destruct result.
  - pose proof (getCircuitBreaker_queue
                  (extractEndpoint (fullUrlOf API_URL url)) c) as Hq.
    destruct (getCircuitBreaker _ c) as [cb c1]. done.
  - pose proof (getCircuitBreaker_queue
                  (extractEndpoint (fullUrlOf API_URL url)) c) as Hq.
    destruct (getCircuitBreaker _ c) as [cb c1].
    by destruct (breakerFailure now cb) as [cb' [t|]].
Qed.

Lemma recoveryTimerFires_queue (endpoint : string) (c : Client) :
  requestQueue (recoveryTimerFires endpoint c) = requestQueue c.
Proof. unfold recoveryTimerFires. by destruct (bool_decide _). Qed.

Lemma clientStep_ordered ev (s : Client * list QueuedRequest) :
  priorityOrdered (requestQueue s.1) ->
  priorityOrdered
    (requestQueue
       (clientStep generateRequestId extractEndpoint API_URL ev s).1).
Proof.
  destruct s as [c processed]. simpl. intros Hc.
  destruct ev; simpl; try done.
  - by apply request_begin_ordered.
  - by rewrite request_finish_queue.
  - by rewrite recoveryTimerFires_queue.
  - unfold queueProcessorTick.
    destruct (_ || _); [done|].
    destruct (requestQueue c) as [|r rest] eqn:Hq; simpl; [by rewrite Hq|].
    unfold priorityOrdered in *. by apply StronglySorted_inv in Hc as [? _].
  - constructor.
Qed.

Lemma clientRun_ordered evs (s : Client * list QueuedRequest) :
  priorityOrdered (requestQueue s.1) ->
  priorityOrdered
    (requestQueue
       (clientRun generateRequestId extractEndpoint API_URL evs s).1).
Proof.
  revert s. induction evs as [|ev evs IH]; intros s Hs; [done|].
  simpl. apply IH. by apply clientStep_ordered.
Qed.

Lemma withPriority_prio (p : RequestPriority) (l : list QueuedRequest) :
  Forall (fun y => prio y = priority_value p) (withPriority p l).
Proof.
  apply List.Forall_forall. intros y Hy.
  apply filter_In in Hy as [_ Hy]. apply bool_decide_eq_true in Hy.
  unfold prio. by rewrite Hy.
Qed.

Lemma withPriority_snoc (p : RequestPriority) (l : list QueuedRequest) x :
  withPriority p (l ++ [x])
  = withPriority p l ++ (if decide (qr_priority x = p) then [x] else []).
Proof.
  unfold withPriority. rewrite List.filter_app. simpl.
  destruct (decide (qr_priority x = p)) as [->|Hne].
  - by rewrite bool_decide_eq_true_2.
  - by rewrite bool_decide_eq_false_2.
Qed.

(** Insert [x] between the groups [L1] and [L2], whose priorities are known
    from the context, and reassociate. *)
Ltac grouped_between x L1 L2 :=
  let E := fresh "E" in
  assert (E : insertQueued x (L1 ++ L2) = L1 ++ x :: L2)
    by (apply insertQueued_between; rewrite ?Forall_app; repeat split;
        first [ by constructor
              | eapply Forall_impl; [eassumption|]; simpl; intros; lia ]);
  rewrite ?app_nil_r, <- ?app_assoc in E;
  rewrite <- ?app_assoc; simpl; exact E.

(** Inserting into the queue grouped by priority keeps it grouped, the new
    request last in its group. *)
Lemma insertQueued_grouped (x : QueuedRequest) (l : list QueuedRequest) :
  insertQueued x (withPriority CRITICAL l ++ withPriority HIGH l
                  ++ withPriority NORMAL l ++ withPriority LOW l)
  = withPriority CRITICAL (l ++ [x]) ++ withPriority HIGH (l ++ [x])
    ++ withPriority NORMAL (l ++ [x]) ++ withPriority LOW (l ++ [x]).
Proof.
  pose proof (withPriority_prio CRITICAL l) as HC.
  pose proof (withPriority_prio HIGH l) as HH.
  pose proof (withPriority_prio NORMAL l) as HN.
  pose proof (withPriority_prio LOW l) as HL.
  rewrite !withPriority_snoc.
  assert (Hx : prio x = priority_value (qr_priority x)) by done.
  destruct (qr_priority x) eqn:Hp; simpl in Hx;
    repeat (destruct (decide _) as [|]; try discriminate; try congruence);
    rewrite ?app_nil_r.
  - grouped_between x
      (withPriority CRITICAL l ++ withPriority HIGH l
       ++ withPriority NORMAL l ++ withPriority LOW l)
      (@nil QueuedRequest).
  - grouped_between x
      (withPriority CRITICAL l ++ withPriority HIGH l
       ++ withPriority NORMAL l)
      (withPriority LOW l).
  - grouped_between x
      (withPriority CRITICAL l ++ withPriority HIGH l)
      (withPriority NORMAL l ++ withPriority LOW l).
  - grouped_between x
      (withPriority CRITICAL l)
      (withPriority HIGH l ++ withPriority NORMAL l ++ withPriority LOW l).
Qed.

(** What [queueRequest] records of a request, and where it puts it. *)
Lemma queueRequest_Some url config now (c : Client) (id : string) :
  generateRequestId url config = Some id ->
  let x := {| qr_id := id; qr_url := url; qr_config := config;
              qr_priority := default NORMAL (cfg_priority config);
              qr_timestamp := now |} in
  queueRequest generateRequestId url config now c
  = Some (x, setQueue (insertQueued x (requestQueue c)) c)
  /\ queuedOf generateRequestId (url, config, now) = Some x.
Proof.
  intros Hid x. unfold queuedOf, queueRequest. by rewrite Hid.
Qed.

Lemma queueRequest_None url config now (c : Client) :
  generateRequestId url config = None ->
  queueRequest generateRequestId url config now c = None
  /\ queuedOf generateRequestId (url, config, now) = None.
Proof. intros Hid. unfold queuedOf, queueRequest. by rewrite Hid. Qed.

(** A queued request carries the URL, the configuration and the time of
    the call, and the priority the call was made with. *)
Lemma queuedOf_Some url config now (x : QueuedRequest) :
  queuedOf generateRequestId (url, config, now) = Some x ->
  generateRequestId url config = Some (qr_id x)
  /\ qr_url x = url /\ qr_config x = config /\ qr_timestamp x = now
  /\ qr_priority x = default NORMAL (cfg_priority config)
  /\ prio x = requestedPriority config.
Proof.
  unfold queuedOf, queueRequest.
  destruct (generateRequestId url config) as [id|]; [|discriminate].
  simpl. by intros [= <-].
Qed.

Lemma queuedOf_requested (reqs : list (string * RequestConfig * Z)) :
  Forall (fun x => prio x = requestedPriority (qr_config x))
         (omap (queuedOf generateRequestId) reqs).
Proof.
  apply Forall_forall. intros x Hx.
  apply list_elem_of_omap in Hx as ([[url config] now] & _ & Hx).
  apply queuedOf_Some in Hx as (_ & _ & -> & _ & _ & Hp). done.
Qed.

(** For requests that carry the priority they were made with, grouping by
    the stored priority is grouping by the priority asked for. *)
Lemma withPriority_requested (p : RequestPriority)
    (l : list QueuedRequest) :
  Forall (fun x => prio x = requestedPriority (qr_config x)) l ->
  withPriority p l = requestedWith (priority_value p) l.
Proof.
  induction 1 as [|x l Hx Hl IH]; [done|].
  unfold withPriority, requestedWith in *. simpl. rewrite IH.
  rewrite <- Hx. unfold prio.
  destruct (decide (qr_priority x = p)) as [->|Hne].
  - by rewrite !bool_decide_eq_true_2.
  - rewrite bool_decide_eq_false_2 by done.
    rewrite bool_decide_eq_false_2; [done|].
    intros Hv. apply Hne. by destruct (qr_priority x), p.
Qed.

Lemma enqueueAll_snoc reqs url config now (c : Client) :
  enqueueAll generateRequestId (reqs ++ [(url, config, now)]) c
  = match queueRequest generateRequestId url config now
                       (enqueueAll generateRequestId reqs c) with
    | Some (_, c') => c'
    | None => enqueueAll generateRequestId reqs c
    end.
Proof. unfold enqueueAll. by rewrite foldl_app. Qed.

Lemma enqueueAll_grouped reqs (c : Client) :
  requestQueue c = [] ->
  let l := omap (queuedOf generateRequestId) reqs in
  requestQueue (enqueueAll generateRequestId reqs c)
  = withPriority CRITICAL l ++ withPriority HIGH l
    ++ withPriority NORMAL l ++ withPriority LOW l.
Proof.
  intros Hc. induction reqs as [|[[url config] now] reqs IH] using rev_ind.
  - simpl. done.
  - rewrite enqueueAll_snoc, omap_app.
    change (omap (queuedOf generateRequestId) [(url, config, now)])
      with (match queuedOf generateRequestId (url, config, now) with
            | Some x => [x]
            | None => []
            end).
    destruct (generateRequestId url config) as [id|] eqn:Hid.
    + destruct (queueRequest_Some url config now
                  (enqueueAll generateRequestId reqs c) id Hid) as [-> ->].
      cbn [requestQueue setQueue]. cbv zeta in IH. rewrite IH.
      apply insertQueued_grouped.
    + destruct (queueRequest_None url config now
                  (enqueueAll generateRequestId reqs c) Hid) as [-> ->].
      rewrite app_nil_r. apply IH.
Qed.

Lemma enqueueAll_only_queue reqs (c : Client) :
  enqueueAll generateRequestId reqs c
  = setQueue (requestQueue (enqueueAll generateRequestId reqs c)) c.
Proof.
  induction reqs as [|[[url config] now] reqs IH] using rev_ind.
  - by destruct c.
  - rewrite enqueueAll_snoc. unfold queueRequest.
    destruct (generateRequestId url config); [|done].
    remember (enqueueAll generateRequestId reqs c) as c' eqn:E.
    rewrite IH. reflexivity.
Qed.

(** Ticks of the queue processor on an online client hand over the
    requests from the front of the queue, one per tick. *)
Lemma ticks_take_front (n : nat) (q processed : list QueuedRequest)
    (c : Client) :
  clientRun generateRequestId extractEndpoint API_URL
            (replicate n EvQueueTick)
            (setOnline true (setQueue q c), processed)
  = (setOnline true (setQueue (drop n q) c), processed ++ take n q).
Proof.
  revert q processed. induction n as [|n IH]; intros q processed.
  - simpl. by rewrite app_nil_r.
  - destruct q as [|request rest].
    + specialize (IH [] processed). rewrite drop_nil, take_nil in *.
      exact IH.
    + simpl. specialize (IH rest (processed ++ [request])).
      rewrite <- app_assoc in IH. exact IH.
Qed.

Lemma withPriority_partition (l : list QueuedRequest) :
  length (withPriority CRITICAL l ++ withPriority HIGH l
          ++ withPriority NORMAL l ++ withPriority LOW l) = length l.
Proof.
  rewrite !length_app. induction l as [|x l IH]; [done|].
  simpl. destruct (qr_priority x); simpl; lia.
Qed.

Lemma insertQueued_asRequested (x : QueuedRequest) (l : list QueuedRequest) :
  prio x = requestedPriority (qr_config x) ->
  asRequested l -> asRequested (insertQueued x l).
Proof.
  intros Hx Hl. unfold asRequested in *.
  destruct (insertQueued_split x l) as (l1 & l2 & -> & -> & _).
  apply Forall_app in Hl as [H1 H2].
  apply Forall_app. split; [done|by constructor].
Qed.

Lemma clientStep_asRequested ev (s : Client * list QueuedRequest) :
  asRequested (requestQueue s.1) ->
  asRequested
    (requestQueue
       (clientStep generateRequestId extractEndpoint API_URL ev s).1).
Proof.
  destruct s as [c processed]. simpl. intros Hc.
  destruct ev; simpl; try done.
  - unfold request_begin.
    destruct (generateRequestId url config) as [requestId|]; [|done].
    destruct (_ && _); [done|].
    pose proof (getCircuitBreaker_queue
                  (extractEndpoint (fullUrlOf API_URL url)) c) as Hq.
    destruct (getCircuitBreaker _ c) as [cb c1]. simpl in Hq.
    destruct (decide _); simpl; [by rewrite Hq|].
    destruct (negb (isOnline c1)); simpl; [|by rewrite Hq].
    unfold queueRequest.
    destruct (generateRequestId (fullUrlOf API_URL url) config);
      simpl; rewrite Hq; [|done].
    by apply insertQueued_asRequested.
  - by rewrite request_finish_queue.
  - by rewrite recoveryTimerFires_queue.
  - unfold queueProcessorTick.
    destruct (_ || _); [done|].
    destruct (requestQueue c) as [|r rest] eqn:Hq; simpl; [by rewrite Hq|].
    unfold asRequested in *. by apply Forall_cons in Hc as [_ ?].
  - constructor.
Qed.

Lemma clientRun_asRequested evs (s : Client * list QueuedRequest) :
  asRequested (requestQueue s.1) ->
  asRequested
    (requestQueue
       (clientRun generateRequestId extractEndpoint API_URL evs s).1).
Proof.
  revert s. induction evs as [|ev evs IH]; intros s Hs; [done|].
  simpl. apply IH. by apply clientStep_asRequested.
Qed.

(** The queue after requests were enqueued into an empty one, by the
    priorities the requests were made with. *)
Lemma enqueueAll_requested reqs (c : Client) :
  let l := omap (queuedOf generateRequestId) reqs in
  requestQueue (enqueueAll generateRequestId reqs (setQueue [] c))
  = requestedWith 4 l ++ requestedWith 3 l
    ++ requestedWith 2 l ++ requestedWith 1 l.
Proof.
  intros l. rewrite (enqueueAll_grouped reqs (setQueue [] c)) by done.
  fold l. pose proof (queuedOf_requested reqs) as Hl. fold l in Hl.
  by rewrite !withPriority_requested.
Qed.

(** Claim C10.  The offline request queue is kept in non-increasing order
    of the priority the requests were made with, [config.priority] or
    NORMAL: (1) after any sequence of client events the queue is ordered by
    the stored priorities, and the priority stored with an entry is the
    one its request was made with; (2) [queueRequest], for a request whose
    id can be computed, stores the URL, the configuration, the time and the
    priority the request was made with, and puts the new entry immediately
    before the first queued request of strictly lower priority, or at the
    end if there is none, moving nothing else; a request whose id cannot be
    computed is not queued; (3) the queue processor, when the client is
    online, takes the request at the front; (4) requests enqueued into an
    empty queue therefore stand highest requested priority first and,
    within one priority, in the order in which they were enqueued; (5) and
    once the client is online the queue processor hands them to the retry
    loop in exactly that order, one per tick. *)
Theorem offline_queue_priority_order :
  (forall evs onLine,
     let queue :=
       requestQueue
         (clientRun generateRequestId extractEndpoint API_URL evs
                    (newClient onLine, [])).1 in
     priorityOrdered queue
     /\ asRequested queue)
  /\ (forall url config now c,
        match generateRequestId url config with
        | None => queueRequest generateRequestId url config now c = None
        | Some id =>
            exists x before after,
              queueRequest generateRequestId url config now c
              = Some (x, setQueue (before ++ x :: after) c)
              /\ x = {| qr_id := id; qr_url := url; qr_config := config;
                        qr_priority := default NORMAL (cfg_priority config);
                        qr_timestamp := now |}
              /\ prio x = requestedPriority config
              /\ requestQueue c = before ++ after
              /\ Forall (fun y => requestedPriority config <= prio y) before
              /\ match after with
                 | [] => True
                 | y :: _ => prio y < requestedPriority config
                 end
        end)
  /\ (forall c request rest,
        queueProcessorTick (setOnline true (setQueue (request :: rest) c))
        = (Some request, setOnline true (setQueue rest c)))
  /\ (forall reqs c,
        let l := omap (queuedOf generateRequestId) reqs in
        Forall (fun x => exists url now,
                  (url, qr_config x, now) ∈ reqs
                  /\ qr_url x = url /\ qr_timestamp x = now
                  /\ prio x = requestedPriority (qr_config x)) l
        /\ requestQueue (enqueueAll generateRequestId reqs (setQueue [] c))
           = requestedWith 4 l ++ requestedWith 3 l
             ++ requestedWith 2 l ++ requestedWith 1 l)
  /\ (forall reqs c,
        let l := omap (queuedOf generateRequestId) reqs in
        (clientRun generateRequestId extractEndpoint API_URL
                   (replicate (length reqs) EvQueueTick)
                   (setOnline true
                      (enqueueAll generateRequestId reqs (setQueue [] c)),
                    [])).2
        = requestedWith 4 l ++ requestedWith 3 l
          ++ requestedWith 2 l ++ requestedWith 1 l).
Proof.
  split; [|split; [|split; [|split]]].
  - intros evs onLine. split.
    + apply clientRun_ordered. constructor.
    + apply clientRun_asRequested. constructor.
  - intros url config now c.
    destruct (generateRequestId url config) as [id|] eqn:Hid;
      [|by apply queueRequest_None].
    destruct (queueRequest_Some url config now c id Hid) as [Hq _].
    cbv zeta in Hq. rewrite Hq.
    set (x := {| qr_id := id |}).
    destruct (insertQueued_split x (requestQueue c))
      as (before & after & Hc & Hi & Hb & Ha).
    exists x, before, after. rewrite Hi. done.
  - intros c request rest. done.
  - intros reqs c l. split; [|apply enqueueAll_requested].
    apply Forall_forall. intros x Hx.
    apply list_elem_of_omap in Hx as ([[url config] now] & Hin & Hx).
    apply queuedOf_Some in Hx as (_ & <- & <- & <- & _ & Hp).
    by exists (qr_url x), (qr_timestamp x).
  - intros reqs c l.
    rewrite enqueueAll_only_queue, ticks_take_front. simpl.
    rewrite enqueueAll_requested. fold l.
    apply take_ge.
    pose proof (queuedOf_requested reqs) as Hl. fold l in Hl.
    change 4 with (priority_value CRITICAL).
    change 3 with (priority_value HIGH).
    change 2 with (priority_value NORMAL).
    change 1 with (priority_value LOW).
    rewrite <- !withPriority_requested by done.
    rewrite withPriority_partition. unfold l.
    clear. induction reqs as [|r reqs IH]; [done|].
    cbn [omap list_omap length].
    destruct (queuedOf generateRequestId r); simpl; lia.
Qed.

End Queue.

End QueueFacts.

(** ** The circuit breaker *)

Module BreakerFacts.
Import ApiClient.

Lemma breakerSuccess_state (cb : CircuitBreakerState) :
  cb_state (breakerSuccess cb)
  = if decide (cb_state cb = HALF_OPEN /\ 3 <= successCount cb + 1)
    then CLOSED else cb_state cb.
Proof.
  unfold breakerSuccess. destruct cb as [[] f t sc]; simpl; try done;
    repeat case_decide; try done; try lia;
    destruct (Z.leb_spec 3 (sc + 1)); simpl; try done; try lia;
    naive_solver.
Qed.

Lemma breakerSuccess_failureCount (cb : CircuitBreakerState) :
  failureCount (breakerSuccess cb)
  = if decide (cb_state cb = HALF_OPEN /\ 3 <= successCount cb + 1)
    then 0 else failureCount cb.
Proof.
  unfold breakerSuccess. destruct cb as [[] f t sc]; simpl; try done;
    repeat case_decide; try done; try lia;
    destruct (Z.leb_spec 3 (sc + 1)); simpl; try done; try lia;
    naive_solver.
Qed.

Lemma breakerSuccess_successCount (cb : CircuitBreakerState) :
  successCount (breakerSuccess cb) = successCount cb + 1.
Proof.
  unfold breakerSuccess. destruct cb as [[] f t sc]; simpl; try done.
  by destruct (3 <=? sc + 1).
Qed.

Lemma breakerFailure_state now (cb : CircuitBreakerState) :
  cb_state (breakerFailure now cb).1
  = if decide (cb_state cb = CLOSED /\ failureThreshold <= failureCount cb + 1)
    then OPEN else cb_state cb.
Proof.
  unfold breakerFailure, failureThreshold.
  destruct cb as [[] f t sc]; simpl; try done;
    repeat case_decide; try done; try lia;
    destruct (Z.leb_spec 5 (f + 1)); simpl; try done; try lia;
    naive_solver.
Qed.

Lemma breakerFailure_failureCount now (cb : CircuitBreakerState) :
  failureCount (breakerFailure now cb).1 = failureCount cb + 1.
Proof.
  unfold breakerFailure. destruct cb as [[] f t sc]; simpl; try done.
  by destruct (failureThreshold <=? f + 1).
Qed.

Lemma breakerFailure_timer now (cb : CircuitBreakerState) :
  (breakerFailure now cb).2
  = if decide (cb_state cb = CLOSED /\ failureThreshold <= failureCount cb + 1)
    then Some recoveryTimeout else None.
Proof.
  unfold breakerFailure, failureThreshold.
  destruct cb as [[] f t sc]; simpl; try done;
    repeat case_decide; try done; try lia;
    destruct (Z.leb_spec 5 (f + 1)); simpl; try done; try lia;
    naive_solver.
Qed.

Lemma breakerStep_inv ev (s : CircuitBreakerState * nat) :
  breakerInv s -> breakerInv (breakerStep ev s).
Proof.
  destruct s as [cb pending].
  unfold breakerInv, breakerStep, breakerSuccess, breakerFailure,
    breakerRecovery, failureThreshold.
  destruct cb as [[] f t sc], ev as [|now|]; simpl; intros Hinv;
    repeat match goal with
           | |- context [Z.leb ?a ?b] => destruct (Z.leb_spec a b); simpl
           end;
    try (destruct pending; simpl); first [done | lia | naive_solver lia].
Qed.

Lemma breakerRun_snoc evs ev (s : CircuitBreakerState * nat) :
  breakerRun (evs ++ [ev]) s = breakerStep ev (breakerRun evs s).
Proof. unfold breakerRun. by rewrite foldl_app. Qed.

Lemma breakerRun_inv evs (s : CircuitBreakerState * nat) :
  breakerInv s -> breakerInv (breakerRun evs s).
Proof.
  revert s. induction evs as [|ev evs IH]; intros s Hs; [done|].
  simpl. apply IH. by apply breakerStep_inv.
Qed.

Lemma freshBreaker_inv : breakerInv (freshBreaker, 0%nat).
Proof. unfold breakerInv, failureThreshold. simpl. lia. Qed.

(** While the breaker is open and its timer has not fired, it stays open
    and the timer stays pending. *)
Lemma open_until_timer evs (cb : CircuitBreakerState) (pending : nat) :
  noTimerFires evs ->
  cb_state cb = OPEN ->
  cb_state (breakerRun evs (cb, pending)).1 = OPEN
  /\ (breakerRun evs (cb, pending)).2 = pending.
Proof.
  intros Hevs. revert cb. induction Hevs as [|ev evs Hev _ IH]; intros cb Hcb.
  - done.
  - simpl. destruct ev as [|now|]; [| |done].
    + simpl. apply IH. rewrite breakerSuccess_state.
      case_decide as Hd; [destruct Hd; congruence|done].
    + simpl.
      pose proof (breakerFailure_state now cb) as Hs.
      pose proof (breakerFailure_timer now cb) as Ht.
      destruct (breakerFailure now cb) as [cb' timer]. simpl in *.
      case_decide as Hd; [destruct Hd; congruence|]. subst timer.
      apply IH. congruence.
Qed.

Lemma successes_cons ev evs :
  successes (ev :: evs)
  = (match ev with CallSucceeded => 1 | _ => 0 end) + successes evs.
Proof. unfold successes. destruct ev; simpl; lia. Qed.

Lemma successes_nonneg evs : 0 <= successes evs.
Proof. unfold successes. lia. Qed.

(** Without a recovery timer a breaker does not become half-open. *)
Lemma not_half_open_stays evs (cb : CircuitBreakerState) (pending : nat) :
  noTimerFires evs ->
  cb_state cb <> HALF_OPEN ->
  cb_state (breakerRun evs (cb, pending)).1 <> HALF_OPEN.
Proof.
  intros Hevs. revert cb pending.
  induction Hevs as [|ev evs Hev _ IH]; intros cb pending Hcb; [done|].
  simpl. destruct ev as [|now|]; [| |done]; simpl.
  - apply IH. rewrite breakerSuccess_state. case_decide; [done|done].
  - pose proof (breakerFailure_state now cb) as Hs.
    destruct (breakerFailure now cb) as [cb' [timer|]]; simpl in *;
      apply IH; rewrite Hs; case_decide; done.
Qed.

(** A half-open breaker counts successes up to three; failures in between
    change neither the state nor the tally. *)
Lemma half_open_tally evs (cb : CircuitBreakerState) (pending : nat) :
  noTimerFires evs ->
  cb_state cb = HALF_OPEN ->
  successCount cb < 3 ->
  let s := breakerRun evs (cb, pending) in
  if decide (successCount cb + successes evs < 3)
  then cb_state s.1 = HALF_OPEN
       /\ successCount s.1 = successCount cb + successes evs
       /\ failureCount s.1 >= failureCount cb
  else cb_state s.1 <> HALF_OPEN.
Proof.
  intros Hevs. revert cb pending.
  induction Hevs as [|ev evs Hev Hevs IH]; intros cb pending Hcb Hsc; simpl.
  - unfold successes. simpl. rewrite decide_True by lia.
    repeat split; [done|lia|lia].
  - rewrite successes_cons. pose proof (successes_nonneg evs) as Hn.
    destruct ev as [|now|]; [| |done]; simpl.
    + pose proof (breakerSuccess_state cb) as Hs.
      pose proof (breakerSuccess_successCount cb) as Hc.
      pose proof (breakerSuccess_failureCount cb) as Hf.
      destruct (decide (3 <= successCount cb + 1)) as [Hge|Hlt].
      * rewrite decide_True in Hs by done.
        rewrite decide_False by lia.
        apply not_half_open_stays; [done|]. by rewrite Hs.
      * rewrite decide_False in Hs by (intros [_ ?]; lia).
        rewrite decide_False in Hf by (intros [_ ?]; lia).
        specialize (IH (breakerSuccess cb) pending).
        rewrite Hc, Hf in IH. simpl in IH.
        assert (E : successCount cb + (1 + successes evs)
                    = successCount cb + 1 + successes evs) by lia.
        rewrite E. apply IH; [congruence|lia].
    + pose proof (breakerFailure_state now cb) as Hs.
      pose proof (breakerFailure_failureCount now cb) as Hf.
      rewrite decide_False in Hs by (intros [? _]; congruence).
      assert (Hsc' : successCount (breakerFailure now cb).1 = successCount cb).
      { unfold breakerFailure. destruct cb as [[] f t sc]; simpl in *;
          try done. }
      destruct (breakerFailure now cb) as [cb' [timer|]]; simpl in *.
      * specialize (IH cb' (S pending)). simpl in IH.
        rewrite Hsc', Hf in IH.
        specialize (IH ltac:(congruence) Hsc).
        destruct (decide _); [|done].
        destruct IH as (? & ? & ?). repeat split; [done|done|lia].
      * specialize (IH cb' pending). simpl in IH.
        rewrite Hsc', Hf in IH.
        specialize (IH ltac:(congruence) Hsc).
        destruct (decide _); [|done].
        destruct IH as (? & ? & ?). repeat split; [done|done|lia].
Qed.

(** Claim C4, as the code has it.  (1) A recorded success adds one to
    [successCount]; it closes the breaker and resets [failureCount] to 0
    only when the breaker is half-open and this success brings
    [successCount] to 3 or more; otherwise state and [failureCount] stay as
    they were.  (2) After its recovery timer has made a breaker half-open,
    the breaker stays half-open exactly as long as fewer than three
    successes have been recorded, whatever failures are recorded in
    between; (3) the third success closes it with [failureCount] 0. *)
Theorem success_bookkeeping :
  (forall cb,
     successCount (breakerSuccess cb) = successCount cb + 1
     /\ failureCount (breakerSuccess cb)
        = (if decide (cb_state cb = HALF_OPEN /\ 3 <= successCount cb + 1)
           then 0 else failureCount cb)
     /\ cb_state (breakerSuccess cb)
        = (if decide (cb_state cb = HALF_OPEN /\ 3 <= successCount cb + 1)
           then CLOSED else cb_state cb))
  /\ (forall cb pending evs,
        cb_state cb = OPEN ->
        noTimerFires evs ->
        let s := breakerRun evs (breakerRecovery cb, pending) in
        (cb_state s.1 = HALF_OPEN <-> successes evs < 3))
  /\ (forall cb pending evs,
        cb_state cb = OPEN ->
        noTimerFires evs ->
        successes evs = 2 ->
        let s := breakerRun (evs ++ [CallSucceeded])
                            (breakerRecovery cb, pending) in
        cb_state s.1 = CLOSED /\ failureCount s.1 = 0).
Proof.
  assert (Hrec : forall cb, cb_state cb = OPEN ->
            cb_state (breakerRecovery cb) = HALF_OPEN
            /\ successCount (breakerRecovery cb) = 0).
  { intros cb Hcb. unfold breakerRecovery. by rewrite decide_True. }
  split; [|split].
  - intros cb. split; [apply breakerSuccess_successCount|].
    split; [apply breakerSuccess_failureCount|apply breakerSuccess_state].
  - intros cb pending evs Hcb Hevs s.
    destruct (Hrec cb Hcb) as [Hh Hz].
    pose proof (half_open_tally evs (breakerRecovery cb) pending Hevs Hh
                  ltac:(lia)) as Ht.
    fold s in Ht. simpl in Ht. rewrite Hz in Ht.
    destruct (decide (0 + successes evs < 3)) as [Hlt|Hge].
    + split; [lia|]. intros _. apply Ht.
    + split; [done|lia].
  - intros cb pending evs Hcb Hevs H2 s.
    destruct (Hrec cb Hcb) as [Hh Hz].
    pose proof (half_open_tally evs (breakerRecovery cb) pending Hevs Hh
                  ltac:(lia)) as Ht.
    simpl in Ht. rewrite Hz, H2 in Ht. rewrite decide_True in Ht by lia.
    destruct Ht as (Hs & Hc & _).
    unfold s. rewrite breakerRun_snoc.
    destruct (breakerRun evs (breakerRecovery cb, pending)) as [cb' p'].
    simpl in *.
    rewrite breakerSuccess_state, breakerSuccess_failureCount.
    rewrite !decide_True by (split; [done|lia]). done.
Qed.

(** Claim C4 fails as stated.  After two failures a success leaves the
    failure count at 2; and a half-open breaker that sees a success, a
    failure and two successes is closed by the last of them, although a
    failure came between the successes. *)
Lemma success_does_not_reset_failures :
  (let s := breakerRun twoFailuresThenSuccess (freshBreaker, 0%nat) in
   cb_state s.1 = CLOSED /\ failureCount s.1 = 2)
  /\ (let s := breakerRun tripAndRecover (freshBreaker, 0%nat) in
      cb_state s.1 = HALF_OPEN
      /\ cb_state (breakerRun interruptedProbes s).1 = CLOSED).
Proof. vm_compute. repeat split; done. Qed.

(** The bookkeeping of successes at a concrete breaker: opened, recovered,
    then the probes of [interruptedProbes]. *)
Lemma success_bookkeeping_witness :
  let cb := {| cb_state := OPEN; failureCount := 5; lastFailureTime := 5;
               successCount := 0 |} in
  cb_state (breakerRun [CallSucceeded; CallFailed 6]
                       (breakerRecovery cb, 0%nat)).1 = HALF_OPEN
  /\ cb_state (breakerRun ([CallSucceeded; CallFailed 6; CallSucceeded]
                           ++ [CallSucceeded])
                          (breakerRecovery cb, 0%nat)).1 = CLOSED.
Proof.
  intros cb.
  destruct success_bookkeeping as (_ & H2 & H3).
  split.
  - apply (H2 cb 0%nat [CallSucceeded; CallFailed 6]);
      [reflexivity | repeat constructor; discriminate | vm_compute; reflexivity].
  - apply (H3 cb 0%nat [CallSucceeded; CallFailed 6; CallSucceeded]);
      [reflexivity | repeat constructor; discriminate | vm_compute; reflexivity].
Defined.

Section Gate.

Variable generateRequestId : string -> RequestConfig -> option string.
Variable extractEndpoint : string -> string.
Variable API_URL : string.

Local Abbreviation request_begin' :=
  (request_begin generateRequestId extractEndpoint API_URL).
Local Abbreviation endpointOf' := (endpointOf extractEndpoint API_URL).

(** The gate with the breaker open. *)
Lemma request_begin_open url config now (c : Client) cb :
  circuitBreakers c !! endpointOf' url = Some cb ->
  cb_state cb = OPEN ->
  request_begin' url config now c
  = (match generateRequestId url config with
     | None => RequestIdError
     | Some requestId =>
         if deduplicates generateRequestId url config c
         then Deduplicated requestId
         else CircuitBreakerError (endpointOf' url)
     end, c).
Proof.
  intros Hcb Hopen. unfold request_begin, deduplicates, endpointOf in *.
  destruct (generateRequestId url config) as [requestId|]; [|done].
  destruct (_ && _); [done|].
  unfold getCircuitBreaker. rewrite Hcb.
  by rewrite decide_True.
Qed.

(** The gate with the breaker not open, online, and no identical request
    in flight. *)
Lemma request_begin_passes url config now (c : Client) cb :
  circuitBreakers c !! endpointOf' url = Some cb ->
  cb_state cb <> OPEN ->
  isOnline c = true ->
  deduplicates generateRequestId url config c = false ->
  request_begin' url config now c
  = match generateRequestId url config with
    | None => (RequestIdError, c)
    | Some requestId =>
        (Started requestId (fullUrlOf API_URL url),
         setInFlight ({[requestId]} ∪ inFlightRequests c) c)
    end.
Proof.
  intros Hcb Hopen Hon Hdedup.
  unfold request_begin, deduplicates, endpointOf in *.
  destruct (generateRequestId url config) as [requestId|]; [|done].
  rewrite Hdedup. unfold getCircuitBreaker. rewrite Hcb.
  rewrite decide_False by done. by rewrite Hon.
Qed.

(** Claim C1, as the code has it.  (1) A request made while the breaker
    of its endpoint is open never reaches the underlying call and leaves the
    client unchanged.  When its id cannot be computed, the request fails
    with the error of [generateRequestId]; when an identical request is in
    flight and the request is not optimistic, the promise of that request
    is returned; in every other case the request throws the circuit-breaker
    error.  (2) A breaker that is not open becomes open exactly at a
    recorded failure that, in the closed state, brings [failureCount] to
    the threshold of 5; [failureCount] grows by one with every recorded
    failure, and a success recorded in the closed state does not reset
    it. *)
Theorem open_breaker_gate_and_opening :
  (forall url config now (c : Client) cb,
     circuitBreakers c !! endpointOf' url = Some cb ->
     cb_state cb = OPEN ->
     request_begin' url config now c
     = (match generateRequestId url config with
        | None => RequestIdError
        | Some requestId =>
            if deduplicates generateRequestId url config c
            then Deduplicated requestId
            else CircuitBreakerError (endpointOf' url)
        end, c)
     /\ invokesUnderlyingCall (request_begin' url config now c).1 = false)
  /\ (forall evs ev,
        let s := breakerRun evs (freshBreaker, 0%nat) in
        cb_state s.1 <> OPEN ->
        (cb_state (breakerStep ev s).1 = OPEN
         <-> exists now, ev = CallFailed now
                         /\ cb_state s.1 = CLOSED
                         /\ failureCount s.1 + 1 = failureThreshold))
  /\ (forall now cb,
        failureCount (breakerFailure now cb).1 = failureCount cb + 1)
  /\ (forall cb,
        cb_state cb = CLOSED ->
        failureCount (breakerSuccess cb) = failureCount cb).
Proof.
  split; [|split; [|split]]; cycle 3.
  { intros cb Hcb. rewrite breakerSuccess_failureCount.
    rewrite decide_False; [done|]. intros [Hh _]. congruence. }
  - intros url config now c cb Hcb Hopen.
    rewrite (request_begin_open url config now c cb Hcb Hopen).
    split; [done|]. simpl.
    destruct (generateRequestId url config); [|done].
    by destruct (deduplicates _ _ _ _).
  - intros evs ev s Hs.
    pose proof (breakerRun_inv evs _ freshBreaker_inv) as Hinv.
    fold s in Hinv. destruct s as [cb pending]. simpl in *.
    unfold breakerInv in Hinv. simpl in Hinv.
    destruct ev as [|now|]; simpl.
    + rewrite breakerSuccess_state. split.
      * case_decide; [discriminate|done].
      * intros (now & Hev & _). discriminate.
    + pose proof (breakerFailure_state now cb) as Hst.
      destruct (breakerFailure now cb) as [cb' [timer|]]; simpl in *;
        rewrite Hst; (split;
        [ intros Ho; exists now; case_decide as Hd; [|done];
          destruct Hd as [Hc Hd]; rewrite Hc in Hinv;
          unfold failureThreshold in *; repeat split; [done|lia]
        | intros (now' & _ & Hc & Hf); rewrite decide_True; [done|];
          split; [done|lia] ]).
    + split.
      * destruct pending; simpl; [done|]. unfold breakerRecovery.
        case_decide; [done|]. simpl. done.
      * intros (now & Hev & _). discriminate.
  - intros now cb. apply breakerFailure_failureCount.
Qed.

(** Claim C5, as the code has it.  (1) The failure that opens a breaker
    schedules its recovery timer with the cool-down delay; until that timer
    fires the breaker stays open whatever calls succeed or fail, and when it
    fires the breaker becomes half-open with [successCount] reset to 0.
    (2) While the breaker is half-open, every request made online whose id
    can be computed and that is not answered by an identical request in
    flight is passed to the underlying call, and the breaker is left as it
    is: the number of calls let through is not limited.  A request whose id
    cannot be computed fails with the error of [generateRequestId] and
    leaves the client as it is. *)
Theorem recovery_timer_and_half_open_gate :
  (forall now cb,
     cb_state cb = CLOSED ->
     failureThreshold <= failureCount cb + 1 ->
     (breakerFailure now cb).2 = Some recoveryTimeout
     /\ cb_state (breakerFailure now cb).1 = OPEN
     /\ forall evs pending,
          noTimerFires evs ->
          let s := breakerRun evs ((breakerFailure now cb).1, S pending) in
          cb_state s.1 = OPEN
          /\ cb_state (breakerStep RecoveryTimerFires s).1 = HALF_OPEN
          /\ successCount (breakerStep RecoveryTimerFires s).1 = 0)
  /\ (forall url config now (c : Client) cb,
        circuitBreakers c !! endpointOf' url = Some cb ->
        cb_state cb = HALF_OPEN ->
        isOnline c = true ->
        deduplicates generateRequestId url config c = false ->
        match generateRequestId url config with
        | Some requestId =>
            request_begin' url config now c
            = (Started requestId (fullUrlOf API_URL url),
               setInFlight ({[requestId]} ∪ inFlightRequests c) c)
            /\ invokesUnderlyingCall (request_begin' url config now c).1
               = true
        | None => request_begin' url config now c = (RequestIdError, c)
        end
        /\ circuitBreakers (request_begin' url config now c).2
           = circuitBreakers c).
Proof.
  split.
  - intros now cb Hc Hf.
    assert (Hopen : cb_state (breakerFailure now cb).1 = OPEN).
    { rewrite breakerFailure_state. by rewrite decide_True. }
    split; [|split; [done|]].
    { rewrite breakerFailure_timer. by rewrite decide_True. }
    intros evs pending Hevs s.
    destruct (open_until_timer evs _ (S pending) Hevs Hopen) as [Hs Hp].
    fold s in Hs, Hp. destruct s as [cb' pending']. simpl in *. subst pending'.
    split; [done|]. simpl. unfold breakerRecovery.
    rewrite decide_True by done. done.
  - intros url config now c cb Hcb Hh Hon Hd.
    rewrite (request_begin_passes url config now c cb Hcb); try done;
      [|by rewrite Hh].
    by destruct (generateRequestId url config).
Qed.

End Gate.

(** Claim C1 fails as stated.  With five failed requests to an endpoint
    and an earlier request for ["/api/agents/0"] still in flight, the
    breaker is open and a repeated request for ["/api/agents/0"] gets the
    promise in flight, not a circuit-breaker error; a request whose cache
    key [btoa] cannot encode fails with the error of [btoa], not with a
    circuit-breaker error; and a breaker that sees two failures, a success
    and three failures is open although the failures in a row never
    exceeded three. *)
Lemma open_breaker_claim_fails :
  (let c := (clientRun generateRequestId extractEndpoint API_URL
               (failingRequests "/api/agents/0"
                  ["/api/agents/1"; "/api/agents/2"; "/api/agents/3";
                   "/api/agents/4"; "/api/agents/5"])
               (newClient true, [])).1 in
   cb_state <$> circuitBreakers c !! "api/agents" = Some OPEN
   /\ generateRequestId "/api/agents/0" plainGet
      = Some "R0VUOi9hcGkvYWdlbnRzLzA6e30"
   /\ (request_begin generateRequestId extractEndpoint API_URL
                     "/api/agents/0" plainGet 3 c).1
      = Deduplicated "R0VUOi9hcGkvYWdlbnRzLzA6e30"
   /\ (request_begin generateRequestId extractEndpoint API_URL
                     "/api/agents/6" (withCacheKey "日本") 3 c).1
      = RequestIdError)
  /\ cb_state (breakerRun interruptedFailures (freshBreaker, 0%nat)).1 = OPEN
  /\ consecutiveFailures interruptedFailures = 3.
Proof. vm_compute. done. Qed.

(** The gate and the opening rule at a concrete client: the breaker of
    ["api/agents"] is open after five failures. *)
Lemma open_breaker_gate_and_opening_witness :
  let c := (clientRun generateRequestId extractEndpoint API_URL
              (failingRequests "/api/agents/0"
                 ["/api/agents/1"; "/api/agents/2"; "/api/agents/3";
                  "/api/agents/4"; "/api/agents/5"])
              (newClient true, [])).1 in
  (request_begin generateRequestId extractEndpoint API_URL
                 "/api/agents/6" plainGet 3 c).1
  = CircuitBreakerError "api/agents".
Proof.
  intros c.
  pose proof (proj1 (open_breaker_gate_and_opening
                       generateRequestId extractEndpoint API_URL)
                "/api/agents/6" plainGet 3 c
                {| cb_state := OPEN; failureCount := 5;
                   lastFailureTime := 2; successCount := 0 |}
                ltac:(vm_compute; reflexivity) ltac:(reflexivity)) as [H _].
  rewrite H. vm_compute. reflexivity.
Defined.

(** Claim C5 fails as stated.  With the breaker of ["api/agents"]
    half-open after its recovery timer, a first request is passed to the
    underlying call and, while it is still in flight, so is a second one. *)
Lemma half_open_admits_second_call :
  let begin := request_begin generateRequestId extractEndpoint API_URL in
  let first := begin "/api/agents/1" plainGet 10 recoveringClient in
  let second := begin "/api/agents/2" plainGet 11 first.2 in
  cb_state <$> circuitBreakers recoveringClient !! "api/agents"
  = Some HALF_OPEN
  /\ endpointOf extractEndpoint API_URL "/api/agents/1" = "api/agents"
  /\ endpointOf extractEndpoint API_URL "/api/agents/2" = "api/agents"
  /\ first.1 = Started "R0VUOi9hcGkvYWdlbnRzLzE6e30"
                       "https://api.example.com/api/agents/1"
  /\ invokesUnderlyingCall first.1 = true
  /\ "R0VUOi9hcGkvYWdlbnRzLzE6e30" ∈ inFlightRequests first.2
  /\ invokesUnderlyingCall second.1 = true.
Proof.
  vm_compute. repeat split; done.
Qed.

(** The recovery rule and the half-open gate at concrete inputs: a closed
    breaker with four failures, and the recovering client. *)
Lemma recovery_timer_and_half_open_gate_witness :
  (let cb := {| cb_state := CLOSED; failureCount := 4; lastFailureTime := 0;
                successCount := 0 |} in
   cb_state (breakerStep RecoveryTimerFires
               (breakerRun [CallSucceeded; CallFailed 7]
                           ((breakerFailure 5 cb).1, 1%nat))).1 = HALF_OPEN)
  /\ invokesUnderlyingCall
       (request_begin generateRequestId extractEndpoint API_URL
                      "/api/agents/1" plainGet 10 recoveringClient).1 = true.
Proof.
  pose proof (recovery_timer_and_half_open_gate
                generateRequestId extractEndpoint API_URL) as [H1 H2].
  split.
  - refine (proj1 (proj2 (proj2 (proj2 (H1 5 _ _ _)) _ 0%nat _)));
      [reflexivity | vm_compute; discriminate |].
    repeat constructor; discriminate.
  - pose proof (H2 "/api/agents/1" plainGet 10 recoveringClient
                   (breakerRun tripAndRecover (freshBreaker, 0%nat)).1
                   ltac:(vm_compute; reflexivity)
                   ltac:(vm_compute; reflexivity)
                   ltac:(vm_compute; reflexivity)
                   ltac:(vm_compute; reflexivity)) as [H _].
    change (generateRequestId "/api/agents/1" plainGet)
      with (Some "R0VUOi9hcGkvYWdlbnRzLzE6e30") in H.
    exact (proj2 H).
Defined.

End BreakerFacts.

(** ** The retry loop *)

Module RetryFacts.
Import ApiClient.

Lemma calculateRetryDelay_bounded attempt (config : RetryConfig) (r : Q) :
  delayBounded config (calculateRetryDelay attempt config r).
Proof.
  unfold delayBounded, calculateRetryDelay. split.
  - apply Q.le_max_r.
  - apply Q.max_le_compat_r. apply Q.le_min_r.
Qed.

Lemma delayBounded_maxDelay (config : RetryConfig) (d : Q) :
  (0 <= maxDelay config)%Q -> delayBounded config d ->
  (d <= maxDelay config)%Q.
Proof.
  intros Hm [_ Hd]. rewrite Q.max_l in Hd; done.
Qed.

(** The comparisons of the loop counter with a finite [maxAttempts]. *)
Lemma int_leb_Num (attempt : Z) (q : Q) :
  int_leb attempt (Num q) = true <-> attempt <= Qfloor q.
Proof.
  simpl. rewrite Qle_bool_iff. split.
  - intros H. apply Qfloor_resp_le in H. by rewrite Qfloor_Z in H.
  - intros H. eapply Qle_trans; [|apply Qfloor_le].
    by rewrite <- Zle_Qle.
Qed.

Lemma int_ltb_Num (attempt : Z) (q : Q) :
  int_ltb attempt (Num q) = true <-> (inject_Z attempt < q)%Q.
Proof.
  simpl. rewrite negb_true_iff, <- not_true_iff_false, Qle_bool_iff.
  split; [apply Qnot_le_lt|apply Qlt_not_le].
Qed.

Lemma int_ltb_below (attempt : Z) (q : Q) :
  int_ltb attempt (Num q) = true -> (q <= 2 ^ 53)%Q -> attempt < 2 ^ 53.
Proof.
  rewrite int_ltb_Num. intros Hlt Hq.
  assert (H : (inject_Z attempt < inject_Z (2 ^ 53))%Q).
  { eapply Qlt_le_trans; [exact Hlt|]. exact Hq. }
  by rewrite <- Zlt_Qlt in H.
Qed.

Section Loop.

Variable performRequest : Z -> Result.
Variable random : Z -> Q.

Local Abbreviation retryLoop' := (retryLoop performRequest random).
Local Abbreviation delayAfter' := (delayAfter random).
Local Abbreviation endsAfter' := (endsAfter performRequest).

Lemma retryLoop_mono fuel rc attempt lastError attempts delays ex :
  retryLoop' fuel rc attempt lastError attempts delays = Some ex ->
  forall fuel', (fuel <= fuel')%nat ->
  retryLoop' fuel' rc attempt lastError attempts delays = Some ex.
Proof.
  revert attempt lastError attempts delays.
  induction fuel as [|fuel IH]; intros attempt lastError attempts delays;
    [discriminate|].
  intros Hex [|fuel'] Hle; [lia|]. simpl in *.
  destruct (int_leb attempt (maxAttempts rc)); [|done].
  destruct (performRequest _) as [v|e]; [done|].
  destruct (int_ltb attempt (maxAttempts rc)); [|done].
  destruct (retryCondition rc) as [condition|]; [|done].
  destruct (condition e attempt) as [[|]|thrown]; [|done|done].
  apply IH; [done|lia].
Qed.

(** What the loop does from [attempt] on, given a finite [maxAttempts] and
    enough fuel: it makes [k] further calls, numbered consecutively,
    sleeps after each but the last (and after the last as well, if a
    fractional [maxAttempts] lets the retry condition pass there), and ends
    as the last of them tells; with no call left it throws [lastError] or
    the fallback error. *)
Lemma retryLoop_spec fuel rc q attempt lastError attempts delays :
  maxAttempts rc = Num q ->
  (q <= 2 ^ 53)%Q ->
  attempt = Z.of_nat (length attempts) + 1 ->
  (Z.to_nat (Qfloor q - attempt + 1) < fuel)%nat ->
  exists ex k d,
    retryLoop' fuel rc attempt lastError attempts delays = Some ex
    /\ 0 <= k <= Z.max 0 (Qfloor q - attempt + 1)
    /\ ex_attempts ex = attempts ++ seqZ attempt k
    /\ Z.max 0 (k - 1) <= d <= k
    /\ ex_delays ex = delays ++ (delayAfter' rc <$> seqZ attempt d)
    /\ (k = 0 -> Qfloor q < attempt
                 /\ ex_outcome ex = Thrown (default exhaustedError lastError))
    /\ (0 < k -> endsAfter' rc (attempt + k - 1) (ex_outcome ex)).
Proof.
  intros Hmax Hq. revert attempt lastError attempts delays.
  induction fuel as [|fuel IH];
    intros attempt lastError attempts delays Hcall Hf; [lia|].
  cbn [retryLoop]. rewrite <- Hcall. rewrite Hmax.
  destruct (int_leb attempt (Num q)) eqn:Hle.
  - apply int_leb_Num in Hle.
    assert (Hone : forall outcome,
              endsAfter' rc attempt outcome ->
              exists ex k d,
                Some {| ex_attempts := attempts ++ [attempt];
                        ex_delays := delays; ex_outcome := outcome |}
                = Some ex
                /\ 0 <= k <= Z.max 0 (Qfloor q - attempt + 1)
                /\ ex_attempts ex = attempts ++ seqZ attempt k
                /\ Z.max 0 (k - 1) <= d <= k
                /\ ex_delays ex
                   = delays ++ (delayAfter' rc <$> seqZ attempt d)
                /\ (k = 0 -> Qfloor q < attempt
                             /\ ex_outcome ex
                                = Thrown (default exhaustedError lastError))
                /\ (0 < k -> endsAfter' rc (attempt + k - 1) (ex_outcome ex))).
    { intros outcome Ho. eexists _, 1, 0. split; [done|]. simpl.
      rewrite app_nil_r. split; [lia|]. split; [done|]. split; [lia|].
      split; [done|]. split; [lia|].
      intros _. by replace (attempt + 1 - 1) with attempt by lia. }
    destruct (performRequest attempt) as [v|e] eqn:Hp.
    { apply Hone. split.
      - intros _. unfold settle. by rewrite Hp.
      - intros thrown (_ & error & Hp' & _). congruence. }
    destruct (int_ltb attempt (Num q)) eqn:Hlt.
    2:{ apply Hone. split.
        - intros _. unfold settle. by rewrite Hp.
        - intros thrown (Hlt' & _). congruence. }
    destruct (retryCondition rc) as [condition|] eqn:Hc.
    2:{ apply Hone. split.
        - intros Ha. destruct (Ha e Hp) as (? & ? & ? & _);
            [by rewrite Hmax|congruence].
        - intros thrown (_ & error & _ & Ht). by rewrite Hc in Ht; subst. }
    destruct (condition e attempt) as [[|]|thrown] eqn:Hv.
    + pose proof (int_ltb_below attempt q Hlt Hq) as Hbelow.
      unfold increment. destruct (Z.ltb_spec attempt (2 ^ 53)); [|lia].
      destruct (IH (attempt + 1) (Some e) (attempts ++ [attempt])
                   (delays ++ [calculateRetryDelay attempt rc
                                                   (random attempt)]))
        as (ex & k & d & Hex & Hk & Ha & Hd & Hdel & H0 & H1).
      { rewrite length_app. simpl. lia. }
      { lia. }
      exists ex, (k + 1), (d + 1).
      split; [done|]. split; [lia|]. split.
      { rewrite Ha, <- app_assoc. f_equal.
        rewrite (seqZ_cons attempt (k + 1)) by lia. simpl.
        f_equal. f_equal; lia. }
      split; [lia|]. split.
      { rewrite Hdel, <- app_assoc. f_equal.
        rewrite (seqZ_cons attempt (d + 1)) by lia. simpl.
        f_equal. f_equal. f_equal; lia. }
      split; [lia|]. intros _.
      destruct (decide (k = 0)) as [->|Hk0].
      * destruct (H0 eq_refl) as [_ Ho]. rewrite Ho. simpl.
        replace (attempt + (0 + 1) - 1) with attempt by lia. split.
        -- intros _. unfold settle. by rewrite Hp.
        -- intros thrown (_ & error & Hp' & Ht).
           rewrite Hc in Ht.
           assert (error = e) as -> by congruence. congruence.
      * replace (attempt + (k + 1) - 1) with (attempt + 1 + k - 1) by lia.
        apply H1. lia.
    + apply Hone. split.
      * intros _. unfold settle. by rewrite Hp.
      * intros thrown (_ & error & Hp' & Ht).
        rewrite Hc in Ht.
        assert (error = e) as -> by congruence. congruence.
    + apply Hone. split.
      * intros Ha. destruct (Ha e Hp) as (condition' & retry & Hc' & Hv');
          [by rewrite Hmax|]. congruence.
      * intros thrown' (_ & error & Hp' & Ht).
        rewrite Hc in Ht.
        assert (error = e) as -> by congruence. congruence.
  - assert (Hgt : Qfloor q < attempt).
    { destruct (Z.lt_ge_cases (Qfloor q) attempt) as [|Hge]; [done|].
      apply int_leb_Num in Hge. congruence. }
    eexists _, 0, 0. split; [done|]. simpl. rewrite !app_nil_r.
    repeat split; try lia; try done.
Qed.

(** With [maxAttempts] beyond every value the counter takes, and retries
    always asked for, the loop goes on. *)
Lemma retryLoop_diverges fuel rc attempt lastError attempts delays :
  int_ltb (2 ^ 53) (maxAttempts rc) = true ->
  alwaysRetried performRequest rc ->
  attempt <= 2 ^ 53 ->
  retryLoop' fuel rc attempt lastError attempts delays = None.
Proof.
  intros Hmax Hall. revert attempt lastError attempts delays.
  assert (Hcmp : forall attempt, attempt <= 2 ^ 53 ->
            int_leb attempt (maxAttempts rc) = true
            /\ int_ltb attempt (maxAttempts rc) = true).
  { intros attempt Ha. destruct (maxAttempts rc) as [q| | |];
      try done. apply int_ltb_Num in Hmax.
    assert (H : (inject_Z attempt <= inject_Z (2 ^ 53))%Q)
      by (by rewrite <- Zle_Qle).
    split.
    - simpl. apply Qle_bool_iff. apply Qlt_le_weak.
      eapply Qle_lt_trans; [exact H|exact Hmax].
    - apply int_ltb_Num. eapply Qle_lt_trans; [exact H|exact Hmax]. }
  induction fuel as [|fuel IH]; intros attempt lastError attempts delays Ha;
    [done|].
  cbn [retryLoop]. destruct (Hcmp attempt Ha) as [-> ->].
  destruct (Hall (Z.of_nat (length attempts) + 1) attempt)
    as (error & condition & -> & -> & ->).
  apply IH. unfold increment. destruct (Z.ltb_spec attempt (2 ^ 53)); lia.
Qed.

(** Claim C6, as the code has it, for a request whose retry configuration
    holds finite numbers in its delay fields and whose calls of
    [performRequest] all settle.

    (1) With a finite [maxAttempts] of at most [2 ^ 53] the retry loop
    terminates; it makes the calls 1, ..., n with n at most [maxAttempts]
    (no call at all exactly when [maxAttempts] is below 1).  With no call
    it throws the fixed fallback error.  After at least one call it returns
    the result of the last call or throws the error of the last call,
    provided the retry condition is a function and returns where the loop
    consults it about that call; if the condition is not a function or
    throws there, that error is thrown instead.  It sleeps the delays that
    [calculateRetryDelay] computes for the calls 1, ..., d, where d is n - 1
    or n.
    (2) With [maxAttempts] [NaN] or [-Infinity] the loop makes no call and
    throws the fallback error.
    (3) With [maxAttempts] above [2 ^ 53], [Infinity] included, and every
    call failing with an error that the retry condition accepts, the loop
    never terminates.
    (4) Every delay computed by [calculateRetryDelay], for a
    [Math.random()] value in the unit interval and magnitudes for which the
    arithmetic stays finite, is non-negative and at most the larger of
    [maxDelay] and 0, hence at most [maxDelay] whenever [maxDelay] is not
    negative. *)
Theorem retry_loop_bounded (config : RequestConfig) :
  let rc := mergeRetryConfig (cfg_retryConfig config) in
  (forall q,
     maxAttempts rc = Num q ->
     (q <= 2 ^ 53)%Q ->
     exists ex n d,
       (forall fuel, (Z.to_nat (Qfloor q) < fuel)%nat ->
          executeRequest performRequest random fuel config = Some ex)
       /\ ex_attempts ex = seqZ 1 n
       /\ 0 <= n <= Z.max 0 (Qfloor q)
       /\ (n = 0 <-> (q < 1)%Q)
       /\ (n = 0 -> ex_outcome ex = Thrown exhaustedError)
       /\ (0 < n ->
           (conditionAnswers performRequest rc n ->
            ex_outcome ex = settle performRequest n)
           /\ (forall thrown,
                 conditionFails performRequest rc n thrown ->
                 ex_outcome ex = Thrown thrown))
       /\ Z.max 0 (n - 1) <= d <= n
       /\ ex_delays ex = delayAfter' rc <$> seqZ 1 d)
  /\ (maxAttempts rc = NaN \/ maxAttempts rc = NegInfinity ->
      forall fuel, (0 < fuel)%nat ->
        executeRequest performRequest random fuel config
        = Some {| ex_attempts := []; ex_delays := [];
                  ex_outcome := Thrown exhaustedError |})
  /\ (int_ltb (2 ^ 53) (maxAttempts rc) = true ->
      alwaysRetried performRequest rc ->
      forall fuel, executeRequest performRequest random fuel config = None)
  /\ (forall attempt r,
        delayArithmeticFinite rc attempt ->
        (0 <= r <= 1)%Q ->
        delayBounded rc (calculateRetryDelay attempt rc r)
        /\ ((0 <= maxDelay rc)%Q ->
            (calculateRetryDelay attempt rc r <= maxDelay rc)%Q)).
Proof.
  intros rc. split; [|split; [|split]].
  - intros q Hmax Hq.
    destruct (retryLoop_spec (S (Z.to_nat (Qfloor q))) rc q 1 None [] []
                Hmax Hq eq_refl)
      as (ex & k & d & Hex & Hk & Ha & Hd & Hdel & H0 & H1); [lia|].
    exists ex, k, d. split.
    { intros fuel Hf. unfold executeRequest. fold rc.
      eapply retryLoop_mono; [exact Hex|lia]. }
    split; [done|]. split; [lia|]. split.
    { split.
      - intros Hz. destruct (H0 Hz) as [Hlt _].
        assert (H : (q < inject_Z (Qfloor q + 1))%Q) by apply Qlt_floor.
        eapply Qlt_le_trans; [exact H|]. change 1%Q with (inject_Z 1).
        rewrite <- Zle_Qle. lia.
      - intros Hlt. destruct (decide (k = 0)) as [|Hne]; [done|].
        assert (Hf : 1 <= Qfloor q) by lia.
        apply int_leb_Num in Hf. simpl in Hf. apply Qle_bool_iff in Hf.
        exfalso. by apply (Qlt_not_le _ _ Hlt). }
    split; [intros Hz; by destruct (H0 Hz)|]. split.
    { intros Hn. specialize (H1 Hn).
      by replace (1 + k - 1) with k in H1 by lia. }
    done.
  - intros Hmax fuel Hf. unfold executeRequest. fold rc.
    destruct fuel as [|fuel]; [lia|]. cbn [retryLoop].
    by destruct Hmax as [-> | ->].
  - intros Hmax Hall fuel. unfold executeRequest. fold rc.
    by apply retryLoop_diverges.
  - intros attempt r _ _. split.
    + apply calculateRetryDelay_bounded.
    + intros Hm. apply delayBounded_maxDelay; [done|].
      apply calculateRetryDelay_bounded.
Qed.

End Loop.

(** Claim C6 fails as stated.  With a configured [maxDelay] of -1 the
    delay after the first attempt is 0, which exceeds [maxDelay]; with
    [maxAttempts] 0 the loop makes no attempt, so the error it throws is the
    error of no attempt; with a retry condition that is [undefined] the
    loop throws a type error after the first failure, not the error of that
    attempt; and with [maxAttempts] [Infinity] and every attempt timing out
    the loop does not terminate. *)
Lemma retry_bounds_claim_fails :
  (let rc := mergeRetryConfig (Some negativeMaxDelay) in
   (calculateRetryDelay 1 rc (1 # 2) == 0)%Q
   /\ ~ (calculateRetryDelay 1 rc (1 # 2) <= maxDelay rc)%Q)
  /\ executeRequest (fun _ => Err timeoutError) (fun _ => 1 # 2) 1
                    (withRetry zeroAttempts)
     = Some {| ex_attempts := []; ex_delays := [];
               ex_outcome := Thrown exhaustedError |}
  /\ executeRequest (fun _ => Err timeoutError) (fun _ => 1 # 2) 1
                    (withRetry undefinedCondition)
     = Some {| ex_attempts := [1]; ex_delays := [];
               ex_outcome := Thrown notAFunction |}
  /\ (forall fuel,
        executeRequest (fun _ => Err timeoutError) (fun _ => 1 # 2) fuel
                       (withRetry unboundedAttempts) = None).
Proof.
  split; [split|split; [|split]].
  - vm_compute. reflexivity.
  - vm_compute. intros H. apply H. reflexivity.
  - vm_compute. reflexivity.
  - vm_compute. reflexivity.
  - intros fuel. unfold executeRequest.
    apply retryLoop_diverges; [done| |done].
    intros call attempt. by eexists _, _.
Qed.

(** The retry loop at concrete inputs: the default configuration, every
    attempt timing out. *)
Lemma retry_loop_bounded_witness :
  executeRequest (fun _ => Err timeoutError) (fun _ => 1 # 2) 4 plainGet
  = Some {| ex_attempts := [1; 2; 3];
            ex_delays := [calculateRetryDelay 1 DEFAULT_RETRY_CONFIG (1 # 2);
                          calculateRetryDelay 2 DEFAULT_RETRY_CONFIG (1 # 2)];
            ex_outcome := Thrown timeoutError |}
  /\ (calculateRetryDelay 5 DEFAULT_RETRY_CONFIG (1 # 2) <= 30000)%Q.
Proof.
  pose proof (retry_loop_bounded (fun _ => Err timeoutError)
                (fun _ => 1 # 2) plainGet) as (Hex & _ & _ & Hd).
  split.
  - destruct (Hex 3%Q eq_refl ltac:(vm_compute; discriminate))
      as (ex & n & d & Hfuel & _).
    rewrite (Hfuel 4%nat ltac:(vm_compute; lia)).
    specialize (Hfuel 4%nat ltac:(vm_compute; lia)).
    vm_compute in Hfuel. injection Hfuel as <-. reflexivity.
  - apply (Hd 5 (1 # 2)).
    + vm_compute. repeat split; discriminate.
    + split; vm_compute; discriminate.
    + vm_compute. discriminate.
Defined.

End RetryFacts.

(** ** The abort timer *)

Module TimeoutFacts.
Import ApiClient ApiClientMore RequestTimeout.

(** An operation that has the abort signal settles between its beginning
    and the abort, if the abort comes later than its beginning; it
    succeeds only before the abort, and from the abort on it is
    rejected. *)
Lemma abortable_spec {A} (op : Awaited A) (begun abortAt : Z) :
  0 <= default 0 (duration op) ->
  let r := abortable op begun abortAt in
  begun <= r.1 <= Z.max begun abortAt
  /\ (abortAt <= r.1 -> r.2 = inr (false, abortError)).
Proof.
  intros Hd. unfold abortable.
  destruct (Z.leb_spec abortAt begun) as [Hle|Hlt]; simpl;
    [split; [lia|done]|].
  destruct op as [after value|after isTypeError error|]; simpl in *;
    try (destruct (Z.ltb_spec (begun + after) abortAt); simpl);
    (split; [lia|]); first [done | intros; lia].
Qed.

(** The [catch] block with the abort signal set throws the timeout
    error. *)
Lemma performRequest_aborted (block : TryBlock) :
  (forall value, block <> BodyParsed value) ->
  ApiClientMore.performRequest block true = Err timeoutError.
Proof. destruct block; [intros H; by destruct (H value)|done|done]. Qed.




End TimeoutFacts.

(** ** The stream reader *)

Module StreamFacts.
Import AgentStream.

(** *** Strings *)

Lemma append_cons (a : ascii) (s t : string) :
  String.append (String a s) t = String a (String.append s t).
Proof. reflexivity. Qed.

Lemma append_nil_r (s : string) : String.append s "" = s.
Proof.
  induction s as [|a s IH]; [done|]. by rewrite append_cons, IH.
Qed.

Lemma append_assoc (s1 s2 s3 : string) :
  String.append (String.append s1 s2) s3
  = String.append s1 (String.append s2 s3).
Proof.
  induction s1 as [|a s1 IH]; [done|]. by rewrite !append_cons, IH.
Qed.

(** *** The error history *)

Lemma sliceLast_length {A} (n : nat) (l : list A) :
  length (sliceLast n l) = Nat.min n (length l).
Proof. unfold sliceLast. rewrite length_drop. lia. Qed.

Lemma addError_errorHistory errorMessage now (h : Hook) :
  isMountedRef h = true ->
  errorHistory (streamState (addError errorMessage now h))
  = sliceLast 9 (errorHistory (streamState h))
    ++ [mkErrorEvent errorMessage now].
Proof.
  intros Hm. unfold addError. rewrite Hm. simpl.
  repeat case_decide; done.
Qed.

(** Claim C9.  After an error is recorded (the hook being mounted), the
    error history has at most 10 entries, its last entry is the new error,
    and before it stand the last 9 entries of the previous history, or all
    of them if there were fewer, in their previous order. *)
Theorem error_history_bounded errorMessage now (h : Hook) :
  isMountedRef h = true ->
  let old := errorHistory (streamState h) in
  let new := errorHistory (streamState (addError errorMessage now h)) in
  (length new <= 10)%nat
  /\ last new = Some (mkErrorEvent errorMessage now)
  /\ exists dropped kept,
       old = dropped ++ kept
       /\ new = kept ++ [mkErrorEvent errorMessage now]
       /\ length kept = Nat.min 9 (length old).
Proof.
  intros Hm old new. unfold new. rewrite addError_errorHistory by done.
  fold old. split; [|split].
  - rewrite length_app, sliceLast_length. cbn [length]. lia.
  - by rewrite last_snoc.
  - exists (take (length old - 9) old), (sliceLast 9 old).
    split; [unfold sliceLast; by rewrite take_drop|].
    split; [done|apply sliceLast_length].
Qed.

(** The bound at a concrete hook: twelve errors recorded in a row. *)
Lemma error_history_bounded_witness :
  let h := foldl (fun h n => addError "network down" n h) (initialHook 0)
                 (seqZ 1 11) in
  length (errorHistory (streamState h)) = 10%nat
  /\ (length (errorHistory (streamState (addError "timeout" 12 h)))
      <= 10)%nat.
Proof.
  intros h. split; [vm_compute; reflexivity|].
  apply (error_history_bounded "timeout" 12 h). vm_compute. reflexivity.
Defined.

(** *** The ordered text *)

#[local] Instance bySequence_trans : Transitive bySequence.
Proof. unfold bySequence. intros a b c. lia. Qed.

Lemma insertBySequence_perm (x : Chunk) (l : list Chunk) :
  insertBySequence x l ≡ₚ x :: l.
Proof.
  induction l as [|y l IH]; simpl; [done|].
  destruct (seqKey x <? seqKey y); [done|].
  rewrite IH. apply Permutation_swap.
Qed.

Lemma insertBySequence_sorted (x : Chunk) (l : list Chunk) :
  StronglySorted bySequence l ->
  StronglySorted bySequence (insertBySequence x l).
Proof.
  induction 1 as [|y l Hl IH Hy]; simpl.
  - repeat constructor.
  - destruct (Z.ltb_spec (seqKey x) (seqKey y)) as [Hlt|Hge].
    + constructor; [by constructor|].
      constructor; [unfold bySequence; lia|].
      eapply Forall_impl; [exact Hy|]. unfold bySequence. intros; lia.
    + constructor; [done|].
      rewrite insertBySequence_perm. by constructor.
Qed.

Lemma sortBySequence_foldl (acc l : list Chunk) :
  foldl (fun acc x => insertBySequence x acc) acc l ≡ₚ acc ++ l
  /\ (StronglySorted bySequence acc ->
      StronglySorted bySequence
        (foldl (fun acc x => insertBySequence x acc) acc l)).
Proof.
  revert acc. induction l as [|x l IH]; intros acc; simpl.
  - by rewrite app_nil_r.
  - destruct (IH (insertBySequence x acc)) as [Hp Hs]. split.
    + rewrite Hp, insertBySequence_perm. simpl.
      first [apply Permutation_middle | symmetry; apply Permutation_middle].
    + intros Hacc. by apply Hs, insertBySequence_sorted.
Qed.

Lemma sortBySequence_perm (l : list Chunk) : sortBySequence l ≡ₚ l.
Proof. apply (sortBySequence_foldl [] l). Qed.

Lemma sortBySequence_sorted (l : list Chunk) :
  StronglySorted bySequence (sortBySequence l).
Proof. apply (sortBySequence_foldl [] l). constructor. Qed.

(** Where the sequence number determines the chunk there is one sorted
    arrangement, and the sort finds it. *)
Lemma sortBySequence_unique (l sorted : list Chunk) :
  (forall a b, a ∈ l -> b ∈ l -> seqKey a = seqKey b -> a = b) ->
  sorted ≡ₚ l ->
  StronglySorted bySequence sorted ->
  sortBySequence l = sorted.
Proof.
  intros Hkey Hp Hs.
  apply (StronglySorted_unique_strong bySequence);
    [|apply sortBySequence_sorted|done|by rewrite sortBySequence_perm].
  intros a b Ha Hb Hab Hba.
  apply Hkey; [by rewrite <- (sortBySequence_perm l)|by rewrite <- Hp|].
  unfold bySequence in *. lia.
Qed.

Lemma sortBySequence_snoc (l : list Chunk) (x : Chunk) :
  sortBySequence (l ++ [x]) = insertBySequence x (sortBySequence l).
Proof. unfold sortBySequence. by rewrite foldl_app. Qed.

(** A chunk that is inserted goes behind everything if nothing has a
    greater key. *)
Lemma insertBySequence_last (x : Chunk) (l : list Chunk) :
  Forall (fun y => bySequence y x) l -> insertBySequence x l = l ++ [x].
Proof.
  induction 1 as [|y l Hy Hl IH]; [done|]. simpl.
  unfold bySequence in Hy.
  destruct (Z.ltb_spec (seqKey x) (seqKey y)); [lia|]. by rewrite IH.
Qed.

(** The sort leaves a sorted array as it is. *)
Lemma sortBySequence_sorted_id (l : list Chunk) :
  StronglySorted bySequence l -> sortBySequence l = l.
Proof.
  induction l as [|x l IH] using rev_ind; [done|]. intros Hs.
  apply StronglySorted_app in Hs as (Hlx & Hl & _).
  rewrite sortBySequence_snoc, IH by done.
  apply insertBySequence_last. apply Forall_forall. intros y Hy.
  apply Hlx; [done|]. apply list_elem_of_here.
Qed.

(** Sorting part of the array first changes nothing: the sort is stable
    and works by insertion from the left. *)
Lemma sortBySequence_app (l l' : list Chunk) :
  sortBySequence (sortBySequence l ++ l') = sortBySequence (l ++ l').
Proof.
  induction l' as [|x l' IH] using rev_ind.
  - rewrite !app_nil_r. apply sortBySequence_sorted_id,
      sortBySequence_sorted.
  - by rewrite !app_assoc, !sortBySequence_snoc, IH.
Qed.

(** The sort keeps the chunks of one key in the order they had. *)
Lemma withKey_app (k : Z) (l l' : list Chunk) :
  withKey k (l ++ l') = withKey k l ++ withKey k l'.
Proof. apply List.filter_app. Qed.

Lemma withKey_above (k : Z) (l : list Chunk) :
  Forall (fun y => k < seqKey y) l -> withKey k l = [].
Proof.
  induction 1 as [|y l Hy Hl IH]; [done|].
  unfold withKey in *. simpl. rewrite bool_decide_eq_false_2 by lia. done.
Qed.

Lemma insertBySequence_withKey (k : Z) (x : Chunk) (l : list Chunk) :
  StronglySorted bySequence l ->
  withKey k (insertBySequence x l) = withKey k (l ++ [x]).
Proof.
  induction 1 as [|y l Hl IH Hy]; [done|]. cbn [insertBySequence].
  destruct (Z.ltb_spec (seqKey x) (seqKey y)) as [Hlt|Hge].
  - rewrite withKey_app.
    change (x :: y :: l) with ([x] ++ (y :: l)). rewrite withKey_app.
    destruct (decide (seqKey x = k)) as [<-|Hne].
    + rewrite (withKey_above (seqKey x) (y :: l)); [by rewrite app_nil_r|].
      constructor; [done|].
      eapply Forall_impl; [exact Hy|]. unfold bySequence. intros; lia.
    + assert (E : withKey k [x] = []).
      { unfold withKey. simpl. by rewrite bool_decide_eq_false_2. }
      by rewrite E, app_nil_r.
  - change (y :: insertBySequence x l) with ([y] ++ insertBySequence x l).
    change ((y :: l) ++ [x]) with ([y] ++ (l ++ [x])).
    by rewrite !(withKey_app k [y]), IH.
Qed.

Lemma sortBySequence_withKey (k : Z) (l : list Chunk) :
  withKey k (sortBySequence l) = withKey k l.
Proof.
  induction l as [|x l IH] using rev_ind; [done|].
  rewrite sortBySequence_snoc, insertBySequence_withKey
    by apply sortBySequence_sorted.
  by rewrite !withKey_app, IH.
Qed.

(** A sorted arrangement that keeps the chunks of every key in their
    order is the one the sort produces. *)
Lemma sorted_stable_unique (l1 l2 : list Chunk) :
  StronglySorted bySequence l1 ->
  StronglySorted bySequence l2 ->
  (forall k, withKey k l1 = withKey k l2) ->
  l1 = l2.
Proof.
  intros H1. revert l2.
  induction H1 as [|x l1 Hl1 IH Hx]; intros l2 H2 Hk.
  - destruct l2 as [|y l2]; [done|].
    specialize (Hk (seqKey y)). unfold withKey in Hk. simpl in Hk.
    by rewrite bool_decide_eq_true_2 in Hk.
  - destruct H2 as [|y l2 Hl2 Hy].
    { specialize (Hk (seqKey x)). unfold withKey in Hk. simpl in Hk.
      by rewrite bool_decide_eq_true_2 in Hk. }
    assert (Hxy : seqKey x = seqKey y).
    { destruct (Z.lt_total (seqKey x) (seqKey y)) as [Hlt|[Heq|Hgt]];
        [|done|].
      - specialize (Hk (seqKey x)).
        rewrite (withKey_above (seqKey x) (y :: l2)) in Hk.
        + unfold withKey in Hk. simpl in Hk.
          by rewrite bool_decide_eq_true_2 in Hk.
        + constructor; [done|].
          eapply Forall_impl; [exact Hy|]. unfold bySequence. intros; lia.
      - specialize (Hk (seqKey y)).
        rewrite (withKey_above (seqKey y) (x :: l1)) in Hk.
        + unfold withKey in Hk. simpl in Hk.
          by rewrite bool_decide_eq_true_2 in Hk.
        + constructor; [done|].
          eapply Forall_impl; [exact Hx|]. unfold bySequence. intros; lia. }
    assert (Hhead : x = y).
    { specialize (Hk (seqKey x)). unfold withKey in Hk. simpl in Hk.
      rewrite bool_decide_eq_true_2 in Hk by done.
      rewrite (bool_decide_eq_true_2 (seqKey y = seqKey x)) in Hk by done.
      by injection Hk. }
    subst y. f_equal. apply IH; [done|]. intros k.
    specialize (Hk k). unfold withKey in *. simpl in Hk.
    destruct (bool_decide (seqKey x = k)); [by injection Hk|done].
Qed.

(** Chunks with pairwise distinct keys are told apart by their keys. *)
Lemma distinct_keys (l : list Chunk) (a b : Chunk) :
  NoDup (seqKey <$> l) -> a ∈ l -> b ∈ l -> seqKey a = seqKey b -> a = b.
Proof.
  induction l as [|x l IH]; intros Hnd Ha Hb Hk;
    [by apply elem_of_nil in Ha|].
  rewrite fmap_cons in Hnd. apply NoDup_cons in Hnd as [Hx Hnd].
  apply elem_of_cons in Ha as [->|Ha], Hb as [->|Hb]; [done| | |by apply IH].
  - exfalso. apply Hx. rewrite Hk. by apply list_elem_of_fmap_2.
  - exfalso. apply Hx. rewrite <- Hk. by apply list_elem_of_fmap_2.
Qed.

(** The [reduce] of the memo is the concatenation of the texts. *)
Lemma joinContents_foldl (acc : string) (l : list Chunk) :
  foldl (fun acc curr => String.append acc (content curr)) acc l
  = String.append acc (joinContents l).
Proof.
  unfold joinContents. revert acc.
  induction l as [|c l IH]; intros acc; simpl.
  - by rewrite append_nil_r.
  - rewrite IH, (IH (String.append "" (content c))).
    by rewrite append_assoc.
Qed.

Lemma joinContents_cons (c : Chunk) (l : list Chunk) :
  joinContents (c :: l) = String.append (content c) (joinContents l).
Proof. unfold joinContents at 1. simpl. by rewrite joinContents_foldl. Qed.

Lemma concat_cons (s : string) (l : list string) :
  String.concat "" (s :: l) = String.append s (String.concat "" l).
Proof. destruct l; simpl; [by rewrite append_nil_r|done]. Qed.

Lemma joinContents_concat (l : list Chunk) :
  joinContents l = String.concat "" (content <$> l).
Proof.
  induction l as [|c l IH]; [done|].
  by rewrite joinContents_cons, IH, fmap_cons, concat_cons.
Qed.

(** *** What the hook's operations leave of the text *)

Lemma updateProgress_textContent u (h : Hook) :
  textContent (updateProgress u h) = textContent h.
Proof. unfold updateProgress. by destruct (negb (isMountedRef h)). Qed.

Lemma updateProgress_mounted u (h : Hook) :
  isMountedRef (updateProgress u h) = isMountedRef h.
Proof. unfold updateProgress. by destruct (negb (isMountedRef h)). Qed.

Lemma updateConnectionHealth_textContent u (h : Hook) :
  textContent (updateConnectionHealth u h) = textContent h.
Proof.
  unfold updateConnectionHealth.
  destruct (negb (isMountedRef h)); [done|]. cbv zeta.
  by destruct (decide _).
Qed.

Lemma updateConnectionHealth_mounted u (h : Hook) :
  isMountedRef (updateConnectionHealth u h) = isMountedRef h.
Proof.
  unfold updateConnectionHealth.
  destruct (negb (isMountedRef h)); [done|]. cbv zeta.
  by destruct (decide _).
Qed.

Lemma addError_textContent errorMessage now (h : Hook) :
  textContent (addError errorMessage now h) = textContent h.
Proof.
  unfold addError. destruct (negb (isMountedRef h)); [done|]. cbv zeta.
  repeat case_decide; done.
Qed.

Lemma addError_mounted errorMessage now (h : Hook) :
  isMountedRef (addError errorMessage now h) = isMountedRef h.
Proof.
  unfold addError. destruct (negb (isMountedRef h)); [done|]. cbv zeta.
  repeat case_decide; done.
Qed.

Lemma onMessageIfId_textContent message (h : Hook) :
  textContent (onMessageIfId message h) = textContent h.
Proof. unfold onMessageIfId. by destruct (truthy _). Qed.

Lemma onMessageIfId_mounted message (h : Hook) :
  isMountedRef (onMessageIfId message h) = isMountedRef h.
Proof. unfold onMessageIfId. by destruct (truthy _). Qed.

Section Reader.

Variable parseMessage : string -> option UnifiedMessage.
Variable parseContent : string -> ParsedContent.
Variable parseMetadata : string -> ParsedMetadata.

Local Abbreviation handleStreamMessage' :=
  (handleStreamMessage parseMessage parseContent parseMetadata).
Local Abbreviation readerRun' :=
  (readerRun parseMessage parseContent parseMetadata).
Local Abbreviation readerStep' :=
  (readerStep parseMessage parseContent parseMetadata).
Local Abbreviation chunkOf' :=
  (chunkOf parseMessage parseContent parseMetadata).
Local Abbreviation arrivedChunks' :=
  (arrivedChunks parseMessage parseContent parseMetadata).
Local Abbreviation chunksReadable' :=
  (chunksReadable parseMessage parseContent parseMetadata).
Local Abbreviation completesText' :=
  (completesText parseMessage parseMetadata).
Local Abbreviation markedAsError' := (markedAsError parseMessage).

(** The [switch] on the message type, as far as the text goes. *)
Lemma dispatchMessage_textContent message (h : Hook) :
  let parsedContent := parseContent (msg_content message) in
  let parsedMetadata := parseMetadata (msg_metadata message) in
  textContent (dispatchMessage message parsedContent parsedMetadata h)
  = if bool_decide (msg_type message = "assistant")
    then if bool_decide (stream_status parsedMetadata = Some "chunk")
            && truthy (pc_content parsedContent)
         then textContent h
              ++ [{| content := default "" (pc_content parsedContent);
                     sequence := msg_sequence message |}]
         else if bool_decide (stream_status parsedMetadata = Some "complete")
         then []
         else textContent h
    else textContent h.
Proof.
  intros parsedContent parsedMetadata. unfold dispatchMessage.
  set (h1 := if bool_decide (status h = "streaming") then h else _).
  assert (Hh1 : textContent h1 = textContent h).
  { unfold h1. destruct (bool_decide (status h = "streaming")); [done|].
    by rewrite updateProgress_textContent. }
  destruct (bool_decide (msg_type message = "assistant")).
  - destruct (_ && _); [by rewrite <- Hh1|].
    destruct (bool_decide (stream_status parsedMetadata = Some "complete"));
      [by rewrite onMessageIfId_textContent|].
    destruct (negb _); [by rewrite onMessageIfId_textContent|done].
  - destruct (bool_decide (msg_type message = "tool_call")).
    + by rewrite onMessageIfId_textContent, updateProgress_textContent.
    + by rewrite onMessageIfId_textContent.
Qed.

Lemma dispatchMessage_mounted message parsedContent parsedMetadata
    (h : Hook) :
  isMountedRef (dispatchMessage message parsedContent parsedMetadata h)
  = isMountedRef h.
Proof.
  unfold dispatchMessage.
  set (h1 := if bool_decide (status h = "streaming") then h else _).
  assert (Hh1 : isMountedRef h1 = isMountedRef h).
  { unfold h1. destruct (bool_decide (status h = "streaming")); [done|].
    by rewrite updateProgress_mounted. }
  destruct (bool_decide (msg_type message = "assistant")).
  - destruct (_ && _); [by rewrite <- Hh1|].
    destruct (bool_decide (stream_status parsedMetadata = Some "complete"));
      [by rewrite onMessageIfId_mounted|].
    destruct (negb _); [by rewrite onMessageIfId_mounted|done].
  - destruct (bool_decide (msg_type message = "tool_call")).
    + by rewrite onMessageIfId_mounted, updateProgress_mounted.
    + by rewrite onMessageIfId_mounted.
Qed.

Lemma handleStreamMessage_mounted rawData now (h : Hook) :
  isMountedRef (handleStreamMessage' rawData now h) = isMountedRef h.
Proof.
  unfold handleStreamMessage.
  destruct (negb (isMountedRef h)); [done|]. cbv zeta.
  set (h1 := updateConnectionHealth _ h).
  assert (Hh1 : isMountedRef h1 = isMountedRef h)
    by apply updateConnectionHealth_mounted.
  destruct (bool_decide _); [done|].
  destruct (_ || _); [by rewrite updateProgress_mounted|].
  destruct (parseMessage _) as [message|]; [|done].
  destruct (_ || _).
  - cbn [isMountedRef setError]. by rewrite addError_mounted.
  - by rewrite dispatchMessage_mounted.
Qed.

(** A message received by a mounted reader: its chunk, if it carries one
    that the reader can read, goes to the end of the state array; when the
    message completes the text, the array is emptied; anything else
    leaves the array as it is. *)
Lemma handleStreamMessage_textContent rawData now (h : Hook) :
  isMountedRef h = true ->
  textContent (handleStreamMessage' rawData now h)
  = if bool_decide (payloadOf rawData = "")
       || negb (freeOfEndWords rawData) || markedAsError' rawData
    then textContent h
    else match chunkOf' rawData with
         | Some c => textContent h ++ [c]
         | None => if completesText' rawData then [] else textContent h
         end.
Proof.
  intros Hm. unfold handleStreamMessage. rewrite Hm. cbv zeta.
  change (negb true) with false. cbv iota.
  set (h1 := updateConnectionHealth _ h).
  assert (Hh1 : textContent h1 = textContent h)
    by apply updateConnectionHealth_textContent.
  fold (payloadOf rawData).
  unfold freeOfEndWords, markedAsError, chunkOf, completesText.
  destruct (bool_decide (payloadOf rawData = "")); [done|].
  rewrite negb_involutive. cbn [orb].
  destruct (_ || _); [by rewrite updateProgress_textContent|]. cbn [orb].
  destruct (parseMessage (payloadOf rawData)) as [message|]; [|done].
  destruct (_ || _).
  { cbn [textContent setError]. by rewrite addError_textContent. }
  rewrite dispatchMessage_textContent, Hh1. cbv zeta.
  destruct (bool_decide (msg_type message = "assistant")); [|done].
  cbn [andb].
  destruct (bool_decide (stream_status _ = Some "chunk")) eqn:Hchunk.
  - cbn [andb]. destruct (truthy _); [done|].
    apply bool_decide_eq_true in Hchunk. rewrite Hchunk.
    by rewrite bool_decide_eq_false_2.
  - cbn [andb]. by destruct (bool_decide _).
Qed.

Lemma arrivedChunks_snoc steps st :
  arrivedChunks' (steps ++ [st])
  = arrivedChunks' steps ++ match st with
                            | Receive rawData _ =>
                                match chunkOf' rawData with
                                | Some c => [c]
                                | None => []
                                end
                            | Rerender => []
                            end.
Proof.
  unfold arrivedChunks. rewrite omap_app. destruct st as [rawData now|];
    [|done].
  simpl. by destruct (chunkOf _ _ _ rawData).
Qed.

Lemma readerRun_mounted steps (h : Hook) :
  isMountedRef (readerRun' steps h) = isMountedRef h.
Proof.
  revert h. induction steps as [|st steps IH]; intros h; [done|].
  simpl. rewrite IH. destruct st; [apply handleStreamMessage_mounted|done].
Qed.

(** Whatever the renders in between, sorting the state array gives what
    sorting the initial array followed by the chunks that arrived
    gives. *)
Lemma readerRun_sorted steps (h : Hook) :
  isMountedRef h = true ->
  chunksReadable' steps ->
  sortBySequence (textContent (readerRun' steps h))
  = sortBySequence (textContent h ++ arrivedChunks' steps).
Proof.
  intros Hm.
  induction steps as [|st steps IH] using rev_ind; intros Hsteps.
  - simpl. by rewrite app_nil_r.
  - apply Forall_app in Hsteps as [Hsteps Hst].
    rewrite Forall_singleton in Hst. specialize (IH Hsteps).
    pose proof (readerRun_mounted steps h) as Hms. rewrite Hm in Hms.
    unfold readerRun in *. rewrite foldl_app. cbn [foldl].
    rewrite arrivedChunks_snoc.
    destruct st as [rawData now|].
    + cbn [readerStep]. destruct Hst as [Hcomplete Hchunk].
      rewrite handleStreamMessage_textContent by exact Hms.
      rewrite Hcomplete.
      destruct (chunkOf' rawData) as [c|].
      * destruct (Hchunk ltac:(by eexists)) as (Hp & Hw & He).
        rewrite bool_decide_eq_false_2, Hw, He by done. cbn [orb negb].
        by rewrite app_assoc, !sortBySequence_snoc, IH.
      * rewrite app_nil_r. by destruct (_ || _).
    + cbn [readerStep render snd textContent setTextContent].
      rewrite app_nil_r, <- IH.
      apply sortBySequence_sorted_id, sortBySequence_sorted.
Qed.


End Reader.



(** *** Stopping *)

(** The guard: without a mounted hook and a run id, [stopStreaming] does
    nothing at all. *)
Lemma stopStreaming_inactive throws now (h : Hook) :
  runActive h = false -> stopStreaming throws now h = h.
Proof.
  unfold runActive, stopStreaming, stop_begin. intros Hg.
  replace (negb (isMountedRef h) || negb (truthy (currentRunIdRef h)))
    with true; [done|].
  destruct (isMountedRef h), (truthy (currentRunIdRef h)); done.
Qed.

(** Split on every condition that the goal tests. *)
Ltac split_conditions :=
  repeat match goal with
         | |- context [if ?c then _ else _] => destruct c
         | |- context [match ?o with Some _ => _ | None => _ end] =>
             destruct o
         end.

Lemma stop_resolved_run (h : Hook) :
  status (stop_resolved h) = "stopped"
  /\ currentRunIdRef (stop_resolved h) = None
  /\ agentRunId (stop_resolved h) = None.
Proof.
  destruct h as [? ? ? ? ? ? [] [] ? [] [] ?]; repeat split; reflexivity.
Qed.

Lemma stopStreaming_active now (h : Hook) :
  runActive h = true ->
  status (stopStreaming None now h) = "stopped"
  /\ currentRunIdRef (stopStreaming None now h) = None
  /\ agentRunId (stopStreaming None now h) = None.
Proof.
  unfold runActive, stopStreaming, stop_begin.
  intros [Hm Hr]%andb_true_iff. rewrite Hm, Hr. simpl negb. simpl orb.
  destruct (currentRunIdRef h) as [runId|] eqn:Hid; [|discriminate].
  apply stop_resolved_run.
Qed.

(** How the operations of the hook act on the current run and the
    status. *)
Lemma runOf_emit e h : runOf (emit e h) = runOf h.
Proof. reflexivity. Qed.
Lemma runOf_setAgentRunId v h : runOf (setAgentRunId v h) = runOf h.
Proof. reflexivity. Qed.
Lemma runOf_setTextContent v h : runOf (setTextContent v h) = runOf h.
Proof. reflexivity. Qed.
Lemma runOf_setToolCall v h : runOf (setToolCall v h) = runOf h.
Proof. reflexivity. Qed.
Lemma runOf_setError v h : runOf (setError v h) = runOf h.
Proof. reflexivity. Qed.
Lemma runOf_setStreamState v h : runOf (setStreamState v h) = runOf h.
Proof. reflexivity. Qed.
Lemma runOf_setStreamCleanupRef v h :
  runOf (setStreamCleanupRef v h) = runOf h.
Proof. reflexivity. Qed.
Lemma runOf_setIsMountedRef v h : runOf (setIsMountedRef v h) = runOf h.
Proof. reflexivity. Qed.
Lemma runOf_setHeartbeatIntervalRef v h :
  runOf (setHeartbeatIntervalRef v h) = runOf h.
Proof. reflexivity. Qed.
Lemma runOf_setStatusPollIntervalRef v h :
  runOf (setStatusPollIntervalRef v h) = runOf h.
Proof. reflexivity. Qed.
Lemma runOf_setStatus v h : runOf (setStatus v h) = ((runOf h).1, v).
Proof. reflexivity. Qed.
Lemma runOf_setCurrentRunIdRef v h :
  runOf (setCurrentRunIdRef v h) = (v, (runOf h).2).
Proof. reflexivity. Qed.

Lemma runOf_updateProgress u h : runOf (updateProgress u h) = runOf h.
Proof. unfold updateProgress. by destruct (negb (isMountedRef h)). Qed.

Lemma runOf_updateConnectionHealth u h :
  runOf (updateConnectionHealth u h) = runOf h.
Proof.
  unfold updateConnectionHealth.
  destruct (negb (isMountedRef h)); [done|]. by destruct (decide _).
Qed.

Lemma runOf_addError msg now h : runOf (addError msg now h) = runOf h.
Proof. unfold addError. split_conditions; reflexivity. Qed.

Lemma runOf_clearErrors h : runOf (clearErrors h) = runOf h.
Proof. reflexivity. Qed.

Lemma runOf_startHeartbeat h : runOf (startHeartbeat h) = runOf h.
Proof. unfold startHeartbeat. by destruct (heartbeatIntervalRef h). Qed.

Lemma runOf_startStatusPolling h : runOf (startStatusPolling h) = runOf h.
Proof. unfold startStatusPolling. split_conditions; reflexivity. Qed.

Lemma runOf_onMessageIfId m h : runOf (onMessageIfId m h) = runOf h.
Proof. unfold onMessageIfId. by destruct (truthy _). Qed.

Lemma runOf_unmount h : runOf (unmount h) = runOf h.
Proof. unfold unmount. split_conditions; reflexivity. Qed.

Create Rewrite HintDb hook_run.
#[local] Hint Rewrite runOf_emit runOf_setAgentRunId runOf_setTextContent
  runOf_setToolCall runOf_setError runOf_setStreamState
  runOf_setStreamCleanupRef runOf_setIsMountedRef
  runOf_setHeartbeatIntervalRef runOf_setStatusPollIntervalRef
  runOf_setStatus runOf_setCurrentRunIdRef runOf_updateProgress
  runOf_updateConnectionHealth runOf_addError runOf_clearErrors
  runOf_startHeartbeat runOf_startStatusPolling runOf_onMessageIfId
  runOf_unmount : hook_run.

(** A failed stop leaves the run and the status as they were. *)
Lemma stopStreaming_rejected_run err now (h : Hook) :
  runActive h = true ->
  runOf (stopStreaming (Some err) now h) = runOf h.
Proof.
  unfold runActive, stopStreaming, stop_begin, stop_rejected.
  intros [-> Hr]%andb_true_iff. rewrite Hr.
  destruct (currentRunIdRef h) eqn:Hid; [|discriminate].
  simpl negb. simpl orb. cbv iota. by autorewrite with hook_run.
Qed.

Lemma stoppedMeansNoRun_runOf (h : Hook) :
  stoppedMeansNoRun h <-> ((runOf h).2 = "stopped" -> (runOf h).1 = None).
Proof. reflexivity. Qed.

Section Life.

Variable parseMessage : string -> option UnifiedMessage.
Variable parseContent : string -> ParsedContent.
Variable parseMetadata : string -> ParsedMetadata.

(** A stream message leaves the current run alone, and the status either
    stays or becomes ['streaming']. *)
Lemma handleStreamMessage_run rawData now (h : Hook) :
  let h' := handleStreamMessage parseMessage parseContent parseMetadata
                                rawData now h in
  (runOf h').1 = (runOf h).1
  /\ ((runOf h').2 = (runOf h).2 \/ (runOf h').2 = "streaming").
Proof.
  unfold handleStreamMessage, dispatchMessage.
  split_conditions; autorewrite with hook_run; simpl; auto.
Qed.

(** A started stream is never in status ['stopped']. *)
Lemma startStreaming_run runId now throws (h : Hook) :
  isMountedRef h = true ->
  (runOf (startStreaming runId now throws h)).2 <> "stopped".
Proof.
  unfold startStreaming. intros ->. simpl negb. cbv iota.
  destruct throws; autorewrite with hook_run; simpl; discriminate.
Qed.

Lemma hookStep_stoppedMeansNoRun ev (h : Hook) :
  stoppedMeansNoRun h ->
  stoppedMeansNoRun
    (hookStep parseMessage parseContent parseMetadata ev h).
Proof.
  rewrite !stoppedMeansNoRun_runOf. intros Hinv.
  destruct ev as [runId now throws|throws now|rawData now|err now| | |u|u|];
    simpl hookStep.
  - destruct (isMountedRef h) eqn:Hm.
    + intros Hs. by apply startStreaming_run in Hs.
    + unfold startStreaming. by rewrite Hm.
  - destruct (runActive h) eqn:Ha.
    + destruct throws as [err|].
      * by rewrite stopStreaming_rejected_run.
      * intros _. by apply stopStreaming_active.
    + by rewrite stopStreaming_inactive.
  - destruct (handleStreamMessage_run rawData now h) as [E1 [E2|E2]];
      rewrite E1, E2; [done|discriminate].
  - by autorewrite with hook_run.
  - unfold render. simpl. by autorewrite with hook_run.
  - by autorewrite with hook_run.
  - by autorewrite with hook_run.
  - by autorewrite with hook_run.
  - by autorewrite with hook_run.
Qed.

Lemma hookRun_stoppedMeansNoRun evs (h : Hook) :
  stoppedMeansNoRun h ->
  stoppedMeansNoRun (hookRun parseMessage parseContent parseMetadata evs h).
Proof.
  revert h. induction evs as [|ev evs IH]; intros h Hinv; [done|].
  simpl. apply IH. by apply hookStep_stoppedMeansNoRun.
Qed.

(** Claim C7, as the code has it.  (1) Whenever the hook is unmounted or
    has no current run id, [stopStreaming] changes nothing and calls
    nothing.  (2) When the hook is mounted with a current run and
    [stopAgent] succeeds, the status becomes ['stopped'] and both the run
    id state and the run id ref are cleared; any further [stopStreaming]
    then changes nothing.  (3) In every state that a hook reaches from its
    first render with status ['stopped'], [stopStreaming] changes nothing. *)
Theorem stop_is_idempotent :
  (forall throws now h,
     runActive h = false -> stopStreaming throws now h = h)
  /\ (forall now h,
        runActive h = true ->
        let h' := stopStreaming None now h in
        status h' = "stopped"
        /\ agentRunId h' = None
        /\ currentRunIdRef h' = None
        /\ forall throws now', stopStreaming throws now' h' = h')
  /\ (forall evs now0 throws now,
        let h := hookRun parseMessage parseContent parseMetadata evs
                         (initialHook now0) in
        status h = "stopped" -> stopStreaming throws now h = h).
Proof.
  split; [|split].
  - intros throws now h. apply stopStreaming_inactive.
  - intros now h Ha h'.
    destruct (stopStreaming_active now h Ha) as (Hs & Hr & Hg).
    fold h' in Hs, Hr, Hg. repeat split; try done.
    intros throws now'. apply stopStreaming_inactive.
    unfold runActive. rewrite Hr. simpl. by rewrite andb_false_r.
  - intros evs now0 throws now h Hs.
    apply stopStreaming_inactive. unfold runActive.
    assert (Hr : currentRunIdRef h = None).
    { apply (hookRun_stoppedMeansNoRun evs (initialHook now0));
        [discriminate|done]. }
    rewrite Hr. simpl. by rewrite andb_false_r.
Qed.

End Life.

(** Claim C7 fails as stated.  A run is started and its stream reports
    its end: the hook shows 100 percent and the step ['Completed'], but the
    run id is still set, and [stopStreaming] calls [stopAgent] for the
    finished run, changes the status and closes. *)
Lemma stop_on_completed_run_is_not_noop :
  let h := hookAfter completedRun in
  percentage (progress (streamState h)) = 100
  /\ currentStep (progress (streamState h)) = "Completed"
  /\ stopStreaming None 2 h <> h
  /\ status h = "connecting"
  /\ status (stopStreaming None 2 h) = "stopped"
  /\ effects (stopStreaming None 2 h)
     = effects h ++ [CallStopAgent "run-1"; CallStreamCleanup;
                     ClearHeartbeatInterval; ClearStatusPollInterval;
                     OnProgressUpdate
                       (progress (streamState (stopStreaming None 2 h)));
                     OnClose "stopped"].
Proof.
  intros h. split; [vm_compute; reflexivity|].
  split; [vm_compute; reflexivity|].
  split.
  { intros E. apply (f_equal status) in E. vm_compute in E. discriminate. }
  split; [vm_compute; reflexivity|].
  split; vm_compute; reflexivity.
Qed.

(** Stopping at a concrete hook: a run started and stopped, then stopped
    again. *)
Lemma stop_is_idempotent_witness :
  let h := hookAfter [EvStart "run-1" 0 None] in
  status (stopStreaming None 1 h) = "stopped"
  /\ stopStreaming None 2 (stopStreaming None 1 h) = stopStreaming None 1 h.
Proof.
  intros h.
  destruct (stop_is_idempotent (fun _ => None) (fun _ => noContent)
              (fun _ => noMetadata)) as (_ & H2 & _).
  destruct (H2 1 h ltac:(vm_compute; reflexivity)) as (Hs & _ & _ & Hi).
  split; [exact Hs|apply Hi].
Defined.

End StreamFacts.

(** ** The run lock *)

Module RunLockFacts.
Import RunLock.

Lemma filter_length_impl {A} (P Q : A -> bool) (l : list A) :
  (forall x, Q x = true -> P x = true) ->
  (length (List.filter Q l) <= length (List.filter P l))%nat.
Proof.
  intros HPQ. induction l as [|x l IH]; simpl; [lia|].
  destruct (Q x) eqn:HQ.
  - rewrite (HPQ x HQ). simpl. lia.
  - destruct (P x); simpl; lia.
Qed.

Lemma filter_length_alter {A} (P : A -> bool) (f : A -> A) (i : nat)
    (l : list A) :
  (forall x, P (f x) = true -> P x = true) ->
  (length (List.filter P (alter f i l)) <= length (List.filter P l))%nat.
Proof.
  intros Hf. revert i. induction l as [|x l IH]; intros [|i]; simpl;
    try lia.
  - destruct (P (f x)) eqn:Hfx.
    + rewrite (Hf x Hfx). simpl. lia.
    + destruct (P x); simpl; lia.
  - specialize (IH i). unfold alter in IH. destruct (P x); simpl; lia.
Qed.

Lemma live_later (t t' : Z) (r : string) (x : Held) :
  t <= t' -> live t' r x = true -> live t r x = true.
Proof.
  unfold live. intros Ht.
  rewrite !andb_true_iff, !Z.ltb_lt. intros [[? ?] ?].
  repeat split; [done|done|lia].
Qed.

Lemma live_renewHeld (t ttl : Z) (r : string) (x : Held) :
  live t r (renewHeld t ttl x) = true -> live t r x = true.
Proof.
  unfold renewHeld.
  destruct (negb (released x) && (t <? expiresAt (lock x))) eqn:Hc.
  - apply andb_true_iff in Hc as [Hr He].
    unfold live. simpl. rewrite Hr, He, !andb_true_r.
    rewrite !andb_true_iff. by intros [? _].
  - done.
Qed.

Lemma live_moveHeld (t : Z) (r : string) (to : RunStatus) (x : Held) :
  live t r (moveHeld to x) = true -> live t r x = true.
Proof.
  unfold moveHeld. destruct (transition (status x) to); [|done].
  unfold live. simpl.
  destruct (released x), (terminal to); simpl; try done;
    rewrite ?andb_false_r; done.
Qed.

(** The invariant of the store: at most one live lock for a run. *)
Lemma step_liveLocks ev (s : System) :
  (forall r, (length (liveLocks r s) <= 1)%nat) ->
  forall r, (length (liveLocks r (step ev s)) <= 1)%nat.
Proof.
  intros Hinv r. specialize (Hinv r). unfold liveLocks in *.
  destruct ev as [dt|r0 holder ttl|i ttl|i to]; simpl.
  - etrans; [|exact Hinv].
    apply filter_length_impl. intros x. apply live_later. lia.
  - unfold claim, acquire.
    destruct (existsb (live (now s) r0) (held s)) eqn:Hex; [done|].
    simpl. rewrite List.filter_app, length_app. simpl.
    destruct (decide (r0 = r)) as [->|Hne].
    + assert (Hnone : List.filter (live (now s) r) (held s) = []).
      { destruct (List.filter _ _) as [|x l] eqn:Hf; [done|].
        assert (Hin : In x (List.filter (live (now s) r) (held s)))
          by (rewrite Hf; by left).
        apply filter_In in Hin as [Hin Hl].
        assert (existsb (live (now s) r) (held s) = true)
          by (apply existsb_exists; eauto).
        congruence. }
      rewrite Hnone. simpl. destruct (live _ _ _); simpl; lia.
    + unfold live at 2. simpl.
      rewrite bool_decide_eq_false_2 by done. simpl. lia.
  - etrans; [|exact Hinv].
    apply filter_length_alter. intros x. apply live_renewHeld.
  - etrans; [|exact Hinv].
    apply filter_length_alter. intros x. apply live_moveHeld.
Qed.

Lemma run_liveLocks evs (s : System) :
  (forall r, (length (liveLocks r s) <= 1)%nat) ->
  forall r, (length (liveLocks r (run evs s)) <= 1)%nat.
Proof.
  revert s. induction evs as [|ev evs IH]; intros s Hinv; [done|].
  simpl. apply IH. by apply step_liveLocks.
Qed.

(** Claim C8.  In every history of the store (claims by any number of
    schedulers, renewals, orchestrator transitions and the passing of time,
    in any interleaving) there is at every instant at most one live lock for
    a run, and hence at most one orchestrator for that run that is in a
    non-terminal state and holds a live lock. *)
Theorem run_lock_mutual_exclusion (evs : list Event) (t0 : Z) (r : string) :
  let s := run evs (emptyStore t0) in
  (length (liveLocks r s) <= 1)%nat
  /\ (length (guardedOrchestrators r s) <= 1)%nat.
Proof.
  intros s.
  assert (H : (length (liveLocks r s) <= 1)%nat).
  { apply run_liveLocks. intros r'. simpl. lia. }
  split; [done|].
  etrans; [|exact H]. unfold guardedOrchestrators, liveLocks.
  apply filter_length_impl. intros x. rewrite andb_true_iff. by intros [? _].
Qed.

End RunLockFacts.

(** ** The definitions at small inputs *)

Module Examples.
Import ApiClient AgentStream.

Example priority_values :
  priority_value <$> [LOW; NORMAL; HIGH; CRITICAL] = [1; 2; 3; 4].
Proof. reflexivity. Qed.

Example findIndex_first_negative :
  findIndex (fun z => z <? 0) [3; 0; -1; 5; -2] = Some 2%nat
  /\ findIndex (fun z => z <? 0) [3; 0] = None.
Proof. split; reflexivity. Qed.

Example splice_insert_middle : splice_insert 2 9 [1; 2; 3; 4] = [1; 2; 9; 3; 4].
Proof. reflexivity. Qed.

Example default_priority_is_normal :
  qr_priority <$> queuedOf generateRequestId
                           ("https://api.example.com/api/agents", plainGet, 0)
  = Some NORMAL.
Proof. vm_compute. reflexivity. Qed.

Example btoa_examples :
  btoa "GET:/api/agents/1:{}" = Some "R0VUOi9hcGkvYWdlbnRzLzE6e30="
  /\ btoa "hello!??>>" = Some "aGVsbG8hPz8+Pg=="
  /\ btoa "café" = Some "Y2Fm6Q=="
  /\ btoa "日本" = None.
Proof. vm_compute. done. Qed.

Example request_id_examples :
  generateRequestId "/api/agents/1" plainGet
  = Some "R0VUOi9hcGkvYWdlbnRzLzE6e30"
  /\ generateRequestId "/api/agents/1" (withCacheKey "agents")
     = Some "YWdlbnRz"
  /\ generateRequestId "/api/agents/1" (withCacheKey "")
     = Some "R0VUOi9hcGkvYWdlbnRzLzE6e30".
Proof. vm_compute. done. Qed.

Example endpoint_examples :
  extractEndpoint "https://api.example.com/api/agents/1?verbose=1"
  = "api/agents"
  /\ extractEndpoint "https://api.example.com" = ""
  /\ extractEndpoint "https://api.example.com/health" = "health"
  /\ extractEndpoint "/api/agents/1" = "/api/agents/1".
Proof. vm_compute. done. Qed.

Example five_failures_open_the_breaker :
  cb_state <$> [ (breakerRun [CallFailed 1; CallFailed 2; CallFailed 3;
                              CallFailed 4] (freshBreaker, 0%nat)).1;
                 (breakerRun [CallFailed 1; CallFailed 2; CallFailed 3;
                              CallFailed 4; CallFailed 5]
                             (freshBreaker, 0%nat)).1 ]
  = [CLOSED; OPEN].
Proof. reflexivity. Qed.

Example failure_while_half_open_keeps_state :
  let s := breakerRun (tripAndRecover ++ [CallFailed 9])
                      (freshBreaker, 0%nat) in
  cb_state s.1 = HALF_OPEN /\ failureCount s.1 = 6.
Proof. split; reflexivity. Qed.

Example default_delays :
  (calculateRetryDelay 1 DEFAULT_RETRY_CONFIG (1 # 2) == 1000)%Q
  /\ (calculateRetryDelay 3 DEFAULT_RETRY_CONFIG 1 == 4400)%Q
  /\ (calculateRetryDelay 3 DEFAULT_RETRY_CONFIG 0 == 3600)%Q
  /\ (calculateRetryDelay 6 DEFAULT_RETRY_CONFIG (1 # 2) == 30000)%Q.
Proof. repeat split; vm_compute; reflexivity. Qed.

Example second_attempt_succeeds :
  executeRequest (fun attempt => if attempt =? 1 then Err timeoutError
                                 else Ok "done")
                 (fun _ => 1 # 2) 4 plainGet
  = Some {| ex_attempts := [1; 2];
            ex_delays := [calculateRetryDelay 1 DEFAULT_RETRY_CONFIG (1 # 2)];
            ex_outcome := Returned "done" |}.
Proof. vm_compute. reflexivity. Qed.

Example error_without_status_is_retried_once :
  let parseError := {| err_name := "SyntaxError";
                       err_message := "Unexpected token";
                       err_status := None |} in
  ex_attempts <$> executeRequest (fun _ => Err parseError) (fun _ => 1 # 2) 4
                                 plainGet
  = Some [1; 2].
Proof. vm_compute. reflexivity. Qed.

Example includes_examples :
  includes "Stream ended" "data: Stream ended" = true
  /\ includes "timeout" "Request Timeout" = false
  /\ includes "timeout" (toLowerCase "Request Timeout") = true.
Proof. repeat split; reflexivity. Qed.

Example trim_example : trim (substringFrom 6 "data:   ok  ") = "ok".
Proof. vm_compute. reflexivity. Qed.

Example classifyError_examples :
  classifyError "Network unreachable" = ("network", medium, true)
  /\ classifyError "Rate limit exceeded" = ("rate_limit", high, true)
  /\ classifyError "Billing quota reached" = ("billing", critical, false)
  /\ classifyError "boom" = ("unknown", medium, true).
Proof. repeat split; vm_compute; reflexivity. Qed.

Example sliceLast_examples :
  sliceLast 9 (seqZ 1 12) = seqZ 4 9 /\ sliceLast 9 [1; 2] = [1; 2].
Proof. split; reflexivity. Qed.

Example ordered_text_example :
  orderedTextContent [ {| content := "world"; sequence := Some 3 |};
                       {| content := "Hel"; sequence := Some 1 |};
                       {| content := "lo, "; sequence := Some 2 |} ]
  = "Hello, world".
Proof. vm_compute. reflexivity. Qed.

(** The sort is stable: chunks without a sequence number count as 0 and
    keep their order of arrival. *)
Example ordered_text_ties :
  orderedTextContent [ {| content := "b"; sequence := Some 1 |};
                       {| content := "x"; sequence := None |};
                       {| content := "a"; sequence := Some 0 |};
                       {| content := "y"; sequence := None |} ]
  = "xayb".
Proof. vm_compute. reflexivity. Qed.

Example error_message_is_recorded :
  let h := hookRun (fun _ => Some {| msg_type := "error";
                                     msg_content := "Rate limit hit";
                                     msg_metadata := "";
                                     msg_message_id := None;
                                     msg_sequence := None;
                                     msg_status := None |})
                   (fun _ => noContent) (fun _ => noMetadata)
                   [EvStart "run-1" 0 None; EvMessage "data: {...}" 1]
                   (initialHook 0) in
  error h = Some "Rate limit hit"
  /\ ev_type <$> errorHistory (streamState h) = ["rate_limit"]
  /\ status h = "connecting".
Proof. vm_compute. repeat split; reflexivity. Qed.

Import RunLock.

Example concurrent_claims_have_one_winner :
  holderId <$> (lock <$> held (run [Claim "r1" "A" 60; Claim "r1" "B" 60;
                                    Claim "r1" "C" 60] (emptyStore 0)))
  = ["A"].
Proof. vm_compute. reflexivity. Qed.

Example expired_lock_can_be_reclaimed :
  let s := run [Claim "r1" "A" 60; Advance 60; Claim "r1" "B" 60;
                Renew 0 60] (emptyStore 0) in
  holderId <$> (lock <$> liveLocks "r1" s) = ["B"]
  /\ RunLock.status <$> held s = [FAILED; INITIALIZING].
Proof. vm_compute. split; reflexivity. Qed.

Example finished_run_releases_its_lock :
  let s := run [Claim "r1" "A" 60; Move 0 EXECUTING; Move 0 COMPLETED;
                Claim "r1" "B" 60] (emptyStore 0) in
  holderId <$> (lock <$> liveLocks "r1" s) = ["B"].
Proof. vm_compute. reflexivity. Qed.

End Examples.

(** ** More about the API client *)

Module ApiClientMoreFacts.
Import ApiClient ApiClientMore.

(** *** Breakers *)

(** X1.  For a breaker driven from a fresh one by any calls and timer
    firings: a recovery timer is pending exactly while the breaker is open,
    there is never more than one, and while the breaker is closed its
    failure count is below the threshold. *)
Theorem recovery_timer_pending_iff_open (evs : list BreakerEvent) :
  let s := breakerRun evs (freshBreaker, 0%nat) in
  (cb_state s.1 = OPEN <-> s.2 = 1%nat)
  /\ (s.2 <= 1)%nat
  /\ (cb_state s.1 = CLOSED -> 0 <= failureCount s.1 < failureThreshold).
Proof.
  intros s.
  pose proof (BreakerFacts.breakerRun_inv evs _ BreakerFacts.freshBreaker_inv)
    as Hinv.
  fold s in Hinv. unfold breakerInv in Hinv.
  destruct (cb_state s.1); repeat split; try done; try lia;
    try (intros; lia); try (intros; discriminate); naive_solver lia.
Qed.

Section Client.

Variable generateRequestId : string -> RequestConfig -> option string.
Variable extractEndpoint : string -> string.
Variable API_URL : string.

Local Abbreviation request_begin' :=
  (request_begin generateRequestId extractEndpoint API_URL).
Local Abbreviation request_finish' :=
  (request_finish generateRequestId extractEndpoint API_URL).
Local Abbreviation endpointOf' := (endpointOf extractEndpoint API_URL).
Local Abbreviation clientRun' :=
  (clientRun generateRequestId extractEndpoint API_URL).
Local Abbreviation clientStep' :=
  (clientStep generateRequestId extractEndpoint API_URL).
Local Abbreviation queuedOf' := (queuedOf generateRequestId).

Lemma getCircuitBreaker_spec (e : string) (c : Client) :
  (getCircuitBreaker e c).1 = breakerOf e c
  /\ (forall e', breakerOf e' (getCircuitBreaker e c).2 = breakerOf e' c)
  /\ inFlightRequests (getCircuitBreaker e c).2 = inFlightRequests c
  /\ requestQueue (getCircuitBreaker e c).2 = requestQueue c
  /\ isOnline (getCircuitBreaker e c).2 = isOnline c
  /\ recoveryTimers (getCircuitBreaker e c).2 = recoveryTimers c.
Proof.
  unfold getCircuitBreaker, breakerOf.
  destruct (circuitBreakers c !! e) eqn:He; simpl; [done|].
  split; [done|]. split; [|done]. intros e'.
  destruct (decide (e = e')) as [<-|Hne].
  - by rewrite lookup_insert_eq, He.
  - by rewrite lookup_insert_ne.
Qed.

Lemma recordSuccess_breakerOf (e e' : string) (c : Client) :
  breakerOf e' (recordSuccess e c)
  = if decide (e = e') then breakerSuccess (breakerOf e c)
    else breakerOf e' c.
Proof.
  unfold recordSuccess.
  destruct (getCircuitBreaker_spec e c) as (H1 & H2 & _).
  destruct (getCircuitBreaker e c) as [cb c1]. simpl in *. subst cb.
  unfold breakerOf at 1. simpl.
  destruct (decide (e = e')) as [<-|Hne].
  - by rewrite lookup_insert_eq.
  - rewrite lookup_insert_ne by done. apply H2.
Qed.

Lemma recordSuccess_timers (e : string) (c : Client) :
  recoveryTimers (recordSuccess e c) = recoveryTimers c.
Proof.
  unfold recordSuccess.
  destruct (getCircuitBreaker_spec e c) as (_ & _ & _ & _ & _ & H6).
  by destruct (getCircuitBreaker e c) as [cb c1].
Qed.

Lemma recordFailure_breakerOf (e e' : string) now (c : Client) :
  breakerOf e' (recordFailure e now c).1
  = if decide (e = e') then (breakerFailure now (breakerOf e c)).1
    else breakerOf e' c.
Proof.
  unfold recordFailure.
  destruct (getCircuitBreaker_spec e c) as (H1 & H2 & _).
  destruct (getCircuitBreaker e c) as [cb c1]. simpl in *. subst cb.
  destruct (breakerFailure now (breakerOf e c)) as [cb' t]. simpl.
  assert (E : breakerOf e'
                (setBreakers (<[e:=cb']> (circuitBreakers c1)) c1)
              = if decide (e = e') then cb' else breakerOf e' c).
  { unfold breakerOf at 1. simpl.
    destruct (decide (e = e')) as [<-|Hne].
    - by rewrite lookup_insert_eq.
    - rewrite lookup_insert_ne by done. apply H2. }
  by destruct t.
Qed.

Lemma recordFailure_timers (e : string) now (c : Client) :
  recoveryTimers (recordFailure e now c).1
  = recoveryTimers c
    ++ match (breakerFailure now (breakerOf e c)).2 with
       | Some _ => [e]
       | None => []
       end.
Proof.
  unfold recordFailure.
  destruct (getCircuitBreaker_spec e c) as (H1 & _ & _ & _ & _ & H6).
  destruct (getCircuitBreaker e c) as [cb c1]. simpl in *. subst cb.
  destruct (breakerFailure now (breakerOf e c)) as [cb' [t|]]; simpl.
  - by rewrite H6.
  - by rewrite H6, app_nil_r.
Qed.

(** Counting the pending timers of an endpoint. *)
Lemma pendingTimers_snoc (e e' : string) (c : Client) (l : list string) :
  recoveryTimers c = l ++ [e] ->
  pendingTimers e' c
  = (length (List.filter (fun x => bool_decide (x = e')) l)
     + if decide (e = e') then 1 else 0)%nat.
Proof.
  intros Hc. unfold pendingTimers. rewrite Hc, List.filter_app, length_app.
  simpl. destruct (decide (e = e')) as [->|Hne].
  - by rewrite bool_decide_eq_true_2.
  - by rewrite bool_decide_eq_false_2.
Qed.

Lemma removeTimer_same (e : string) (l : list string) :
  e ∈ l ->
  length (List.filter (fun x => bool_decide (x = e)) l)
  = S (length (List.filter (fun x => bool_decide (x = e))
                           (removeTimer e l))).
Proof.
  induction l as [|x l IH]; intros Hin; [by apply elem_of_nil in Hin|].
  simpl. destruct (decide (x = e)) as [->|Hne].
  - by rewrite bool_decide_eq_true_2.
  - simpl. rewrite bool_decide_eq_false_2 by done.
    apply IH. apply elem_of_cons in Hin as [->|Hin]; done.
Qed.

Lemma removeTimer_other (e e' : string) (l : list string) :
  e <> e' ->
  length (List.filter (fun x => bool_decide (x = e')) (removeTimer e l))
  = length (List.filter (fun x => bool_decide (x = e')) l).
Proof.
  intros Hne. induction l as [|x l IH]; [done|].
  simpl. destruct (decide (x = e)) as [->|Hx].
  - by rewrite bool_decide_eq_false_2.
  - simpl. destruct (bool_decide (x = e')); simpl; by rewrite IH.
Qed.

Lemma no_pending_timer (e : string) (l : list string) :
  e ∉ l -> length (List.filter (fun x => bool_decide (x = e)) l) = 0%nat.
Proof.
  induction l as [|x l IH]; intros Hin; [done|].
  apply not_elem_of_cons in Hin as [Hne Hin]. simpl.
  rewrite bool_decide_eq_false_2 by done. by apply IH.
Qed.

(** The firing of a recovery timeout, seen from one endpoint. *)
Lemma recoveryTimerFires_breaker (e e' : string) (c : Client) :
  (breakerOf e' (recoveryTimerFires e c),
   pendingTimers e' (recoveryTimerFires e c))
  = if decide (e = e')
    then breakerStep RecoveryTimerFires (breakerOf e' c, pendingTimers e' c)
    else (breakerOf e' c, pendingTimers e' c).
Proof.
  unfold recoveryTimerFires. case_bool_decide as Hin.
  - destruct (decide (e = e')) as [<-|Hne].
    + unfold pendingTimers at 2. rewrite (removeTimer_same e _ Hin).
      simpl. f_equal. unfold breakerOf. simpl.
      rewrite lookup_alter_eq.
      by destruct (circuitBreakers c !! e).
    + f_equal.
      * unfold breakerOf. simpl. by rewrite lookup_alter_ne.
      * unfold pendingTimers. simpl. by apply removeTimer_other.
  - destruct (decide (e = e')) as [<-|Hne]; [|done].
    unfold pendingTimers. by rewrite (no_pending_timer e _ Hin).
Qed.

Lemma request_begin_breakerOf url config now (c : Client) (e : string) :
  breakerOf e (request_begin' url config now c).2 = breakerOf e c
  /\ recoveryTimers (request_begin' url config now c).2 = recoveryTimers c.
Proof.
  unfold request_begin.
  destruct (generateRequestId url config) as [requestId|]; [|done].
  destruct (_ && _); [done|].
  destruct (getCircuitBreaker_spec (extractEndpoint (fullUrlOf API_URL url)) c)
    as (_ & H2 & _ & _ & _ & H6).
  destruct (getCircuitBreaker _ c) as [cb c1]. simpl in *.
  destruct (decide _); [by split; [apply H2|]|].
  destruct (negb (isOnline c1)); simpl; [|by split; [apply H2|]].
  unfold queueRequest.
  destruct (generateRequestId (fullUrlOf API_URL url) config); simpl;
    by split; [apply H2|].
Qed.

(** A settlement, seen from one endpoint. *)
Lemma request_finish_breaker url config result now (c : Client)
    (e : string) :
  let c' := (request_finish' url config result now c).1 in
  (breakerOf e c', pendingTimers e c')
  = if decide (endpointOf' url = e)
    then match generateRequestId url config with
         | Some _ =>
             breakerStep (match result with
                          | Ok _ => CallSucceeded
                          | Err _ => CallFailed now
                          end) (breakerOf e c, pendingTimers e c)
         | None => (breakerOf e c, pendingTimers e c)
         end
    else (breakerOf e c, pendingTimers e c).
Proof.
  unfold request_finish, endpointOf.
  destruct (generateRequestId url config) as [requestId|];
    [|by destruct (decide _)].
  set (e0 := extractEndpoint (fullUrlOf API_URL url)).
  destruct result as [v|err].
  - pose proof (recordSuccess_breakerOf e0 e c) as H.
    pose proof (recordSuccess_timers e0 c) as Ht.
    unfold breakerOf, pendingTimers in *. simpl. rewrite H, Ht.
    by destruct (decide _) as [->|].
  - pose proof (recordFailure_breakerOf e0 e now c) as H.
    pose proof (recordFailure_timers e0 now c) as Ht.
    destruct (recordFailure e0 now c) as [c1 t]. simpl in *.
    assert (Hp : pendingTimers e (setInFlight
                                    (inFlightRequests c1 ∖ {[requestId]}) c1)
                 = (pendingTimers e c
                    + match (breakerFailure now (breakerOf e0 c)).2 with
                      | Some _ => if decide (e0 = e) then 1 else 0
                      | None => 0
                      end)%nat).
    { unfold pendingTimers at 1. simpl. rewrite Ht.
      rewrite List.filter_app, length_app. unfold pendingTimers. f_equal.
      destruct ((breakerFailure now (breakerOf e0 c)).2); [|done].
      simpl. destruct (decide (e0 = e)) as [->|Hne].
      - by rewrite bool_decide_eq_true_2.
      - by rewrite bool_decide_eq_false_2. }
    rewrite Hp.
    assert (Hb : breakerOf e (setInFlight
                                (inFlightRequests c1 ∖ {[requestId]}) c1)
                 = breakerOf e c1) by done.
    rewrite Hb, H.
    destruct (decide (e0 = e)) as [->|Hne].
    + destruct (breakerFailure now (breakerOf e c)) as [cb' [t'|]]; simpl;
        f_equal; lia.
    + destruct ((breakerFailure now (breakerOf e0 c)).2); f_equal; lia.
Qed.


(** *** The request gate *)

(** The ways through the gate, in terms of the breaker the endpoint has
    or would get. *)
Lemma request_begin_cases url config now (c : Client) :
  let e := endpointOf' url in
  let c1 := (getCircuitBreaker e c).2 in
  request_begin' url config now c
  = match generateRequestId url config with
    | None => (RequestIdError, c)
    | Some id =>
        if deduplicates generateRequestId url config c
        then (Deduplicated id, c)
        else if decide (cb_state (breakerOf e c) = OPEN)
        then (CircuitBreakerError e, c1)
        else if isOnline c
        then (Started id (fullUrlOf API_URL url),
              setInFlight ({[id]} ∪ inFlightRequests c) c1)
        else match queuedOf' (fullUrlOf API_URL url, config, now) with
             | Some q =>
                 (Queued q,
                  setQueue (insertQueued q (requestQueue c)) c1)
             | None => (RequestIdError, c1)
             end
    end.
Proof.
  intros e c1. unfold request_begin, deduplicates.
  destruct (generateRequestId url config) as [id|]; [|done].
  destruct (_ && _); [done|]. fold (endpointOf' url). fold e.
  destruct (getCircuitBreaker_spec e c) as (H1 & _ & H3 & H4 & H5 & _).
  fold c1 in H3, H4, H5. unfold c1 in *.
  destruct (getCircuitBreaker e c) as [cb c2]. simpl in *. subst cb.
  destruct (decide _); [done|]. rewrite H5.
  destruct (isOnline c); simpl; [by rewrite H3|].
  unfold queuedOf, queueRequest.
  destruct (generateRequestId (fullUrlOf API_URL url) config); simpl;
    [by rewrite H4|done].
Qed.

Lemma request_finish_inFlight url config result now (c : Client) :
  inFlightRequests (request_finish' url config result now c).1
  = match generateRequestId url config with
    | Some id => inFlightRequests c ∖ {[id]}
    | None => inFlightRequests c
    end.
Proof.
  unfold request_finish, recordSuccess, recordFailure.
  destruct (generateRequestId url config) as [id|]; [|done].
  destruct (getCircuitBreaker_spec (extractEndpoint (fullUrlOf API_URL url)) c)
    as (_ & _ & H3 & _).
  destruct (getCircuitBreaker _ c) as [cb c1]. simpl in H3.
  destruct result as [v|err]; simpl; [by rewrite H3|].
  destruct (breakerFailure now cb) as [cb' [t|]]; simpl; by rewrite H3.
Qed.

(** X3.  A request whose id can be computed and that passes the gate
    online is registered as in flight under its id; while it is in flight
    an identical request that is not optimistic gets its promise instead of
    a second call; and when it settles, with either outcome, the set of
    requests in flight is what it was before.  A request whose id cannot be
    computed fails with the error of [generateRequestId] and leaves the
    client as it is. *)
Theorem in_flight_round_trip url config now now' result (c : Client) :
  isOnline c = true ->
  cb_state (breakerOf (endpointOf' url) c) <> OPEN ->
  (forall id, generateRequestId url config = Some id ->
              id ∉ inFlightRequests c) ->
  let c1 := (request_begin' url config now c).2 in
  match generateRequestId url config with
  | None => request_begin' url config now c = (RequestIdError, c)
  | Some id =>
      (request_begin' url config now c).1
      = Started id (fullUrlOf API_URL url)
      /\ id ∈ inFlightRequests c1
      /\ (cfg_optimistic config = false ->
          forall now2,
            request_begin' url config now2 c1 = (Deduplicated id, c1))
      /\ inFlightRequests (request_finish' url config result now' c1).1
         = inFlightRequests c
  end.
Proof.
  intros Hon Hopen Hid c1. unfold c1.
  pose proof (request_begin_cases url config now c) as Hcases.
  pose proof (request_finish_inFlight url config result now'
                (request_begin' url config now c).2) as Hfin.
  pose proof (fun now2 => request_begin_cases url config now2
                (request_begin' url config now c).2) as Hagain.
  unfold deduplicates in *.
  destruct (generateRequestId url config) as [id|]; [|done].
  specialize (Hid id eq_refl).
  rewrite bool_decide_eq_false_2 in Hcases by done.
  cbv zeta in Hcases. simpl in Hcases.
  rewrite decide_False, Hon in Hcases by done.
  rewrite Hcases in *. cbn [fst snd] in *.
  destruct (getCircuitBreaker_spec (endpointOf' url) c)
    as (_ & _ & H3 & _).
  assert (Hin : id ∈ {[id]} ∪ inFlightRequests c).
  { rewrite elem_of_union, elem_of_singleton. by left. }
  split; [done|]. split; [done|]. split.
  - intros Hopt now2. rewrite Hagain. cbn [inFlightRequests setInFlight].
    rewrite Hopt. by rewrite bool_decide_eq_true_2.
  - rewrite Hfin. cbn [inFlightRequests setInFlight].
    apply set_eq. intros x.
    rewrite elem_of_difference, elem_of_union, elem_of_singleton.
    split; [intros [[->|Hx] Hne]; done|].
    intros Hx. split; [by right|]. intros ->. done.
Qed.

(** X4.  A request made offline, with its breaker not open, its id
    computed and no identical request in flight, is put into the queue (if
    the id of its full URL can be computed as well) and not into the set of
    requests in flight; so an identical request made next is not answered
    from the first one but queued as well.  If the id of the full URL
    cannot be computed, the request fails with the error of
    [generateRequestId] and nothing is queued. *)
Theorem offline_requests_are_queued_not_deduplicated
    url config now now2 (c : Client) (id : string) :
  isOnline c = false ->
  cb_state (breakerOf (endpointOf' url) c) <> OPEN ->
  generateRequestId url config = Some id ->
  deduplicates generateRequestId url config c = false ->
  let c1 := (request_begin' url config now c).2 in
  let c2 := (request_begin' url config now2 c1).2 in
  match generateRequestId (fullUrlOf API_URL url) config with
  | None =>
      (request_begin' url config now c).1 = RequestIdError
      /\ inFlightRequests c1 = inFlightRequests c
      /\ requestQueue c1 = requestQueue c
  | Some queuedId =>
      let queued (time : Z) :=
        {| qr_id := queuedId; qr_url := fullUrlOf API_URL url;
           qr_config := config;
           qr_priority := default NORMAL (cfg_priority config);
           qr_timestamp := time |} in
      (request_begin' url config now c).1 = Queued (queued now)
      /\ inFlightRequests c1 = inFlightRequests c
      /\ requestQueue c1 = insertQueued (queued now) (requestQueue c)
      /\ (request_begin' url config now2 c1).1 = Queued (queued now2)
      /\ length (requestQueue c2) = S (S (length (requestQueue c)))
  end.
Proof.
  intros Hoff Hopen Hid Hd c1 c2.
  destruct (getCircuitBreaker_spec (endpointOf' url) c)
    as (_ & H2 & H3 & H4 & H5 & _).
  pose proof (request_begin_cases url config now c) as E1.
  rewrite Hid, Hd, Hoff in E1. cbv zeta in E1.
  rewrite decide_False in E1 by done.
  unfold queuedOf, queueRequest in E1.
  destruct (generateRequestId (fullUrlOf API_URL url) config)
    as [queuedId|] eqn:Hq; simpl in E1.
  2:{ unfold c1. rewrite E1. simpl. by rewrite H3, H4. }
  intros queued. fold (queued now) in E1.
  assert (Hd1 : deduplicates generateRequestId url config c1 = false).
  { unfold c1. rewrite E1. unfold deduplicates in *. rewrite Hid in *.
    simpl. by rewrite H3. }
  assert (Hopen1 : cb_state (breakerOf (endpointOf' url) c1) <> OPEN).
  { unfold c1.
    by rewrite (proj1 (request_begin_breakerOf url config now c _)). }
  assert (Hoff1 : isOnline c1 = false).
  { unfold c1. rewrite E1. simpl. by rewrite H5. }
  assert (Hq1 : requestQueue c1 = insertQueued (queued now) (requestQueue c)).
  { unfold c1. by rewrite E1. }
  assert (Hlen : forall x l, length (insertQueued x l) = S (length l)).
  { intros x l.
    destruct (QueueFacts.insertQueued_split x l) as (l1 & l2 & -> & -> & _).
    rewrite !length_app. simpl. lia. }
  pose proof (request_begin_cases url config now2 c1) as E2.
  rewrite Hid, Hd1, Hoff1 in E2. cbv zeta in E2.
  rewrite decide_False in E2 by done.
  unfold queuedOf, queueRequest in E2. rewrite Hq in E2. simpl in E2.
  fold (queued now2) in E2.
  split; [by rewrite E1|]. split; [unfold c1; rewrite E1; by simpl|].
  split; [done|]. split; [by rewrite E2|].
  unfold c2. rewrite E2. simpl. by rewrite Hlen, Hq1, Hlen.
Qed.

(** X5.  [reset] forgets every breaker, drops the queue and the requests
    in flight; the next request whose id can be computed is therefore
    started (or queued, offline) whatever state the breaker of its endpoint
    was in. *)
Theorem reset_reopens_the_gate url config now (c : Client) :
  (forall e, breakerOf e (reset c) = freshBreaker)
  /\ requestQueue (reset c) = []
  /\ inFlightRequests (reset c) = ∅
  /\ (request_begin' url config now (reset c)).1
     = match generateRequestId url config with
       | None => RequestIdError
       | Some id =>
           if isOnline c then Started id (fullUrlOf API_URL url)
           else match queuedOf' (fullUrlOf API_URL url, config, now) with
                | Some q => Queued q
                | None => RequestIdError
                end
       end.
Proof.
  split; [done|]. split; [done|]. split; [done|].
  rewrite request_begin_cases. unfold deduplicates. simpl.
  destruct (generateRequestId url config) as [id|]; [|done].
  rewrite bool_decide_eq_false_2 by apply not_elem_of_empty. simpl.
  rewrite decide_False by done. destruct (isOnline c); [done|].
  by destruct (fst <$> _).
Qed.

(** *** Queue accounting *)

Lemma insertQueued_perm (x : QueuedRequest) (l : list QueuedRequest) :
  insertQueued x l ≡ₚ x :: l.
Proof.
  destruct (QueueFacts.insertQueued_split x l) as (l1 & l2 & -> & -> & _).
  by rewrite Permutation_middle.
Qed.

Lemma clientStep_client ev (c : Client) (p1 p2 : list QueuedRequest) :
  (clientStep' ev (c, p1)).1 = (clientStep' ev (c, p2)).1.
Proof.
  destruct ev; simpl; try done.
  by destruct (queueProcessorTick c) as [[r|] c'].
Qed.

(** X6.  Without a reset, no queued request is lost, invented or handed
    over twice: what the queue processor has handed to the retry loop,
    together with what is still queued, is the requests that were queued,
    up to order. *)
Theorem queue_conserves_requests (evs : list ClientEvent) (c : Client)
    (processed : list QueuedRequest) :
  Forall (fun ev => isReset ev = false) evs ->
  let s := clientRun' evs (c, processed) in
  s.2 ++ requestQueue s.1
  ≡ₚ processed ++ requestQueue c
     ++ queuedDuring generateRequestId extractEndpoint API_URL evs c.
Proof.
  intros Hevs. cbv zeta. revert c processed.
  induction Hevs as [|ev evs Hev Hevs IH]; intros c processed.
  - simpl. by rewrite app_nil_r.
  - simpl clientRun. simpl queuedDuring.
    destruct ev as [url config now|url config result now|endpoint| | | |];
      simpl in Hev; try discriminate.
    + simpl clientStep.
      rewrite (request_begin_cases url config now c).
      destruct (getCircuitBreaker_spec (endpointOf' url) c)
        as (_ & _ & _ & H4 & _).
      destruct (generateRequestId url config) as [id|];
        cbn -[getCircuitBreaker insertQueued queuedDuring clientRun queuedOf];
        [|by rewrite IH].
      destruct (deduplicates _ _ _ _);
        cbn -[getCircuitBreaker insertQueued queuedDuring clientRun queuedOf];
        [by rewrite IH|].
      destruct (decide _);
        cbn -[getCircuitBreaker insertQueued queuedDuring clientRun queuedOf];
        [by rewrite IH, H4|].
      destruct (isOnline c);
        cbn -[getCircuitBreaker insertQueued queuedDuring clientRun queuedOf].
      { rewrite IH. cbn -[getCircuitBreaker insertQueued queuedDuring queuedOf].
        by rewrite H4. }
      destruct (queuedOf' (fullUrlOf API_URL url, config, now)) as [q|];
        cbn -[getCircuitBreaker insertQueued queuedDuring clientRun queuedOf];
        [|by rewrite IH, H4].
      rewrite IH. cbn -[getCircuitBreaker insertQueued queuedDuring queuedOf].
      apply Permutation_app_head.
      etrans; [apply Permutation_app_tail, insertQueued_perm|].
      simpl. apply Permutation_middle.
    + simpl clientStep. rewrite IH.
      by rewrite QueueFacts.request_finish_queue.
    + simpl clientStep. rewrite IH.
      by rewrite QueueFacts.recoveryTimerFires_queue.
    + simpl clientStep. unfold queueProcessorTick.
      destruct (_ || _); simpl; [by rewrite IH|].
      destruct (requestQueue c) as [|r rest] eqn:Hq; simpl.
      * rewrite IH. by rewrite Hq.
      * rewrite IH. simpl. by rewrite <- !app_assoc.
    + simpl clientStep. by rewrite IH.
    + simpl clientStep. by rewrite IH.
Qed.

End Client.


Lemma in_flight_round_trip_witness :
  let begin := request_begin generateRequestId extractEndpoint API_URL in
  let c1 := (begin "/api/threads/1" plainGet 0 (newClient true)).2 in
  "R0VUOi9hcGkvdGhyZWFkcy8xOnt9" ∈ inFlightRequests c1
  /\ begin "/api/threads/1" plainGet 1 c1
     = (Deduplicated "R0VUOi9hcGkvdGhyZWFkcy8xOnt9", c1)
  /\ inFlightRequests
       (request_finish generateRequestId extractEndpoint API_URL
                       "/api/threads/1" plainGet (Ok "[]") 2 c1).1
     = inFlightRequests (newClient true).
Proof.
  intros begin c1.
  pose proof (in_flight_round_trip generateRequestId extractEndpoint API_URL
                "/api/threads/1" plainGet 0 2 (Ok "[]") (newClient true)
                eq_refl ltac:(vm_compute; discriminate)
                ltac:(intros id _; apply not_elem_of_empty)) as H.
  change (generateRequestId "/api/threads/1" plainGet)
    with (Some "R0VUOi9hcGkvdGhyZWFkcy8xOnt9") in H.
  destruct H as (_ & Hin & Hdup & Hback).
  split; [exact Hin|]. split; [|exact Hback].
  apply (Hdup eq_refl 1).
Defined.

Lemma offline_requests_are_queued_not_deduplicated_witness :
  let begin := request_begin generateRequestId extractEndpoint API_URL in
  let c1 := (begin "/api/threads/1" plainGet 0 (newClient false)).2 in
  inFlightRequests c1 = inFlightRequests (newClient false)
  /\ length (requestQueue (begin "/api/threads/1" plainGet 1 c1).2) = 2%nat.
Proof.
  intros begin c1.
  pose proof (offline_requests_are_queued_not_deduplicated
                generateRequestId extractEndpoint API_URL
                "/api/threads/1" plainGet 0 1 (newClient false)
                "R0VUOi9hcGkvdGhyZWFkcy8xOnt9"
                eq_refl ltac:(vm_compute; discriminate)
                ltac:(vm_compute; reflexivity) eq_refl) as H.
  cbv zeta in H.
  change (generateRequestId (fullUrlOf API_URL "/api/threads/1") plainGet)
    with (Some "R0VUOmh0dHBzOi8vYXBpLmV4YW1wbGUuY29tL2FwaS90aHJlYWRzLzE6e30")
    in H.
  destruct H as (_ & Hin & _ & _ & Hlen).
  split; [exact Hin|exact Hlen].
Defined.

Lemma queue_conserves_requests_witness :
  let evs := [EvOffline;
              EvRequest "/api/threads/1" plainGet 1;
              EvRequest "/api/agents/1" plainGet 2;
              EvOnline; EvQueueTick;
              EvRequest "/api/agents/1" plainGet 3] in
  let s := clientRun generateRequestId extractEndpoint API_URL evs
                     (newClient true, []) in
  s.2 ++ requestQueue s.1
  ≡ₚ [] ++ requestQueue (newClient true)
     ++ queuedDuring generateRequestId extractEndpoint API_URL evs
                     (newClient true).
Proof.
  intros evs.
  apply (queue_conserves_requests generateRequestId extractEndpoint API_URL
           evs (newClient true) []).
  repeat constructor.
Defined.

(** *** Retries *)

(** The loop on an outside world in which every attempt throws the same
    error: one, two or three attempts, as the retry condition decides. *)
Lemma retryLoop_always_failing (retryConfig : RetryConfig) (e : JsError)
    (random : Z -> Q) (condition : JsError -> Z -> Verdict)
    (retries : Z -> bool) :
  maxAttempts retryConfig = Num 3 ->
  retryCondition retryConfig = Some condition ->
  (forall attempt, condition e attempt = Answers (retries attempt)) ->
  exists ex,
    retryLoop (always (Err e)) random 4 retryConfig 1 None [] [] = Some ex
    /\ ex_outcome ex = Thrown e
    /\ ex_attempts ex
       = if retries 1 then if retries 2 then [1; 2; 3] else [1; 2]
         else [1].
Proof.
  intros Hmax Hc Hr. unfold always.
  cbn [retryLoop]. cbv beta. rewrite Hmax, Hc.
  change (int_leb 1 (Num 3)) with true.
  change (int_ltb 1 (Num 3)) with true. cbv iota. rewrite !Hr.
  destruct (retries 1); [|eexists; repeat split].
  change (increment 1) with 2.
  change (int_leb 2 (Num 3)) with true.
  change (int_ltb 2 (Num 3)) with true. cbv iota.
  destruct (retries 2); [|eexists; repeat split].
  change (increment 2) with 3.
  change (int_leb 3 (Num 3)) with true.
  change (int_ltb 3 (Num 3)) with false. cbv iota.
  eexists; repeat split.
Qed.

(** What the default retry condition answers. *)
Lemma default_retryCondition :
  exists condition,
    retryCondition DEFAULT_RETRY_CONFIG = Some condition
    /\ forall e attempt,
         condition e attempt
         = Answers
             (if bool_decide (err_name e = "NetworkError")
                 || bool_decide (err_name e = "TimeoutError") then true
              else match err_status e with
                   | Some status => (500 <=? status) || (status =? 429)
                   | None => attempt <? 2
                   end).
Proof. by eexists. Qed.

Lemma executeRequest_always_failing (e : JsError) (random : Z -> Q)
    (fuel : nat) :
  (3 < fuel)%nat ->
  let retries (attempt : Z) :=
    if bool_decide (err_name e = "NetworkError")
       || bool_decide (err_name e = "TimeoutError") then true
    else match err_status e with
         | Some status => (500 <=? status) || (status =? 429)
         | None => attempt <? 2
         end in
  exists ex,
    executeRequest (always (Err e)) random fuel plainGet = Some ex
    /\ ex_outcome ex = Thrown e
    /\ ex_attempts ex
       = if retries 1 then if retries 2 then [1; 2; 3] else [1; 2]
         else [1].
Proof.
  intros Hfuel retries.
  destruct default_retryCondition as (condition & Hc & Hr).
  destruct (retryLoop_always_failing DEFAULT_RETRY_CONFIG e random
              condition retries eq_refl Hc (Hr e))
    as (ex & Hex & Ho & Ha).
  exists ex. split; [|done].
  unfold executeRequest.
  eapply RetryFacts.retryLoop_mono; [exact Hex|lia].
Qed.

(** X7.  With the default retry configuration and every attempt of
    [performRequest] ending the same way: a response that is not [ok] is
    tried three times when its status is 500 or above or 429, and once
    otherwise; a request whose abort signal is set is tried three times and
    ends in a timeout error; a failed [fetch] is tried three times and ends
    in a network error; any other thrown error without a status is tried
    twice.  The error of the last attempt is what is thrown. *)
Theorem default_retry_policy (random : Z -> Q) (fuel : nat) :
  (3 < fuel)%nat ->
  let run block aborted :=
    executeRequest (always (performRequest block aborted)) random fuel
                   plainGet in
  (forall status statusText,
     exists ex, run (ResponseNotOk status statusText) false = Some ex
       /\ ex_outcome ex = Thrown (httpError status statusText)
       /\ ex_attempts ex = if (500 <=? status) || (status =? 429)
                           then [1; 2; 3] else [1])
  /\ (forall status statusText,
        exists ex, run (ResponseNotOk status statusText) true = Some ex
          /\ ex_outcome ex = Thrown timeoutError
          /\ ex_attempts ex = [1; 2; 3])
  /\ (forall isTypeError error,
        exists ex, run (BlockThrows isTypeError error) true = Some ex
          /\ ex_outcome ex = Thrown timeoutError
          /\ ex_attempts ex = [1; 2; 3])
  /\ (forall error,
        AgentStream.includes "fetch" (err_message error) = true ->
        exists ex, run (BlockThrows true error) false = Some ex
          /\ ex_outcome ex = Thrown networkError
          /\ ex_attempts ex = [1; 2; 3])
  /\ (forall error,
        err_status error = None ->
        err_name error <> "NetworkError" ->
        err_name error <> "TimeoutError" ->
        exists ex, run (BlockThrows false error) false = Some ex
          /\ ex_outcome ex = Thrown error
          /\ ex_attempts ex = [1; 2]).
Proof.
  intros Hfuel run. unfold run.
  split; [|split; [|split; [|split]]].
  - intros status statusText.
    destruct (executeRequest_always_failing
                (httpError status statusText) random fuel Hfuel)
      as (ex & Hex & Ho & Ha).
    exists ex. split; [done|]. split; [done|]. rewrite Ha.
    cbn [err_name err_status httpError].
    rewrite !bool_decide_eq_false_2 by done. cbn [orb].
    by destruct ((500 <=? status) || (status =? 429)).
  - intros status statusText.
    destruct (executeRequest_always_failing timeoutError random fuel Hfuel)
      as (ex & Hex & Ho & Ha). by exists ex.
  - intros isTypeError error.
    destruct (executeRequest_always_failing timeoutError random fuel Hfuel)
      as (ex & Hex & Ho & Ha). by exists ex.
  - intros error Hfetch.
    destruct (executeRequest_always_failing networkError random fuel Hfuel)
      as (ex & Hex & Ho & Ha).
    exists ex. unfold performRequest, catchBlock. rewrite Hfetch. done.
  - intros error Hs Hn Ht.
    destruct (executeRequest_always_failing error random fuel Hfuel)
      as (ex & Hex & Ho & Ha).
    exists ex. split; [done|]. split; [done|]. rewrite Ha.
    rewrite !bool_decide_eq_false_2 by done. by rewrite Hs.
Qed.

(** The retry policy at concrete inputs: a 503 and a 404 response. *)
Lemma default_retry_policy_witness :
  let run block :=
    executeRequest (always (performRequest block false)) (fun _ => 1 # 2) 4
                   plainGet in
  (exists ex, run (ResponseNotOk 503 "Service Unavailable") = Some ex
     /\ ex_attempts ex = [1; 2; 3])
  /\ (exists ex, run (ResponseNotOk 404 "Not Found") = Some ex
        /\ ex_attempts ex = [1]).
Proof.
  intros run.
  destruct (default_retry_policy (fun _ => 1 # 2) 4 ltac:(vm_compute; lia))
    as (Hhttp & _).
  split.
  - destruct (Hhttp 503 "Service Unavailable") as (ex & Hex & _ & Ha).
    exists ex. split; [exact Hex|exact Ha].
  - destruct (Hhttp 404 "Not Found") as (ex & Hex & _ & Ha).
    exists ex. split; [exact Hex|exact Ha].
Defined.

(** *** Backoff *)

Lemma defaultExponentialDelay_pos (attempt : Z) :
  (0 < defaultExponentialDelay attempt)%Q.
Proof.
  unfold defaultExponentialDelay.
  assert (H : (0 < 2 ^ (attempt - 1))%Q) by (by apply Qpower_0_lt).
  nra.
Qed.

Lemma defaultExponentialDelay_succ (attempt : Z) :
  (defaultExponentialDelay (attempt + 1)
   == 2 * defaultExponentialDelay attempt)%Q.
Proof.
  unfold defaultExponentialDelay.
  replace (attempt + 1 - 1) with ((attempt - 1) + 1) by lia.
  rewrite Qpower_plus by done. change (2 ^ 1)%Q with 2%Q. ring.
Qed.

Lemma defaultExponentialDelay_first (attempt : Z) :
  1 <= attempt -> (1000 <= defaultExponentialDelay attempt)%Q.
Proof.
  intros Ha. unfold defaultExponentialDelay.
  assert (H : (1 <= 2 ^ (attempt - 1))%Q)
    by (apply Qpower_1_le; [done|lia]).
  nra.
Qed.

(** The default delay is the jittered exponential delay, capped; the
    clamp at zero never acts. *)
Lemma default_delay_is_capped_jitter (attempt : Z) (r : Q) :
  (0 <= r <= 1)%Q ->
  let e := defaultExponentialDelay attempt in
  (calculateRetryDelay attempt DEFAULT_RETRY_CONFIG r
   == Qmin (e + e * (1 # 10) * (r * 2 - 1)) 30000)%Q.
Proof.
  intros [H0 H1] e.
  change (calculateRetryDelay attempt DEFAULT_RETRY_CONFIG r)
    with (Qmax (Qmin (e + e * (1 # 10) * (r * 2 - 1)) 30000) 0).
  apply Q.max_l. apply Q.min_glb; [|done].
  pose proof (defaultExponentialDelay_pos attempt) as He. fold e in He.
  nra.
Qed.

(** X8.  Backoff of the default configuration, for one of the first
    thousand attempts and a [Math.random()] value in the unit interval: the
    delay before the next attempt lies within ten percent of
    [1000 * 2 ^ (attempt - 1)], both ends capped at 30000; it is at least
    900; and whatever the random values, the delay after a later attempt is
    never shorter than the one after an earlier attempt.  (Up to the
    thousandth attempt the doubles of the code hold [1000 * 2 ^ (attempt -
    1)] and the two ends of the band exactly, so the rounding of the jitter
    stays inside the band.) *)
Theorem default_backoff_band_and_growth (attempt : Z) (r r' : Q) :
  1 <= attempt <= 1000 ->
  (0 <= r <= 1)%Q ->
  (0 <= r' <= 1)%Q ->
  let e := defaultExponentialDelay attempt in
  let d := calculateRetryDelay attempt DEFAULT_RETRY_CONFIG r in
  (Qmin ((9 # 10) * e) 30000 <= d)%Q
  /\ (d <= Qmin ((11 # 10) * e) 30000)%Q
  /\ (900 <= d)%Q
  /\ (d <= calculateRetryDelay (attempt + 1) DEFAULT_RETRY_CONFIG r')%Q.
Proof.
  intros [Ha _] Hr Hr' e d. unfold d.
  rewrite (default_delay_is_capped_jitter attempt r Hr).
  rewrite (default_delay_is_capped_jitter (attempt + 1) r' Hr').
  cbv zeta. fold e.
  pose proof (defaultExponentialDelay_first attempt Ha) as He. fold e in He.
  pose proof (defaultExponentialDelay_succ attempt) as He'. fold e in He'.
  set (e' := defaultExponentialDelay (attempt + 1)) in *.
  destruct Hr as [H0 H1], Hr' as [H0' H1'].
  split; [|split; [|split]].
  - apply Q.min_le_compat_r. nra.
  - apply Q.min_le_compat_r. nra.
  - apply Q.min_glb; [nra|done].
  - apply Q.min_le_compat_r. nra.
Qed.

(** The backoff band at concrete inputs: the second attempt. *)
Lemma default_backoff_band_and_growth_witness :
  let d := calculateRetryDelay 2 DEFAULT_RETRY_CONFIG (1 # 2) in
  (Qmin ((9 # 10) * defaultExponentialDelay 2) 30000 <= d)%Q
  /\ (d <= Qmin ((11 # 10) * defaultExponentialDelay 2) 30000)%Q
  /\ (900 <= d)%Q
  /\ (d <= calculateRetryDelay (2 + 1) DEFAULT_RETRY_CONFIG 0)%Q.
Proof.
  apply (default_backoff_band_and_growth 2 (1 # 2) 0).
  - lia.
  - split; vm_compute; discriminate.
  - split; vm_compute; discriminate.
Defined.

(** *** Latency metrics *)

(** Latencies of one endpoint recorded one after the other. *)
Lemma recordLatency_other (endpoint other : string) (latency : Z)
    (m : gmap string RequestMetrics) :
  other <> endpoint -> recordLatency endpoint latency m !! other = m !! other.
Proof.
  intros Hne. unfold recordLatency.
  destruct (m !! endpoint); by rewrite lookup_insert_ne.
Qed.

(** A weighted mean of numbers between two bounds lies between them. *)
Lemma mean_between (avg : Q) (count latency lo hi : Z) :
  0 < count ->
  (inject_Z lo <= avg <= inject_Z hi)%Q ->
  lo <= latency <= hi ->
  (inject_Z lo
   <= (avg * inject_Z count + inject_Z latency) / (inject_Z count + 1)
   <= inject_Z hi)%Q.
Proof.
  intros Hc [Hlo Hhi] [Hl Hh].
  assert (Hk : (0 < inject_Z count)%Q).
  { change 0%Q with (inject_Z 0). by rewrite <- Zlt_Qlt. }
  assert (Hk1 : (0 < inject_Z count + 1)%Q) by lra.
  rewrite Zle_Qle in Hl, Hh.
  split.
  - apply Qle_shift_div_l; [done|]. nra.
  - apply Qle_shift_div_r; [done|]. nra.
Qed.

Lemma recordLatency_running (endpoint : string) (ls : list Z) (l lo hi : Z)
    (m : gmap string RequestMetrics) :
  m !! endpoint = None ->
  Forall (fun x => lo <= x <= hi) (l :: ls) ->
  exists metrics,
    foldl (fun m l => recordLatency endpoint l m) m (l :: ls) !! endpoint
      = Some metrics
    /\ requestCount metrics = Z.of_nat (length (l :: ls))
    /\ (inject_Z lo <= averageLatency metrics <= inject_Z hi)%Q.
Proof.
  intros Hm. induction ls as [|x ls IH] using rev_ind; intros Hall.
  - inversion Hall as [|? ? Hl _]; subst.
    simpl. unfold recordLatency. rewrite Hm, lookup_insert_eq.
    eexists. split; [done|]. split; [done|]. simpl.
    by rewrite <- !Zle_Qle.
  - change (l :: ls ++ [x]) with ((l :: ls) ++ [x]) in *.
    apply Forall_app in Hall as [Hall Hx].
    inversion Hx as [|? ? Hx' _]; subst.
    destruct (IH Hall) as (metrics & Hlook & Hcount & Havg).
    rewrite foldl_app.
    set (m1 := foldl _ m (l :: ls)) in *. cbn [foldl].
    unfold recordLatency. rewrite Hlook, lookup_insert_eq.
    eexists. split; [done|]. cbn [requestCount averageLatency].
    split.
    + rewrite Hcount, length_app. simpl. lia.
    + apply mean_between; [|done|done]. rewrite Hcount. simpl. lia.
Qed.

(** X9.  After the latencies [ls] (not empty) of one endpoint have been
    recorded on a client that had no metrics for it: the endpoint's request
    count is the number of latencies, its average latency lies between the
    smallest and the largest of them, and the metrics of every other
    endpoint are untouched.  (The latencies are integers; as long as the
    number of latencies, and that number times their largest magnitude,
    stay within [2 ^ 53], the doubles of the code hold the count and the
    products and sums of the bounds exactly, so the rounding of the
    average stays between the bounds.) *)
Theorem recordLatency_count_and_range (endpoint : string) (ls : list Z)
    (lo hi : Z) (m : gmap string RequestMetrics) :
  m !! endpoint = None ->
  ls <> [] ->
  Forall (fun l => lo <= l <= hi) ls ->
  Z.of_nat (length ls) * Z.max 1 (Z.max (Z.abs lo) (Z.abs hi)) <= 2 ^ 53 ->
  let m' := foldl (fun m l => recordLatency endpoint l m) m ls in
  (exists metrics,
     m' !! endpoint = Some metrics
     /\ requestCount metrics = Z.of_nat (length ls)
     /\ (inject_Z lo <= averageLatency metrics <= inject_Z hi)%Q)
  /\ (forall other, other <> endpoint -> m' !! other = m !! other).
Proof.
  intros Hm Hls Hall _ m'. split.
  - destruct ls as [|l ls]; [done|].
    by apply recordLatency_running.
  - intros other Hne. unfold m'. clear Hm Hls Hall m'. revert m.
    induction ls as [|l ls IH]; intros m; [done|].
    simpl. rewrite IH. by apply recordLatency_other.
Qed.

(** The metrics at concrete inputs: three latencies of one endpoint. *)
Lemma recordLatency_count_and_range_witness :
  exists metrics,
    foldl (fun m l => recordLatency "api/threads" l m) ∅ [120; 80; 101]
      !! "api/threads" = Some metrics
    /\ requestCount metrics = 3
    /\ (80 <= averageLatency metrics <= 120)%Q.
Proof.
  destruct (recordLatency_count_and_range "api/threads" [120; 80; 101]
              80 120 ∅)
    as ((metrics & Hlook & Hcount & Havg) & _).
  - apply lookup_empty.
  - discriminate.
  - repeat constructor; lia.
  - vm_compute. discriminate.
  - exists metrics. split; [exact Hlook|]. split; [exact Hcount|].
    exact Havg.
Defined.

End ApiClientMoreFacts.

(** ** The stream hook: monitoring and reconnection *)

Module AgentStreamMoreFacts.

Import AgentStream AgentStreamMore.

(** *** The reconnect delay *)

(** X10.  The delay before a reconnect, for an attempt number that is not
    negative and a [Math.random()] value in the unit interval: its base is
    [1000 * 2 ^ min(attempt, 4)], the delay lies between the base and 1.3
    times the base, so between one second and 20.8 seconds; from the
    fourth attempt on the base no longer grows. *)
Theorem reconnect_delay_band (attempt : Z) (random : Q) :
  0 <= attempt ->
  (0 <= random <= 1)%Q ->
  exists baseDelay delay,
    RECONNECT_DELAYS !! Z.to_nat (Z.min attempt 4) = Some baseDelay
    /\ calculateRetryDelay attempt random = Some delay
    /\ (baseDelay == 1000 * 2 ^ Z.min attempt 4)%Q
    /\ (baseDelay <= delay)%Q
    /\ (delay <= (13 # 10) * baseDelay)%Q
    /\ (1000 <= delay)%Q
    /\ (delay <= 20800)%Q.
Proof.
  intros Ha [H0 H1]. unfold calculateRetryDelay.
  change (Z.of_nat (length RECONNECT_DELAYS) - 1) with 4.
  assert (Hk : Z.min attempt 4 = 0 \/ Z.min attempt 4 = 1
               \/ Z.min attempt 4 = 2 \/ Z.min attempt 4 = 3
               \/ Z.min attempt 4 = 4) by lia.
  destruct Hk as [-> | [-> | [-> | [-> | ->]]]];
    cbn [Z.ltb Z.compare Z.to_nat Pos.to_nat Pos.iter_op Nat.add
         RECONNECT_DELAYS lookup list_lookup];
    eexists _, _; (split; [reflexivity|]); (split; [reflexivity|]);
    (split; [vm_compute; reflexivity|]);
    repeat split; nra.
Qed.

(** The delay band at concrete inputs: the seventh attempt. *)
Lemma reconnect_delay_band_witness :
  exists baseDelay delay,
    RECONNECT_DELAYS !! Z.to_nat (Z.min 7 4) = Some baseDelay
    /\ calculateRetryDelay 7 (1 # 2) = Some delay
    /\ (baseDelay == 1000 * 2 ^ Z.min 7 4)%Q
    /\ (baseDelay <= delay)%Q
    /\ (delay <= (13 # 10) * baseDelay)%Q
    /\ (1000 <= delay)%Q
    /\ (delay <= 20800)%Q.
Proof.
  apply (reconnect_delay_band 7 (1 # 2)).
  - lia.
  - split; vm_compute; discriminate.
Defined.

(** *** Classifying errors *)

Lemma lower_ascii_idemp (a : ascii) :
  lower_ascii (lower_ascii a) = lower_ascii a.
Proof. destruct a as [[] [] [] [] [] [] [] []]; reflexivity. Qed.

Lemma toLowerCase_idemp (s : string) :
  toLowerCase (toLowerCase s) = toLowerCase s.
Proof.
  induction s as [|a s IH]; [done|].
  cbn [toLowerCase]. by rewrite lower_ascii_idemp, IH.
Qed.

(** X11.  [classifyError]: an error is classified as not recoverable
    exactly when its severity is critical, which is exactly when its type
    is billing or auth; no error has severity low; the classification does
    not depend on the case of the letters; and a message that mentions the
    network or a connection is a recoverable network error whatever else
    it mentions. *)
Theorem classifyError_classes (error : string) :
  let '(type, severity, recoverable) := classifyError error in
  (recoverable = false <-> severity = critical)
  /\ (severity = critical <-> type = "billing" \/ type = "auth")
  /\ severity <> low
  /\ classifyError (toLowerCase error) = (type, severity, recoverable)
  /\ ((includes "network" (toLowerCase error)
       || includes "connection" (toLowerCase error)) = true ->
      (type, severity, recoverable) = ("network", medium, true)).
Proof.
  assert (Hcase : classifyError (toLowerCase error) = classifyError error).
  { unfold classifyError. by rewrite toLowerCase_idemp. }
  rewrite Hcase. unfold classifyError.
  destruct (includes "network" (toLowerCase error)
            || includes "connection" (toLowerCase error));
    [|destruct (includes "timeout" (toLowerCase error));
      [|destruct (includes "rate limit" (toLowerCase error));
        [|destruct (includes "billing" (toLowerCase error)
                    || includes "quota" (toLowerCase error));
          [|destruct (includes "authentication" (toLowerCase error))]]]];
    cbv beta iota zeta;
    (split; [split; intros; congruence|]);
    (split; [split; [discriminate || (intros _; auto)
                    |intros [?|?]; congruence]|]);
    (split; [discriminate|]); (split; [reflexivity|]);
    (reflexivity || discriminate).
Qed.

(** *** Progress from status messages *)

Lemma digit_value_nonneg (a : ascii) : is_digit a = true -> 0 <= digit_value a.
Proof.
  unfold is_digit, digit_value. intros [H1 _]%andb_true_iff.
  apply Nat.leb_le in H1. lia.
Qed.

Lemma digitsThenPercent_nonneg (s : string) (acc p : Z) :
  0 <= acc -> digitsThenPercent s acc = Some p -> 0 <= p.
Proof.
  revert acc. induction s as [|a s IH]; intros acc Hacc; [discriminate|].
  cbn [digitsThenPercent]. destruct (is_digit a) eqn:Hd.
  - apply IH. pose proof (digit_value_nonneg a Hd). lia.
  - destruct (bool_decide _); [|discriminate]. by intros [= <-].
Qed.

Lemma percentMatch_nonneg (message : string) (p : Z) :
  percentMatch message = Some p -> 0 <= p.
Proof.
  induction message as [|a s IH]; [discriminate|].
  cbn [percentMatch]. destruct (is_digit a); [|done].
  destruct (digitsThenPercent (String a s) 0) as [q|] eqn:Hq; [|done].
  intros [= <-]. by eapply digitsThenPercent_nonneg, Hq.
Qed.

Lemma percentageOr_pos (matched : option Z) (d : Z) :
  0 < d -> (forall p, matched = Some p -> 0 <= p) ->
  0 < percentageOr matched d
  /\ (matched = Some (percentageOr matched d) \/ percentageOr matched d = d).
Proof.
  intros Hd Hm. unfold percentageOr. destruct matched as [p|]; [|auto].
  specialize (Hm p eq_refl). destruct (Z.eqb_spec p 0); [auto|].
  split; [lia|by left].
Qed.


(** *** The guards' view of the hook *)

(** Split on every condition that the goal tests. *)
Ltac split_tests :=
  repeat match goal with
         | |- context [if ?c then _ else _] => destruct c
         | |- context [match ?o with Some _ => _ | None => _ end] =>
             destruct o
         end.


(** How the operations of the hook act on what its guards read. *)
Lemma coreOf_emit v h : coreOf (emit v h) = coreOf h.
Proof. reflexivity. Qed.
Lemma coreOf_setTextContent v h : coreOf (setTextContent v h) = coreOf h.
Proof. reflexivity. Qed.
Lemma coreOf_setToolCall v h : coreOf (setToolCall v h) = coreOf h.
Proof. reflexivity. Qed.
Lemma coreOf_setError v h : coreOf (setError v h) = coreOf h.
Proof. reflexivity. Qed.
Lemma coreOf_setStreamCleanupRef v h : coreOf (setStreamCleanupRef v h) = coreOf h.
Proof. reflexivity. Qed.
Lemma coreOf_setHeartbeatIntervalRef v h : coreOf (setHeartbeatIntervalRef v h) = coreOf h.
Proof. reflexivity. Qed.
Lemma coreOf_setStatusPollIntervalRef v h : coreOf (setStatusPollIntervalRef v h) = coreOf h.
Proof. reflexivity. Qed.
Lemma coreOf_setStatus v h :
  coreOf (setStatus v h) = withCoreStatus v (coreOf h).
Proof. reflexivity. Qed.
Lemma coreOf_setAgentRunId v h :
  coreOf (setAgentRunId v h) = withAgentRunId v (coreOf h).
Proof. reflexivity. Qed.
Lemma coreOf_setCurrentRunIdRef v h :
  coreOf (setCurrentRunIdRef v h) = withCurrentRunId v (coreOf h).
Proof. reflexivity. Qed.
Lemma coreOf_setIsMountedRef v h :
  coreOf (setIsMountedRef v h) = withMounted v (coreOf h).
Proof. reflexivity. Qed.
Lemma coreOf_setStreamState v h :
  coreOf (setStreamState v h)
  = withRecovery (isRecovering v) (reconnectAttempts (connectionHealth v))
                 (coreOf h).
Proof. reflexivity. Qed.
Lemma coreOf_setRecovery r c h :
  coreOf (setRecovery r c h) = withRecovery r (reconnectAttempts c) (coreOf h).
Proof. reflexivity. Qed.
Lemma coreOf_setQueuePosition q h : coreOf (setQueuePosition q h) = coreOf h.
Proof. reflexivity. Qed.
Lemma coreOf_clearErrors h : coreOf (clearErrors h) = coreOf h.
Proof. reflexivity. Qed.

Lemma coreOf_updateProgress u h : coreOf (updateProgress u h) = coreOf h.
Proof. unfold updateProgress. by destruct (negb (isMountedRef h)). Qed.

Lemma coreOf_updateConnectionHealth u h :
  hu_reconnectAttempts u = None ->
  coreOf (updateConnectionHealth u h) = coreOf h.
Proof.
  intros Hu. unfold updateConnectionHealth.
  destruct (negb (isMountedRef h)); [done|].
  destruct (decide _); unfold coreOf; cbn; by rewrite Hu.
Qed.

Lemma coreOf_addError msg now h : coreOf (addError msg now h) = coreOf h.
Proof.
  unfold addError. destruct (negb (isMountedRef h)); [done|].
  destruct (decide _); [done|]. by destruct (decide _).
Qed.

Lemma coreOf_startHeartbeat h : coreOf (startHeartbeat h) = coreOf h.
Proof. unfold startHeartbeat. by destruct (heartbeatIntervalRef h). Qed.

Lemma coreOf_startStatusPolling h : coreOf (startStatusPolling h) = coreOf h.
Proof.
  unfold startStatusPolling. destruct (negb _); [done|].
  by destruct (statusPollIntervalRef h).
Qed.

Lemma coreOf_onMessageIfId m h : coreOf (onMessageIfId m h) = coreOf h.
Proof. unfold onMessageIfId. by destruct (truthy _). Qed.

Lemma coreOf_unmount h : coreOf (unmount h) = withMounted false (coreOf h).
Proof.
  unfold unmount.
  destruct (heartbeatIntervalRef (setIsMountedRef false h));
    by destruct (statusPollIntervalRef _).
Qed.

(** How they act on the connection health, the text and the effects. *)
Lemma healthOf_emit v h : healthOf (emit v h) = healthOf h.
Proof. reflexivity. Qed.
Lemma healthOf_setStatus v h : healthOf (setStatus v h) = healthOf h.
Proof. reflexivity. Qed.
Lemma healthOf_setTextContent v h : healthOf (setTextContent v h) = healthOf h.
Proof. reflexivity. Qed.
Lemma healthOf_setToolCall v h : healthOf (setToolCall v h) = healthOf h.
Proof. reflexivity. Qed.
Lemma healthOf_setError v h : healthOf (setError v h) = healthOf h.
Proof. reflexivity. Qed.
Lemma healthOf_setStreamCleanupRef v h : healthOf (setStreamCleanupRef v h) = healthOf h.
Proof. reflexivity. Qed.
Lemma healthOf_setHeartbeatIntervalRef v h : healthOf (setHeartbeatIntervalRef v h) = healthOf h.
Proof. reflexivity. Qed.
Lemma healthOf_setStatusPollIntervalRef v h : healthOf (setStatusPollIntervalRef v h) = healthOf h.
Proof. reflexivity. Qed.
Lemma healthOf_setAgentRunId v h : healthOf (setAgentRunId v h) = healthOf h.
Proof. reflexivity. Qed.
Lemma healthOf_setCurrentRunIdRef v h : healthOf (setCurrentRunIdRef v h) = healthOf h.
Proof. reflexivity. Qed.
Lemma healthOf_setIsMountedRef v h : healthOf (setIsMountedRef v h) = healthOf h.
Proof. reflexivity. Qed.

Lemma healthOf_updateProgress u h : healthOf (updateProgress u h) = healthOf h.
Proof. unfold updateProgress. by destruct (negb (isMountedRef h)). Qed.

Lemma healthOf_addError msg now h : healthOf (addError msg now h) = healthOf h.
Proof.
  unfold addError. destruct (negb (isMountedRef h)); [done|].
  destruct (decide _); [done|]. by destruct (decide _).
Qed.

Lemma healthOf_onMessageIfId m h : healthOf (onMessageIfId m h) = healthOf h.
Proof. unfold onMessageIfId. by destruct (truthy _). Qed.

Lemma healthOf_startHeartbeat h : healthOf (startHeartbeat h) = healthOf h.
Proof. unfold startHeartbeat. by destruct (heartbeatIntervalRef h). Qed.

Lemma healthOf_startStatusPolling h :
  healthOf (startStatusPolling h) = healthOf h.
Proof.
  unfold startStatusPolling. destruct (negb _); [done|].
  by destruct (statusPollIntervalRef h).
Qed.

Lemma healthOf_heard now h :
  isMountedRef h = true ->
  healthOf (updateConnectionHealth (heardAt now) h)
  = {| ch_status := healthy; lastHeartbeat := now;
       latency := latency (healthOf h);
       reconnectAttempts := reconnectAttempts (healthOf h) |}.
Proof.
  intros Hm. unfold updateConnectionHealth. rewrite Hm. simpl negb.
  cbv iota. by destruct (decide _).
Qed.

Lemma textContent_updateProgress u h :
  textContent (updateProgress u h) = textContent h.
Proof. unfold updateProgress. by destruct (negb (isMountedRef h)). Qed.

Lemma textContent_updateConnectionHealth u h :
  textContent (updateConnectionHealth u h) = textContent h.
Proof.
  unfold updateConnectionHealth. destruct (negb (isMountedRef h)); [done|].
  by destruct (decide _).
Qed.

Lemma effects_emit e h : effects (emit e h) = effects h ++ [e].
Proof. reflexivity. Qed.
Lemma effects_setStatus v h : effects (setStatus v h) = effects h.
Proof. reflexivity. Qed.
Lemma effects_setStreamCleanupRef v h :
  effects (setStreamCleanupRef v h) = effects h.
Proof. reflexivity. Qed.
Lemma effects_setRecovery r c h : effects (setRecovery r c h) = effects h.
Proof. reflexivity. Qed.
Lemma currentRunIdRef_setRecovery r c h :
  currentRunIdRef (setRecovery r c h) = currentRunIdRef h.
Proof. reflexivity. Qed.
Lemma isMountedRef_setRecovery r c h :
  isMountedRef (setRecovery r c h) = isMountedRef h.
Proof. reflexivity. Qed.

Lemma effects_updateProgress e u h :
  e ∈ effects h -> e ∈ effects (updateProgress u h).
Proof.
  intros He. unfold updateProgress. destruct (negb (isMountedRef h)); [done|].
  cbn [effects setStreamState emit]. apply elem_of_app. by left.
Qed.

Lemma effects_addError e msg now h :
  e ∈ effects h -> e ∈ effects (addError msg now h).
Proof.
  intros He. unfold addError. destruct (negb (isMountedRef h)); [done|].
  destruct (decide _); [|destruct (decide _)];
    cbn [effects setStreamState emit]; rewrite ?elem_of_app; auto.
Qed.

(** How they act on the progress. *)
Lemma progressOf_emit v h : progressOf (emit v h) = progressOf h.
Proof. reflexivity. Qed.
Lemma progressOf_setStatus v h : progressOf (setStatus v h) = progressOf h.
Proof. reflexivity. Qed.
Lemma progressOf_setTextContent v h : progressOf (setTextContent v h) = progressOf h.
Proof. reflexivity. Qed.
Lemma progressOf_setToolCall v h : progressOf (setToolCall v h) = progressOf h.
Proof. reflexivity. Qed.
Lemma progressOf_setError v h : progressOf (setError v h) = progressOf h.
Proof. reflexivity. Qed.
Lemma progressOf_setStreamCleanupRef v h : progressOf (setStreamCleanupRef v h) = progressOf h.
Proof. reflexivity. Qed.
Lemma progressOf_setHeartbeatIntervalRef v h : progressOf (setHeartbeatIntervalRef v h) = progressOf h.
Proof. reflexivity. Qed.
Lemma progressOf_setStatusPollIntervalRef v h : progressOf (setStatusPollIntervalRef v h) = progressOf h.
Proof. reflexivity. Qed.
Lemma progressOf_setAgentRunId v h : progressOf (setAgentRunId v h) = progressOf h.
Proof. reflexivity. Qed.
Lemma progressOf_setCurrentRunIdRef v h : progressOf (setCurrentRunIdRef v h) = progressOf h.
Proof. reflexivity. Qed.
Lemma progressOf_setIsMountedRef v h : progressOf (setIsMountedRef v h) = progressOf h.
Proof. reflexivity. Qed.
Lemma progressOf_setStreamState v h :
  progressOf (setStreamState v h) = progress v.
Proof. reflexivity. Qed.
Lemma progressOf_setRecovery r c h :
  progressOf (setRecovery r c h) = progressOf h.
Proof. reflexivity. Qed.
Lemma progressOf_setQueuePosition q h :
  progressOf (setQueuePosition q h) = progressOf h.
Proof. reflexivity. Qed.
Lemma progressOf_clearErrors h : progressOf (clearErrors h) = progressOf h.
Proof. reflexivity. Qed.

Lemma progressOf_updateConnectionHealth u h :
  progressOf (updateConnectionHealth u h) = progressOf h.
Proof.
  unfold updateConnectionHealth. destruct (negb (isMountedRef h)); [done|].
  by destruct (decide _).
Qed.

Lemma progressOf_addError msg now h :
  progressOf (addError msg now h) = progressOf h.
Proof.
  unfold addError. destruct (negb (isMountedRef h)); [done|].
  destruct (decide _); [done|]. by destruct (decide _).
Qed.

Lemma progressOf_onMessageIfId m h :
  progressOf (onMessageIfId m h) = progressOf h.
Proof. unfold onMessageIfId. by destruct (truthy _). Qed.

Lemma progressOf_startHeartbeat h :
  progressOf (startHeartbeat h) = progressOf h.
Proof. unfold startHeartbeat. by destruct (heartbeatIntervalRef h). Qed.

Lemma progressOf_startStatusPolling h :
  progressOf (startStatusPolling h) = progressOf h.
Proof.
  unfold startStatusPolling. destruct (negb _); [done|].
  by destruct (statusPollIntervalRef h).
Qed.

Lemma progressOf_unmount h : progressOf (unmount h) = progressOf h.
Proof.
  unfold unmount.
  destruct (heartbeatIntervalRef (setIsMountedRef false h));
    by destruct (statusPollIntervalRef _).
Qed.

Create Rewrite HintDb hook_progress.
#[local] Hint Rewrite progressOf_emit progressOf_setStatus
  progressOf_setTextContent progressOf_setToolCall progressOf_setError
  progressOf_setStreamCleanupRef progressOf_setHeartbeatIntervalRef
  progressOf_setStatusPollIntervalRef progressOf_setAgentRunId
  progressOf_setCurrentRunIdRef progressOf_setIsMountedRef
  progressOf_setStreamState progressOf_setRecovery
  progressOf_setQueuePosition progressOf_clearErrors
  progressOf_updateConnectionHealth progressOf_addError
  progressOf_onMessageIfId progressOf_startHeartbeat
  progressOf_startStatusPolling progressOf_unmount : hook_progress.

(** [updateProgress] without a [completedSteps] key keeps the completed
    steps distinct. *)
Lemma updateProgress_stepsDistinct u h :
  pu_completedSteps u = None ->
  stepsDistinct (progressOf h) ->
  stepsDistinct (progressOf (updateProgress u h)).
Proof.
  intros Hu [Hnd Hne]. unfold updateProgress.
  destruct (negb (isMountedRef h)); [done|].
  rewrite progressOf_setStreamState. cbn [progress]. rewrite Hu.
  cbn [default from_option]. fold (progressOf h).
  unfold stepsDistinct. cbn [completedSteps].
  destruct (truthy (pu_currentStep u)
            && negb (bool_decide
                       (pu_currentStep u = Some (currentStep (progressOf h))))
            && negb (bool_decide (currentStep (progressOf h) = ""))
            && negb (bool_decide
                       (currentStep (progressOf h)
                        ∈ completedSteps (progressOf h)))) eqn:Hc;
    [|done].
  apply andb_prop in Hc as [Hc Hin]. apply andb_prop in Hc as [_ Hempty].
  apply negb_true_iff, bool_decide_eq_false in Hin.
  apply negb_true_iff, bool_decide_eq_false in Hempty.
  split.
  - apply NoDup_app. split; [done|]. split; [|apply NoDup_singleton].
    intros x Hx ->%list_elem_of_singleton. done.
  - rewrite elem_of_app, list_elem_of_singleton. intros [?|?]; congruence.
Qed.

Lemma extractProgress_no_steps status message :
  pu_completedSteps (extractProgress status message) = None.
Proof. unfold extractProgress. split_tests; reflexivity. Qed.

Ltac steps_distinct :=
  repeat first
    [ progress autorewrite with hook_progress
    | apply updateProgress_stepsDistinct;
      [first [reflexivity | apply extractProgress_no_steps]|] ].

Create Rewrite HintDb hook_health.
#[local] Hint Rewrite healthOf_emit healthOf_setStatus healthOf_setTextContent
  healthOf_setToolCall healthOf_setError healthOf_setStreamCleanupRef
  healthOf_setHeartbeatIntervalRef healthOf_setStatusPollIntervalRef
  healthOf_setAgentRunId healthOf_setCurrentRunIdRef healthOf_setIsMountedRef
  healthOf_updateProgress healthOf_addError healthOf_onMessageIfId
  healthOf_startHeartbeat healthOf_startStatusPolling : hook_health.

Create Rewrite HintDb hook_core.
#[local] Hint Rewrite coreOf_emit coreOf_setTextContent coreOf_setToolCall
  coreOf_setError coreOf_setStreamCleanupRef coreOf_setHeartbeatIntervalRef
  coreOf_setStatusPollIntervalRef coreOf_setStatus coreOf_setAgentRunId
  coreOf_setCurrentRunIdRef coreOf_setIsMountedRef coreOf_setStreamState
  coreOf_setRecovery coreOf_setQueuePosition coreOf_clearErrors
  coreOf_updateProgress coreOf_addError coreOf_startHeartbeat
  coreOf_startStatusPolling coreOf_onMessageIfId coreOf_unmount : hook_core.
#[local] Hint Rewrite coreOf_updateConnectionHealth using reflexivity
  : hook_core.

(** A message that mentions completion is not parsed. *)
Lemma handleStreamMessage_completed parseMessage parseContent parseMetadata
    rawData now (h : Hook) :
  isMountedRef h = true ->
  includes "completed" (processedDataOf rawData)
  || includes "Stream ended" (processedDataOf rawData) = true ->
  handleStreamMessage parseMessage parseContent parseMetadata rawData now h
  = updateProgress (percentStepUpdate 100 "Completed")
                   (updateConnectionHealth (heardAt now) h).
Proof.
  intros Hm Hc. unfold handleStreamMessage. rewrite Hm. cbn [negb].
  unfold processedDataOf in Hc. cbv zeta.
  destruct (String.prefix "data: " rawData).
  - destruct (bool_decide_reflect (trim (substringFrom 6 rawData) = ""))
      as [He|_]; [by rewrite He in Hc|].
    by rewrite Hc.
  - destruct (bool_decide_reflect (rawData = "")) as [He|_];
      [by rewrite He in Hc|].
    by rewrite Hc.
Qed.

Section Core.

Variable parseMessage : string -> option UnifiedMessage.
Variable parseContent : string -> ParsedContent.
Variable parseMetadata : string -> ParsedMetadata.

Local Abbreviation handleStreamMessage' :=
  (handleStreamMessage parseMessage parseContent parseMetadata).
Local Abbreviation hookStep' :=
  (hookStep parseMessage parseContent parseMetadata).
Local Abbreviation monitorStep' :=
  (monitorStep parseMessage parseContent parseMetadata).
Local Abbreviation monitorRun' :=
  (monitorRun parseMessage parseContent parseMetadata).

(** A stream message changes nothing of what the guards read but the
    status, which stays or becomes ['streaming']. *)
Lemma coreOf_handleStreamMessage rawData now (h : Hook) :
  coreOf (handleStreamMessage' rawData now h) = coreOf h
  \/ coreOf (handleStreamMessage' rawData now h)
     = withCoreStatus "streaming" (coreOf h).
Proof.
  unfold handleStreamMessage, dispatchMessage.
  split_tests; autorewrite with hook_core; auto.
Qed.

Lemma coreOf_startStreaming runId now throws (h : Hook) :
  isMountedRef h = true ->
  coreOf (startStreaming runId now throws h)
  = {| c_mounted := true;
       c_status := match throws with
                   | Some _ => "error"
                   | None => "connecting"
                   end;
       c_agentRunId := Some runId; c_currentRunId := Some runId;
       c_recovering := false; c_attempts := 0 |}.
Proof.
  intros Hm. unfold startStreaming. rewrite Hm. simpl negb. cbv iota.
  destruct throws; autorewrite with hook_core;
    destruct (streamCleanupRef h); autorewrite with hook_core;
    unfold coreOf; rewrite Hm; reflexivity.
Qed.

Lemma startStreaming_unmounted runId now throws (h : Hook) :
  isMountedRef h = false -> startStreaming runId now throws h = h.
Proof. intros Hm. unfold startStreaming. by rewrite Hm. Qed.

Lemma coreOf_stopStreaming throws now (h : Hook) :
  coreOf (stopStreaming throws now h) = coreOf h
  \/ coreOf (stopStreaming throws now h)
     = withCoreStatus "stopped"
         (withCurrentRunId None (withAgentRunId None (coreOf h))).
Proof.
  unfold stopStreaming, stop_begin.
  destruct (negb (isMountedRef h) || negb (truthy (currentRunIdRef h)))
    eqn:Hguard; [by left|].
  destruct (currentRunIdRef h) as [runId|] eqn:Hid;
    [|by rewrite orb_true_r in Hguard].
  cbv iota beta. unfold stop_resolved, stop_rejected.
  destruct throws as [err|]; [left; by autorewrite with hook_core|].
  right. split_tests; autorewrite with hook_core; reflexivity.
Qed.

Lemma coreInv_start runId status :
  coreInv {| c_mounted := true; c_status := status;
             c_agentRunId := Some runId; c_currentRunId := Some runId;
             c_recovering := false; c_attempts := 0 |}.
Proof. split; [done|by left]. Qed.

Lemma coreInv_withCoreStatus v c : coreInv c -> coreInv (withCoreStatus v c).
Proof. done. Qed.

Lemma coreInv_withMounted v c : coreInv c -> coreInv (withMounted v c).
Proof. done. Qed.

Lemma hookStep_coreInv (ev : HookEvent) (h : Hook) :
  match ev with EvHealth _ | EvProgress _ | EvUnmount => False | _ => True end ->
  coreInv (coreOf h) -> coreInv (coreOf (hookStep' ev h)).
Proof.
  intros Hev Hinv.
  destruct ev as [runId now throws|throws now|rawData now|err now| | |u|u|];
    try done; simpl hookStep.
  - destruct (isMountedRef h) eqn:Hm.
    + rewrite coreOf_startStreaming by done. apply coreInv_start.
    + by rewrite startStreaming_unmounted.
  - destruct (coreOf_stopStreaming throws now h) as [-> | ->]; [done|].
    split; [done|]. apply Hinv.
  - destruct (coreOf_handleStreamMessage rawData now h) as [-> | ->];
      [done|by apply coreInv_withCoreStatus].
  - by autorewrite with hook_core.
Qed.

Lemma coreOf_retryConnection currentAttempt random (m : Monitored) :
  let c := coreOf (hook m) in
  coreOf (hook (retryConnection currentAttempt random m))
  = if negb (truthy (c_currentRunId c)) || negb (c_mounted c) then c
    else if c_recovering c || (MAX_RECONNECT_ATTEMPTS <=? c_attempts c)
         then c
         else withRecovery true (c_attempts c + 1) c.
Proof.
  unfold retryConnection. cbn [coreOf c_currentRunId c_mounted c_recovering
                               c_attempts].
  destruct (negb (truthy (currentRunIdRef (hook m)))
            || negb (isMountedRef (hook m))); [done|].
  cbn [hook].
  destruct (isRecovering (streamState (hook m))
            || (MAX_RECONNECT_ATTEMPTS
                <=? reconnectAttempts
                      (connectionHealth (streamState (hook m))))); [done|].
  by rewrite coreOf_setRecovery.
Qed.

Lemma retryConnection_coreInv currentAttempt random (m : Monitored) :
  coreInv (coreOf (hook m)) ->
  coreInv (coreOf (hook (retryConnection currentAttempt random m))).
Proof.
  intros Hinv. rewrite coreOf_retryConnection. cbv zeta.
  destruct (_ || _); [done|].
  destruct Hinv as [Hids [[Hr Ha]|[Hr Ha]]]; rewrite Hr, Ha; simpl.
  - split; [done|]. by right.
  - split; [done|]. right. by rewrite Hr, Ha.
Qed.

Lemma coreOf_reconnectTimer now now' throws (m : Monitored) :
  isMountedRef (hook m) = true ->
  truthy (currentRunIdRef (hook m)) = true ->
  coreOf (hook (reconnectTimer now now' throws m))
  = {| c_mounted := true;
       c_status := match throws with
                   | Some _ => "error"
                   | None => "connecting"
                   end;
       c_agentRunId := currentRunIdRef (hook m);
       c_currentRunId := currentRunIdRef (hook m);
       c_recovering := false; c_attempts := 0 |}.
Proof.
  intros Hm Hr. unfold reconnectTimer. rewrite Hm, Hr. simpl negb.
  simpl orb. cbv iota. unfold notify, onHook. cbn [hook].
  rewrite coreOf_setRecovery, coreOf_startStreaming by done.
  destruct (currentRunIdRef (hook m)); [reflexivity|discriminate].
Qed.

Lemma reconnectTimer_idle now now' throws (m : Monitored) :
  isMountedRef (hook m) && truthy (currentRunIdRef (hook m)) = false ->
  reconnectTimer now now' throws m = m.
Proof.
  intros Hg. unfold reconnectTimer.
  destruct (isMountedRef (hook m)), (truthy (currentRunIdRef (hook m)));
    done.
Qed.

Lemma coreOf_heartbeat_update r c (m : Monitored) :
  reconnectAttempts c = reconnectAttempts (healthOf (hook m)) ->
  r = isRecovering (streamState (hook m)) ->
  coreOf (hook (onHook (setRecovery r c) m)) = coreOf (hook m).
Proof.
  intros Hc ->. unfold onHook. cbn [hook]. rewrite coreOf_setRecovery, Hc.
  reflexivity.
Qed.

Lemma heartbeatTick_coreInv now currentAttempt random (m : Monitored) :
  coreInv (coreOf (hook m)) ->
  coreInv (coreOf (hook (heartbeatTick now currentAttempt random m))).
Proof.
  intros Hinv. unfold heartbeatTick.
  match goal with
  | |- context [onHook (setRecovery ?r ?c) m] =>
      assert (Hk : coreOf (hook (onHook (setRecovery r c) m))
                   = coreOf (hook m))
        by (by apply coreOf_heartbeat_update)
  end.
  destruct (_ && _).
  - apply retryConnection_coreInv. by rewrite Hk.
  - by rewrite Hk.
Qed.

Lemma coreOf_statusPollFires (m : Monitored) :
  coreOf (hook (statusPollFires m)) = coreOf (hook m).
Proof. unfold statusPollFires. by destruct (_ || _). Qed.

Lemma coreOf_statusSettles response now (m : Monitored) :
  coreOf (hook (statusSettles response now m)) = coreOf (hook m).
Proof.
  unfold statusSettles. destruct (statusAwaited m); [done|].
  unfold notify, onHook, setStatusAwaited.
  split_tests; cbn [hook]; autorewrite with hook_core; reflexivity.
Qed.

Lemma coreOf_stopCalled (m : Monitored) :
  coreOf (hook (stopCalled m)) = coreOf (hook m).
Proof.
  unfold stopCalled, stop_begin.
  destruct (_ || _); [done|].
  destruct (currentRunIdRef (hook m)); [|done].
  unfold setStopsAwaited, onHook. cbn [hook].
  by autorewrite with hook_core.
Qed.

(** A call of [stopStreaming] that resumes leaves what the guards read as
    it is, or clears the run and sets the status ['stopped']. *)
Lemma coreOf_stopSettles throws now (m : Monitored) :
  coreOf (hook (stopSettles throws now m)) = coreOf (hook m)
  \/ coreOf (hook (stopSettles throws now m))
     = withCoreStatus "stopped"
         (withCurrentRunId None (withAgentRunId None (coreOf (hook m)))).
Proof.
  unfold stopSettles. destruct (stopsAwaited m); [by left|].
  unfold setStopsAwaited, onHook. cbn [hook].
  unfold stop_resolved, stop_rejected.
  destruct throws as [err|]; [left; by autorewrite with hook_core|].
  right. split_tests; autorewrite with hook_core; reflexivity.
Qed.

Lemma coreOf_unmountAll (m : Monitored) :
  coreOf (hook (unmountAll m)) = withMounted false (coreOf (hook m)).
Proof.
  unfold unmountAll, notify, onHook. cbn [reconnectTimeoutRef].
  destruct (reconnectTimeoutRef m); cbn [hook]; apply coreOf_unmount.
Qed.

Lemma monitorStep_coreInv (ev : MonitorEvent) (m : Monitored) :
  coreInv (coreOf (hook m)) -> coreInv (coreOf (hook (monitorStep' ev m))).
Proof.
  intros Hinv.
  destruct ev; cbn [monitorStep lifeEvent onHook hook];
    try (by apply hookStep_coreInv).
  - by rewrite coreOf_stopCalled.
  - destruct (coreOf_stopSettles stopAgentThrows now m) as [-> | ->];
      [done|]. split; [done|]. apply Hinv.
  - by apply retryConnection_coreInv.
  - by apply heartbeatTick_coreInv.
  - by rewrite coreOf_statusPollFires.
  - by rewrite coreOf_statusSettles.
  - destruct (isMountedRef (hook m) && truthy (currentRunIdRef (hook m)))
      eqn:Hg.
    + apply andb_prop in Hg as [Hm Hr].
      rewrite coreOf_reconnectTimer by done.
      split; [done|by left].
    + by rewrite reconnectTimer_idle.
  - rewrite coreOf_unmountAll. by apply coreInv_withMounted.
Qed.

Lemma monitorRun_coreInv (evs : list MonitorEvent) (m : Monitored) :
  coreInv (coreOf (hook m)) -> coreInv (coreOf (hook (monitorRun' evs m))).
Proof.
  revert m. induction evs as [|ev evs IH]; intros m Hinv; [done|].
  cbn [monitorRun foldl]. apply IH. by apply monitorStep_coreInv.
Qed.

Lemma coreInv_initial now : coreInv (coreOf (hook (mounted (initialHook now)))).
Proof. split; [done|by left]. Qed.

(** X13.  Whatever happens to a hook in use (streams started and stopped,
    messages and stream errors, heartbeat and status ticks, retries and
    reconnect timers, renders, unmounting), the number of reconnect
    attempts it counts is zero while it is not recovering and one while it
    is: it never reaches the maximum of five. *)
Theorem reconnect_attempts_never_pass_one (evs : list MonitorEvent)
    (now : Z) :
  let h := hook (monitorRun' evs (mounted (initialHook now))) in
  (recoveryOf h = (false, 0) \/ recoveryOf h = (true, 1))
  /\ reconnectAttempts (healthOf h) < MAX_RECONNECT_ATTEMPTS.
Proof.
  intros h.
  destruct (monitorRun_coreInv evs _ (coreInv_initial now))
    as [_ [[Hr Ha]|[Hr Ha]]];
    fold h in Hr, Ha; cbn [coreOf c_recovering c_attempts] in Hr, Ha;
    unfold recoveryOf, healthOf; rewrite Hr, Ha;
    (split; [auto|done]).
Qed.

(** X14.  The run id that the hook returns to its caller and the run id
    that its callbacks and timers act on are the same, whatever happens to
    the hook. *)
Theorem run_id_state_and_ref_agree (evs : list MonitorEvent) (now : Z) :
  let h := hook (monitorRun' evs (mounted (initialHook now))) in
  agentRunId h = currentRunIdRef h.
Proof.
  intros h.
  by destruct (monitorRun_coreInv evs _ (coreInv_initial now)) as [Hids _].
Qed.

(** *** Reconnecting *)

Lemma startStreaming_calls_streamAgent runId now throws (h : Hook) :
  isMountedRef h = true ->
  CallStreamAgent runId ∈ effects (startStreaming runId now throws h).
Proof.
  intros Hm. unfold startStreaming. rewrite Hm. simpl negb. cbv iota.
  destruct throws as [err|].
  - rewrite effects_setStatus.
    apply effects_addError. rewrite effects_emit.
    apply elem_of_app. right. apply list_elem_of_here.
  - apply effects_updateProgress.
    rewrite effects_setStreamCleanupRef, effects_emit.
    apply elem_of_app. right. apply list_elem_of_here.
Qed.

(** X15.  On a mounted hook with a run, [retryConnection] sets a reconnect
    timeout whatever the state of the recovery; and when the timeout fires
    the stream is started again, the hook stops recovering with no attempt
    counted and a healthy connection, and the recovery is reported as a
    success to the caller and in a toast, also when [streamAgent] threw
    and the status of the hook is ['error']. *)
Theorem reconnect_always_reports_success currentAttempt random now now'
    throws runId (m : Monitored) :
  isMountedRef (hook m) = true ->
  currentRunIdRef (hook m) = Some runId ->
  runId <> "" ->
  let m1 := retryConnection currentAttempt random m in
  let m2 := reconnectTimer now now' throws m1 in
  notices m1
  = notices m
    ++ [SetReconnectTimeout (calculateRetryDelay currentAttempt random)]
  /\ notices m2
     = notices m1 ++ [OnRecovery true; ToastSuccess "Connection restored"]
  /\ CallStreamAgent runId ∈ effects (hook m2)
  /\ recoveryOf (hook m2) = (false, 0)
  /\ ch_status (healthOf (hook m2)) = healthy
  /\ lastHeartbeat (healthOf (hook m2)) = now'
  /\ status (hook m2) = match throws with
                        | Some _ => "error"
                        | None => "connecting"
                        end.
Proof.
  intros Hm Hid Hne m1 m2.
  assert (Ht : truthy (currentRunIdRef (hook m)) = true).
  { rewrite Hid. cbn [truthy]. by rewrite bool_decide_eq_false_2. }
  pose proof (coreOf_retryConnection currentAttempt random m) as Hc1.
  cbv zeta in Hc1. fold m1 in Hc1.
  cbn [coreOf c_currentRunId c_mounted] in Hc1.
  rewrite Hm, Ht in Hc1. simpl negb in Hc1. simpl orb in Hc1.
  cbv iota in Hc1.
  assert (Hm1 : isMountedRef (hook m1) = true).
  { change (c_mounted (coreOf (hook m1)) = true). rewrite Hc1.
    destruct (_ || _); exact Hm. }
  assert (Hid1 : currentRunIdRef (hook m1) = Some runId).
  { change (c_currentRunId (coreOf (hook m1)) = Some runId). rewrite Hc1.
    destruct (_ || _); exact Hid. }
  assert (Ht1 : truthy (currentRunIdRef (hook m1)) = true)
    by (by rewrite Hid1, <- Hid).
  pose proof (coreOf_reconnectTimer now now' throws m1 Hm1 Ht1) as Hc2.
  fold m2 in Hc2.
  assert (Hn1 : notices m1
                = notices m
                  ++ [SetReconnectTimeout
                        (calculateRetryDelay currentAttempt random)]).
  { unfold m1, retryConnection. by rewrite Hm, Ht. }
  assert (E2 : m2
               = notify (ToastSuccess "Connection restored")
                   (notify (OnRecovery true)
                      (onHook
                         (fun _ =>
                            setRecovery false
                              {| ch_status := healthy; lastHeartbeat := now';
                                 latency :=
                                   latency
                                     (connectionHealth
                                        (streamState
                                           (startStreaming runId now throws
                                                           (hook m1))));
                                 reconnectAttempts := 0 |}
                              (startStreaming runId now throws (hook m1)))
                         m1))).
  { unfold m2, reconnectTimer. rewrite Hm1, Ht1, Hid1. reflexivity. }
  split; [exact Hn1|].
  split; [rewrite E2; cbn [notices notify onHook]; by rewrite <- app_assoc|].
  split.
  { rewrite E2. cbn [hook notify onHook]. rewrite effects_setRecovery.
    by apply startStreaming_calls_streamAgent. }
  split.
  { change (recoveryOf (hook m2))
      with (c_recovering (coreOf (hook m2)), c_attempts (coreOf (hook m2))).
    by rewrite Hc2. }
  split; [by rewrite E2|]. split; [by rewrite E2|].
  change (status (hook m2)) with (c_status (coreOf (hook m2))).
  by rewrite Hc2.
Qed.

(** *** Heartbeats *)

Lemma healthOf_handleStreamMessage rawData now (h : Hook) :
  isMountedRef h = true ->
  healthOf (handleStreamMessage' rawData now h)
  = {| ch_status := healthy; lastHeartbeat := now;
       latency := latency (healthOf h);
       reconnectAttempts := reconnectAttempts (healthOf h) |}.
Proof.
  intros Hm. unfold handleStreamMessage, dispatchMessage. rewrite Hm.
  simpl negb. cbv iota. fold (heardAt now).
  split_tests; autorewrite with hook_health; by apply healthOf_heard.
Qed.

Lemma handleStreamMessage_keeps rawData now (h : Hook) :
  let h' := handleStreamMessage' rawData now h in
  isMountedRef h' = isMountedRef h
  /\ currentRunIdRef h' = currentRunIdRef h
  /\ isRecovering (streamState h') = isRecovering (streamState h).
Proof.
  intros h'.
  change (c_mounted (coreOf h') = c_mounted (coreOf h)
          /\ c_currentRunId (coreOf h') = c_currentRunId (coreOf h)
          /\ c_recovering (coreOf h') = c_recovering (coreOf h)).
  unfold h'.
  by destruct (coreOf_handleStreamMessage rawData now h) as [-> | ->].
Qed.

Lemma heartbeatTick_spec now currentAttempt random (m : Monitored) :
  let h := hook m in
  let silence := now - lastHeartbeat (healthOf h) in
  let newStatus :=
    if HEARTBEAT_INTERVAL * 4 <? silence then disconnected
    else if HEARTBEAT_INTERVAL * 2 <? silence then degraded
    else ch_status (healthOf h) in
  let m' := heartbeatTick now currentAttempt random m in
  ch_status (healthOf (hook m')) = newStatus
  /\ lastHeartbeat (healthOf (hook m')) = lastHeartbeat (healthOf h)
  /\ notices m'
     = notices m
       ++ (if bool_decide (newStatus = disconnected)
              && negb (isRecovering (streamState h))
              && truthy (currentRunIdRef h)
              && isMountedRef h
           then [SetReconnectTimeout
                   (calculateRetryDelay currentAttempt random)]
           else []).
Proof.
  destruct m as [h t n]. cbv zeta. unfold heartbeatTick, healthOf.
  cbn [hook notices].
  generalize (if HEARTBEAT_INTERVAL * 4
                 <? now - lastHeartbeat (connectionHealth (streamState h))
              then disconnected
              else if HEARTBEAT_INTERVAL * 2
                      <? now - lastHeartbeat
                                 (connectionHealth (streamState h))
                   then degraded
                   else ch_status (connectionHealth (streamState h))).
  intros newStatus.
  destruct (bool_decide (newStatus = disconnected)
            && negb (isRecovering (streamState h))
            && truthy (currentRunIdRef h)) eqn:Hc;
    [|cbn [andb onHook hook notices]; by rewrite app_nil_r].
  apply andb_prop in Hc as [_ Ht].
  unfold retryConnection, onHook. cbn [hook notices reconnectTimeoutRef].
  rewrite currentRunIdRef_setRecovery, isMountedRef_setRecovery, Ht.
  destruct (isMountedRef h); cbn [negb orb andb hook notices];
    [|by rewrite app_nil_r].
  by destruct (_ || _).
Qed.

(** X16.  After a stream message at time [now] the connection of a
    mounted hook is healthy; the heartbeat tick at time [now'] then leaves
    it healthy up to ten seconds of silence, calls it degraded up to
    twenty, and disconnected after that; and the tick sets a reconnect
    timeout exactly when the connection is disconnected, the hook has a
    run and is not already recovering. *)
Theorem heartbeat_after_message rawData now now' currentAttempt random
    (m : Monitored) :
  isMountedRef (hook m) = true ->
  let m1 := onHook (handleStreamMessage' rawData now) m in
  let m2 := heartbeatTick now' currentAttempt random m1 in
  let reconnects :=
    (HEARTBEAT_INTERVAL * 4 <? now' - now)
    && negb (isRecovering (streamState (hook m)))
    && truthy (currentRunIdRef (hook m)) in
  ch_status (healthOf (hook m1)) = healthy
  /\ lastHeartbeat (healthOf (hook m1)) = now
  /\ ch_status (healthOf (hook m2))
     = (if HEARTBEAT_INTERVAL * 4 <? now' - now then disconnected
        else if HEARTBEAT_INTERVAL * 2 <? now' - now then degraded
        else healthy)
  /\ lastHeartbeat (healthOf (hook m2)) = now
  /\ notices m2
     = notices m
       ++ (if reconnects
           then [SetReconnectTimeout
                   (calculateRetryDelay currentAttempt random)]
           else []).
Proof.
  intros Hm m1 m2 reconnects.
  pose proof (healthOf_handleStreamMessage rawData now (hook m) Hm) as Hh.
  destruct (handleStreamMessage_keeps rawData now (hook m))
    as (Hm1 & Hid1 & Hr1).
  destruct (heartbeatTick_spec now' currentAttempt random m1)
    as (Hs & Hl & Hn).
  fold m2 in Hs, Hl, Hn.
  change (hook m1) with (handleStreamMessage' rawData now (hook m)) in *.
  rewrite Hh in Hs, Hl, Hn. rewrite Hm1, Hid1, Hr1, Hm in Hn.
  cbn [lastHeartbeat ch_status] in Hs, Hl, Hn.
  rewrite Hh. cbn [lastHeartbeat ch_status].
  split; [done|]. split; [done|]. split; [exact Hs|]. split; [exact Hl|].
  rewrite Hn. change (notices m1) with (notices m). f_equal.
  unfold reconnects. rewrite andb_true_r.
  destruct (HEARTBEAT_INTERVAL * 4 <? now' - now).
  - by rewrite bool_decide_eq_true_2.
  - destruct (HEARTBEAT_INTERVAL * 2 <? now' - now);
      by rewrite bool_decide_eq_false_2.
Qed.

(** *** Completed steps *)

Lemma handleStreamMessage_stepsDistinct rawData now (h : Hook) :
  stepsDistinct (progressOf h) ->
  stepsDistinct (progressOf (handleStreamMessage' rawData now h)).
Proof.
  intros Hinv. unfold handleStreamMessage, dispatchMessage.
  split_tests; steps_distinct; exact Hinv.
Qed.

Lemma stepsDistinct_nil p : completedSteps p = [] -> stepsDistinct p.
Proof.
  intros Hp. unfold stepsDistinct. rewrite Hp.
  split; [apply NoDup_nil_2|apply not_elem_of_nil].
Qed.

Lemma startStreaming_stepsDistinct runId now throws (h : Hook) :
  stepsDistinct (progressOf h) ->
  stepsDistinct (progressOf (startStreaming runId now throws h)).
Proof.
  intros Hinv. unfold startStreaming.
  destruct (negb (isMountedRef h)); [done|]. cbv zeta.
  destruct throws; steps_distinct; by apply stepsDistinct_nil.
Qed.

Lemma stopStreaming_stepsDistinct throws now (h : Hook) :
  stepsDistinct (progressOf h) ->
  stepsDistinct (progressOf (stopStreaming throws now h)).
Proof.
  intros Hinv. unfold stopStreaming, stop_begin.
  destruct (negb (isMountedRef h) || negb (truthy (currentRunIdRef h)));
    [done|].
  destruct (currentRunIdRef h) as [runId|]; [|done]. cbv iota beta.
  unfold stop_resolved, stop_rejected.
  destruct throws as [err|]; [by steps_distinct|].
  split_tests; steps_distinct; exact Hinv.
Qed.

Lemma hookStep_stepsDistinct (ev : HookEvent) (h : Hook) :
  match ev with EvHealth _ | EvProgress _ | EvUnmount => False | _ => True end ->
  stepsDistinct (progressOf h) ->
  stepsDistinct (progressOf (hookStep' ev h)).
Proof.
  intros Hev Hinv.
  destruct ev as [runId now throws|throws now|rawData now|err now| | |u|u|];
    try done; cbn [hookStep].
  - by apply startStreaming_stepsDistinct.
  - by apply stopStreaming_stepsDistinct.
  - by apply handleStreamMessage_stepsDistinct.
  - by steps_distinct.
Qed.

Lemma monitorStep_stepsDistinct (ev : MonitorEvent) (m : Monitored) :
  stepsDistinct (progressOf (hook m)) ->
  stepsDistinct (progressOf (hook (monitorStep' ev m))).
Proof.
  intros Hinv.
  destruct ev; cbn [monitorStep lifeEvent onHook hook];
    try (by apply hookStep_stepsDistinct).
  - unfold stopCalled, stop_begin.
    destruct (_ || _); [done|].
    destruct (currentRunIdRef (hook m)); [|done].
    unfold setStopsAwaited, onHook. cbn [hook]. by steps_distinct.
  - unfold stopSettles. destruct (stopsAwaited m); [done|].
    unfold setStopsAwaited, onHook. cbn [hook].
    unfold stop_resolved, stop_rejected.
    destruct stopAgentThrows as [err|]; [by steps_distinct|].
    split_tests; steps_distinct; exact Hinv.
  - unfold retryConnection. split_tests; cbn [hook]; by steps_distinct.
  - unfold heartbeatTick, retryConnection, onHook.
    split_tests; cbn [hook]; by steps_distinct.
  - unfold statusPollFires. by destruct (_ || _).
  - unfold statusSettles. destruct (statusAwaited m); [done|].
    unfold notify, onHook, setStatusAwaited.
    split_tests; cbn [hook]; steps_distinct; exact Hinv.
  - unfold reconnectTimer, notify, onHook.
    split_tests; cbn [hook]; steps_distinct; try exact Hinv.
    all: by apply startStreaming_stepsDistinct.
  - unfold unmountAll, notify, onHook. cbn [reconnectTimeoutRef].
    destruct (reconnectTimeoutRef m); cbn [hook]; by steps_distinct.
Qed.

(** X17.  Whatever happens to a hook in use, the completed steps of its
    progress list no step twice and never the empty step. *)
Theorem completed_steps_stay_distinct (evs : list MonitorEvent) (now : Z) :
  let h := hook (monitorRun' evs (mounted (initialHook now))) in
  NoDup (completedSteps (progressOf h))
  /\ "" ∉ completedSteps (progressOf h).
Proof.
  cbv zeta. change (stepsDistinct
                      (progressOf
                         (hook (monitorRun' evs
                                  (mounted (initialHook now)))))).
  assert (Hinit : stepsDistinct (progressOf (hook (mounted (initialHook now)))))
    by (by apply stepsDistinct_nil).
  revert Hinit. generalize (mounted (initialHook now)).
  induction evs as [|ev evs IH]; intros m Hinv; [done|].
  cbn [monitorRun foldl]. apply IH. by apply monitorStep_stepsDistinct.
Qed.

(** *** After unmounting *)

Lemma hookStep_unmounted (ev : HookEvent) (h : Hook) :
  match ev with EvHealth _ | EvProgress _ | EvUnmount => False | _ => True end ->
  isMountedRef h = false ->
  isMountedRef (hookStep' ev h) = false
  /\ effects (hookStep' ev h) = effects h.
Proof.
  intros Hev Hm.
  destruct ev as [runId now throws|throws now|rawData now|err now| | |u|u|];
    try done; cbn [hookStep].
  - by rewrite startStreaming_unmounted.
  - unfold stopStreaming, stop_begin. by rewrite Hm.
  - unfold handleStreamMessage. by rewrite Hm.
  - unfold addError. rewrite Hm. cbn [negb].
    unfold updateConnectionHealth. by rewrite Hm.
Qed.

(** Nothing is suspended at an [await]. *)
Lemma monitorStep_unmounted (ev : MonitorEvent) (m : Monitored) :
  ev <> Unmount ->
  isMountedRef (hook m) = false ->
  stopsAwaited m = 0%nat ->
  statusAwaited m = 0%nat ->
  let m' := monitorStep' ev m in
  isMountedRef (hook m') = false
  /\ effects (hook m') = effects (hook m)
  /\ notices m' = notices m
  /\ stopsAwaited m' = 0%nat
  /\ statusAwaited m' = 0%nat.
Proof.
  intros Hev Hm Hstop Hstatus. cbv zeta.
  destruct ev; try done; cbn [monitorStep lifeEvent];
    try (unfold onHook; cbn [hook notices stopsAwaited statusAwaited];
         split; [|split; [|done]]; by apply hookStep_unmounted).
  - unfold stopCalled, stop_begin. by rewrite Hm.
  - unfold stopSettles. by rewrite Hstop.
  - unfold retryConnection. by rewrite Hm, orb_true_r.
  - destruct (heartbeatTick_spec now currentAttempt random m)
      as (_ & _ & Hn).
    rewrite Hm, andb_false_r, app_nil_r in Hn.
    split; [|split; [|split; [done|]]]; unfold heartbeatTick;
      (destruct (_ && _);
       [unfold retryConnection, onHook; cbn [hook];
        by rewrite isMountedRef_setRecovery, Hm, orb_true_r
       |done]).
  - unfold statusPollFires. by rewrite Hm, orb_true_r.
  - unfold statusSettles. by rewrite Hstatus.
  - rewrite reconnectTimer_idle; [done|by rewrite Hm].
Qed.

(** X18.  Once the hook is unmounted and none of its calls is suspended at
    an [await], nothing it is asked to do and no timer or stream message
    reaches the outside: no callback of the caller, no toast, no call of
    the API, no timeout.  A call that is suspended when the hook is
    unmounted does reach the outside when it resumes: a [stopStreaming]
    whose [stopAgent] resolves calls [onClose], and a callback of the
    status interval whose [getAgentStatus] resolves with a status calls
    [onStatusChange]. *)
Theorem unmounted_hook_is_silent (evs : list MonitorEvent)
    (m : Monitored) :
  isMountedRef (hook m) = false ->
  Forall (fun ev => ev <> Unmount) evs ->
  (stopsAwaited m = 0%nat ->
   statusAwaited m = 0%nat ->
   let m' := monitorRun' evs m in
   isMountedRef (hook m') = false
   /\ effects (hook m') = effects (hook m)
   /\ notices m' = notices m)
  /\ (forall now,
        stopsAwaited m <> 0%nat ->
        effects (hook (monitorStep' (StopSettles None now) m))
        = effects (hook m)
          ++ (if streamCleanupRef (hook m) then [CallStreamCleanup] else [])
          ++ (if heartbeatIntervalRef (hook m)
              then [ClearHeartbeatInterval] else [])
          ++ (if statusPollIntervalRef (hook m)
              then [ClearStatusPollInterval] else [])
          ++ [OnClose "stopped"])
  /\ (forall status now,
        statusAwaited m <> 0%nat ->
        status <> "" ->
        notices (monitorStep' (StatusSettles (Some (statusOnly status)) now)
                              m)
        = notices m ++ [OnStatusChange status]).
Proof.
  intros Hm Hevs. split; [|split].
  - intros Hstop Hstatus. cbv zeta. revert m Hm Hstop Hstatus.
    induction Hevs as [|ev evs Hev _ IH]; intros m Hm Hstop Hstatus;
      [done|].
    cbn [monitorRun foldl].
    destruct (monitorStep_unmounted ev m Hev Hm Hstop Hstatus)
      as (Hm' & He & Hn & Hstop' & Hstatus').
    destruct (IH _ Hm' Hstop' Hstatus') as (IH1 & IH2 & IH3).
    split; [exact IH1|]. split; [by rewrite <- He|by rewrite <- Hn].
  - intros now Hstop. cbn [monitorStep]. unfold stopSettles.
    destruct (stopsAwaited m); [done|].
    unfold setStopsAwaited, onHook. cbn [hook].
    destruct (hook m) as [run st text tool err state cleanup mt ref hb sp ef].
    cbn [isMountedRef] in Hm. subst mt.
    destruct cleanup, hb, sp; cbv -[app]; by rewrite <- ?app_assoc.
  - intros status now Hstatus Hne. cbn [monitorStep]. unfold statusSettles.
    destruct (statusAwaited m); [done|].
    cbn [si_status statusOnly truthy].
    rewrite bool_decide_eq_false_2 by done. cbn [negb].
    cbn [si_queue_position]. unfold notify. cbn [notices].
    by destruct (hasKeys _).
Qed.

(** *** Messages that mention completion *)

(** X19.  A stream message whose text contains the word ['completed'] or
    the words ['Stream ended'] is never parsed: whatever it is, a chunk of
    the assistant's text for instance, a mounted hook only records the
    heartbeat and sets the progress to 100 percent, step ['Completed'];
    the text, the tool call, the status and the error stay as they
    were. *)
Theorem completion_words_preempt_parsing rawData now (h : Hook)
    (parseMessage2 : string -> option UnifiedMessage)
    (parseContent2 : string -> ParsedContent)
    (parseMetadata2 : string -> ParsedMetadata) :
  isMountedRef h = true ->
  includes "completed" (processedDataOf rawData)
  || includes "Stream ended" (processedDataOf rawData) = true ->
  let h' := handleStreamMessage' rawData now h in
  h' = handleStreamMessage parseMessage2 parseContent2 parseMetadata2
                           rawData now h
  /\ textContent h' = textContent h
  /\ toolCall h' = toolCall h
  /\ status h' = status h
  /\ error h' = error h
  /\ percentage (progressOf h') = 100
  /\ currentStep (progressOf h') = "Completed"
  /\ ch_status (healthOf h') = healthy
  /\ lastHeartbeat (healthOf h') = now.
Proof.
  intros Hm Hc h'. unfold h'.
  rewrite !handleStreamMessage_completed by done.
  assert (Hm1 : isMountedRef (updateConnectionHealth (heardAt now) h) = true).
  { change (c_mounted (coreOf (updateConnectionHealth (heardAt now) h))
            = true).
    by rewrite coreOf_updateConnectionHealth. }
  split; [done|].
  split; [by rewrite textContent_updateProgress,
                     textContent_updateConnectionHealth|].
  split.
  { unfold updateProgress. rewrite Hm1. cbn [negb].
    unfold updateConnectionHealth. rewrite Hm. cbn [negb].
    by destruct (decide _). }
  split.
  { change (c_status
              (coreOf (updateProgress (percentStepUpdate 100 "Completed")
                         (updateConnectionHealth (heardAt now) h)))
            = c_status (coreOf h)).
    by rewrite coreOf_updateProgress, coreOf_updateConnectionHealth. }
  split.
  { unfold updateProgress. rewrite Hm1. cbn [negb].
    unfold updateConnectionHealth. rewrite Hm. cbn [negb].
    by destruct (decide _). }
  split; [unfold updateProgress; by rewrite Hm1|].
  split; [unfold updateProgress; by rewrite Hm1|].
  rewrite healthOf_updateProgress, healthOf_heard by done. done.
Qed.

End Core.

(** Silence at a concrete hook: unmounted during a run, then a message, a
    stream error, the timers and a call of [stopStreaming]. *)
Lemma unmounted_hook_is_silent_witness :
  let m := unmountAll
             (mounted (startStreaming "run-1" 0 None (initialHook 0))) in
  let m' := monitorRun (fun _ => None) (fun _ => noContent)
                       (fun _ => noMetadata)
                       [Message "data: hello" 1; StreamError "network" 2;
                        HeartbeatFires 30000 0 (1 # 2);
                        StatusPollFires; StatusSettles None 30001;
                        Retry 0 (1 # 2);
                        ReconnectFires 30002 30003 None;
                        StopCalled; StopSettles None 30004]
                       m in
  effects (hook m') = effects (hook m) /\ notices m' = notices m.
Proof.
  intros m m'.
  destruct (unmounted_hook_is_silent (fun _ => None) (fun _ => noContent)
              (fun _ => noMetadata)
              [Message "data: hello" 1; StreamError "network" 2;
               HeartbeatFires 30000 0 (1 # 2);
               StatusPollFires; StatusSettles None 30001; Retry 0 (1 # 2);
               ReconnectFires 30002 30003 None;
               StopCalled; StopSettles None 30004] m)
    as (Hsilent & _).
  - vm_compute. reflexivity.
  - repeat constructor; discriminate.
  - destruct (Hsilent eq_refl eq_refl) as (_ & He & Hn).
    split; [exact He|exact Hn].
Defined.

(** The words at a concrete message: a chunk of the assistant's text,
    given to a parser that would read it as such. *)
Lemma completion_words_preempt_parsing_witness :
  let asChunk := fun _ : string =>
    Some {| msg_type := "assistant"; msg_content := "";
            msg_metadata := ""; msg_message_id := None;
            msg_sequence := Some 1; msg_status := None |} in
  let h := startStreaming "run-1" 0 None (initialHook 0) in
  let h' := handleStreamMessage asChunk
              (fun _ => {| pc_content := Some "I completed the task";
                           pc_rest := "" |})
              (fun _ => {| stream_status := Some "chunk" |})
              "data: {'content': 'I completed the task'}" 1 h in
  textContent h' = [] /\ percentage (progressOf h') = 100.
Proof.
  intros asChunk h h'.
  destruct (completion_words_preempt_parsing asChunk
              (fun _ => {| pc_content := Some "I completed the task";
                           pc_rest := "" |})
              (fun _ => {| stream_status := Some "chunk" |})
              "data: {'content': 'I completed the task'}" 1 h
              (fun _ => None) (fun _ => noContent) (fun _ => noMetadata))
    as (_ & Ht & _ & _ & _ & Hp & _).
  - vm_compute. reflexivity.
  - vm_compute. reflexivity.
  - fold h' in Ht, Hp. split; [by rewrite Ht|exact Hp].
Defined.

(** The reconnect at a concrete hook: a run whose stream cannot be started
    again. *)
Lemma reconnect_always_reports_success_witness :
  let m := mounted (startStreaming "run-1" 0 None (initialHook 0)) in
  let m2 := reconnectTimer 30000 30001 (Some "offline")
                           (retryConnection 0 (1 # 2) m) in
  OnRecovery true ∈ notices m2 /\ status (hook m2) = "error".
Proof.
  intros m m2.
  destruct (reconnect_always_reports_success 0 (1 # 2) 30000 30001
              (Some "offline") "run-1" m)
    as (Hn1 & Hn2 & _ & _ & _ & _ & Hs).
  - vm_compute. reflexivity.
  - vm_compute. reflexivity.
  - discriminate.
  - split; [|exact Hs].
    fold m2 in Hn2. rewrite Hn2. apply elem_of_app. right.
    apply list_elem_of_here.
Defined.

(** The heartbeat at a concrete hook: a run that has been silent for
    twenty-five seconds. *)
Lemma heartbeat_after_message_witness :
  let m := mounted (startStreaming "run-1" 0 None (initialHook 0)) in
  let m2 := heartbeatTick 26000 0 (1 # 2)
              (onHook (handleStreamMessage (fun _ => None) (fun _ => noContent)
                                           (fun _ => noMetadata)
                                           "data: ping" 1000) m) in
  ch_status (healthOf (hook m2)) = disconnected
  /\ notices m2 = [SetReconnectTimeout (calculateRetryDelay 0 (1 # 2))].
Proof.
  intros m m2.
  destruct (heartbeat_after_message (fun _ => None) (fun _ => noContent)
              (fun _ => noMetadata) "data: ping" 1000 26000 0 (1 # 2) m)
    as (_ & _ & Hs & _ & Hn).
  - vm_compute. reflexivity.
  - split; [exact Hs|exact Hn].
Defined.

End AgentStreamMoreFacts.

(** ** The system health dashboard *)

Module DashboardFacts.

Import Dashboard.

(** X20.  The health the dashboard computes from its three requests: the
    overall status is healthy or unhealthy and never degraded, and no
    component is degraded; it is healthy exactly when the three requests
    are fulfilled with the statuses ['healthy'], ['healthy'] and ['ok'];
    the sandbox is unknown only when the database is unhealthy, and
    healthy whenever the general request is fulfilled, whatever its
    status. *)
Theorem overall_health_is_never_degraded
    (redisHealth llmHealth generalHealth : SettledResult)
    (health : SystemHealth) :
  fetchHealth redisHealth llmHealth generalHealth = Some health ->
  (sh_status health = Healthy \/ sh_status health = Unhealthy)
  /\ (sh_status health = Healthy <->
      fulfilledWith "healthy" redisHealth = Some true
      /\ fulfilledWith "healthy" llmHealth = Some true
      /\ fulfilledWith "ok" generalHealth = Some true)
  /\ (Degraded ∉ [redis (components health); llm (components health);
                  database (components health);
                  sandbox (components health)])
  /\ (sandbox (components health) = Unknown ->
      database (components health) = Unhealthy)
  /\ (sandbox (components health) = Healthy <->
      isFulfilled generalHealth = true).
Proof.
  unfold fetchHealth.
  destruct (fulfilledWith "healthy" redisHealth) as [[]|] eqn:Hr;
    [| |discriminate];
    (destruct (fulfilledWith "healthy" llmHealth) as [[]|] eqn:Hl;
     [| |discriminate]);
    (destruct generalHealth as [[|status]|];
     [discriminate| |]; cbn [fulfilledWith isFulfilled];
     try destruct (bool_decide (status = Some "ok")));
    intros [= <-]; cbn [sh_status components redis llm database sandbox];
    (split; [vm_compute; auto|]);
    (split; [vm_compute; split; [try discriminate; auto
                                |intros (? & ? & ?); congruence]|]);
    (split; [intros Hd; apply list_elem_of_In in Hd; simpl in Hd;
             intuition discriminate|]);
    (split; [try discriminate; auto|]);
    split; (discriminate || auto).
Qed.

(** The dashboard at concrete results: the general request is fulfilled
    with a status that is not ['ok'], the others are healthy. *)
Lemma overall_health_is_never_degraded_witness :
  let health := {| sh_status := Unhealthy;
                   components := {| redis := Healthy; llm := Healthy;
                                    database := Unhealthy;
                                    sandbox := Healthy |} |} in
  (sh_status health = Healthy \/ sh_status health = Unhealthy)
  /\ (sandbox (components health) = Healthy <->
      isFulfilled (Fulfilled (WithStatus (Some "error"))) = true).
Proof.
  intros health.
  destruct (overall_health_is_never_degraded
              (Fulfilled (WithStatus (Some "healthy")))
              (Fulfilled (WithStatus (Some "healthy")))
              (Fulfilled (WithStatus (Some "error"))) health)
    as (H1 & _ & _ & _ & H5).
  - vm_compute. reflexivity.
  - split; [exact H1|exact H5].
Defined.

End DashboardFacts.
